(** * gltf-pipeline: Draco mesh / animation compression passes

    A shallow embedding of [lib/compressDracoMeshes.js],
    [lib/decompressDracoMeshes.js] and [lib/compressDracoAnimations.js].

    JavaScript objects are records, arrays are lists addressed with stdpp's
    lookup, property bags that are iterated with [for .. in] are association
    lists in enumeration order, and the hash cache is a [gmap].  Code that can
    throw lives in a small state-and-exception monad whose result always
    carries the asset as it is at the moment of the throw, because the passes
    mutate the asset in place and never roll back. *)

From Stdlib Require Import ZArith QArith Qminmax Bool.
From stdpp Require Import gmap strings list.

Local Open Scope string_scope.
Local Open Scope list_scope.

(* ================================================================== *)
(** ** JavaScript prelude *)
(* ================================================================== *)

Module Js.

(** The completion of a JavaScript call: a normal return or a throw. *)
Inductive completion (A : Type) : Type :=
| Return (a : A)
| Throw (err : string).
Arguments Return {A} a.
Arguments Throw {A} err.

(** Stateful code: the store is threaded through and is still there after a
    throw (no rollback). *)
Definition M (S A : Type) : Type := S -> completion A * S.

Definition ret {S A} (a : A) : M S A := fun s => (Return a, s).
Definition throw {S A} (err : string) : M S A := fun s => (Throw err, s).
Definition bind {S A B} (c : M S A) (k : A -> M S B) : M S B :=
  fun s => match c s with
           | (Return a, s') => k a s'
           | (Throw e, s') => (Throw e, s')
           end.
Definition get {S} : M S S := fun s => (Return s, s).
Definition put {S} (s : S) : M S unit := fun _ => (Return tt, s).
Definition modify {S} (f : S -> S) : M S unit := fun s => (Return tt, f s).
Definition lift {S A} (c : completion A) : M S A := fun s => (c, s).

(** [array.forEach] / the [ForEach.*] helpers with a handler that returns
    nothing: the elements are visited in order and a throw stops the walk. *)
Fixpoint forEach {S A} (l : list A) (h : A -> M S unit) : M S unit :=
  match l with
  | [] => ret tt
  | x :: l' => bind (h x) (fun _ => forEach l' h)
  end.

(** A JavaScript number: a finite value, one of the two infinities (which
    [arrayFill] seeds the bounding box with), or [NaN] (what [Math.min]
    makes of a missing array slot, and a value an option can hold as well).
    Finite values are exact rationals; rounding is not modelled. *)
Inductive number : Type :=
| NaN
| NegInf
| Fin (q : Q)
| PosInf.

Definition Math_min (a b : number) : number :=
  match a, b with
  | NaN, _ | _, NaN => NaN
  | NegInf, _ | _, NegInf => NegInf
  | PosInf, x | x, PosInf => x
  | Fin x, Fin y => if Qle_bool x y then Fin x else Fin y
  end.

Definition Math_max (a b : number) : number :=
  match a, b with
  | NaN, _ | _, NaN => NaN
  | PosInf, _ | _, PosInf => PosInf
  | NegInf, x | x, NegInf => x
  | Fin x, Fin y => if Qle_bool x y then Fin y else Fin x
  end.

Definition minus (a b : number) : number :=
  match a, b with
  | NaN, _ | _, NaN => NaN
  | PosInf, PosInf | NegInf, NegInf => NaN
  | PosInf, _ | _, NegInf => PosInf
  | NegInf, _ | _, PosInf => NegInf
  | Fin x, Fin y => Fin (x - y)
  end.

Definition Qlt_bool (a b : Q) : bool := negb (Qle_bool b a).

(** [a < b] on numbers: false as soon as one side is [NaN]. *)
Definition lessThan (a b : number) : bool :=
  match a, b with
  | NaN, _ | _, NaN => false
  | NegInf, NegInf => false
  | NegInf, _ => true
  | PosInf, _ => false
  | Fin _, NegInf => false
  | Fin x, Fin y => Qlt_bool x y
  | Fin _, PosInf => true
  end.

(** A value read from an options bag.  [typeof] is ["number"] for every
    [VNum], [NaN] and the infinities included. *)
Inductive value : Type :=
| VUndefined
| VNull
| VNum (n : number)
| VBool (b : bool)
| VStr (s : string).

(** [Cesium.defined(v)]: neither [undefined] nor [null]. *)
Definition defined (v : value) : bool :=
  match v with VUndefined | VNull => false | _ => true end.

(** [Cesium.defaultValue(a, b)]. *)
Definition defaultValue (a b : value) : value :=
  if defined a then a else b.

(** Truthiness, for [if (unifiedQuantization)]. *)
Definition truthy (v : value) : bool :=
  match v with
  | VUndefined | VNull => false
  | VNum NaN => false
  | VNum (Fin q) => negb (Qeq_bool q 0)
  | VNum _ => true
  | VBool b => b
  | VStr s => negb (String.eqb s EmptyString)
  end.

(** [arr[j]] used as a number: a missing slot is [undefined], which the
    [Math] functions coerce to [NaN]. *)
Definition numberAt (arr : list Q) (j : nat) : number :=
  match arr !! j with
  | Some q => Fin q
  | None => NaN
  end.

(** A property bag in [for .. in] order.  Keys are pairwise distinct, as in
    every JavaScript object. *)
Definition object (V : Type) : Type := list (string * V).

Fixpoint lookupKey {V} (o : object V) (k : string) : option V :=
  match o with
  | [] => None
  | (k', v) :: o' => if String.eqb k' k then Some v else lookupKey o' k
  end.

(** [o[k] = v]: an existing key keeps its place, a new key goes last. *)
Fixpoint assignKey {V} (o : object V) (k : string) (v : V) : object V :=
  match o with
  | [] => [(k, v)]
  | (k', v') :: o' =>
      if String.eqb k' k then (k', v) :: o' else (k', v') :: assignKey o' k v
  end.

Definition keys {V} (o : object V) : list string := map fst o.

End Js.

Export Js.

Declare Scope js_scope.
Delimit Scope js_scope with js.
Notation "x <- c ;; k" := (bind c (fun x => k))
  (at level 100, c at next level, right associativity) : js_scope.
Notation "c ;;; k" := (bind c (fun _ => k))
  (at level 100, right associativity) : js_scope.
Local Open Scope js_scope.

(* ================================================================== *)
(** ** The asset *)
(* ================================================================== *)

(** WebGL constants used by the passes. *)
Module WebGLConstants.
Definition BYTE : Z := 5120%Z.
Definition UNSIGNED_BYTE : Z := 5121%Z.
Definition SHORT : Z := 5122%Z.
Definition UNSIGNED_SHORT : Z := 5123%Z.
Definition INT : Z := 5124%Z.
Definition UNSIGNED_INT : Z := 5125%Z.
Definition FLOAT : Z := 5126%Z.
Definition TRIANGLES : Z := 4%Z.
End WebGLConstants.

Record Accessor : Type := mkAccessor {
  acc_bufferView : option nat;
  acc_byteOffset : option nat;
  acc_componentType : Z;
  acc_count : nat;
  acc_type : string;
  acc_min : option (list Q);
  acc_max : option (list Q);
  (* every other own property (name, normalized, sparse, extras, ...) *)
  acc_other : object string
}.

Record BufferView : Type := mkBufferView {
  bv_buffer : nat;
  bv_byteOffset : nat;
  bv_byteLength : Z
}.

(** A buffer with its bytes ([extras._pipeline.source]), each in 0..255. *)
Record Buffer : Type := mkBuffer {
  buf_byteLength : Z;
  buf_source : list Z
}.

(** The [KHR_draco_mesh_compression] record of a primitive. *)
Record DracoExtension : Type := mkDracoExtension {
  ext_bufferView : nat;
  ext_attributes : object Z
}.

(** [primitive.extensions]: the Draco record and whatever else is there. *)
Record Extensions : Type := mkExtensions {
  KHR_draco_mesh_compression : option DracoExtension;
  ext_others : object string
}.

Record Primitive : Type := mkPrimitive {
  attributes : object nat;
  indices : option nat;
  mode : option Z;
  targets : option (list (object nat));
  extensions : option Extensions;
  material : option nat
}.

Record Mesh : Type := mkMesh {
  primitives : list Primitive;
  mesh_name : option string
}.

Record Sampler : Type := mkSampler {
  input : option nat;
  output : option nat;
  interpolation : option string
}.

Record Animation : Type := mkAnimation {
  samplers : list Sampler
}.

(** One entry of the [Draco_animation_compression] array. *)
Record CompressedAnimation : Type := mkCompressedAnimation {
  ca_input : nat;
  ca_outputs : list nat;
  ca_attributesId : option (list Z);
  ca_bufferView : option nat
}.

Record Gltf : Type := mkGltf {
  accessors : list Accessor;
  bufferViews : list BufferView;
  buffers : list Buffer;
  meshes : list Mesh;
  animations : list Animation;
  extensionsUsed : list string;
  extensionsRequired : list string;
  Draco_animation_compression : option (list CompressedAnimation)
}.

Definition set_accessors (g : Gltf) (a : list Accessor) : Gltf :=
  mkGltf a (bufferViews g) (buffers g) (meshes g) (animations g)
         (extensionsUsed g) (extensionsRequired g) (Draco_animation_compression g).
Definition set_bufferViews (g : Gltf) (b : list BufferView) : Gltf :=
  mkGltf (accessors g) b (buffers g) (meshes g) (animations g)
         (extensionsUsed g) (extensionsRequired g) (Draco_animation_compression g).
Definition set_buffers (g : Gltf) (b : list Buffer) : Gltf :=
  mkGltf (accessors g) (bufferViews g) b (meshes g) (animations g)
         (extensionsUsed g) (extensionsRequired g) (Draco_animation_compression g).
Definition set_meshes (g : Gltf) (m : list Mesh) : Gltf :=
  mkGltf (accessors g) (bufferViews g) (buffers g) m (animations g)
         (extensionsUsed g) (extensionsRequired g) (Draco_animation_compression g).
Definition set_animations (g : Gltf) (a : list Animation) : Gltf :=
  mkGltf (accessors g) (bufferViews g) (buffers g) (meshes g) a
         (extensionsUsed g) (extensionsRequired g) (Draco_animation_compression g).

(** A primitive is an object inside the asset; code that holds on to one (the
    hash cache does) holds a reference: mesh index and primitive index. *)
Definition PrimitiveRef : Type := (nat * nat)%type.

Definition getPrimitive (g : Gltf) (r : PrimitiveRef) : option Primitive :=
  match meshes g !! r.1 with
  | Some m => primitives m !! r.2
  | None => None
  end.

Definition setPrimitive (g : Gltf) (r : PrimitiveRef) (p : Primitive) : Gltf :=
  match meshes g !! r.1 with
  | Some m =>
      set_meshes g (<[r.1 := mkMesh (<[r.2 := p]> (primitives m)) (mesh_name m)]> (meshes g))
  | None => g
  end.

(** The references [ForEach.mesh] / [ForEach.meshPrimitive] visit: meshes in
    order, primitives of a mesh in order. *)
Definition meshRefs (mi : nat) (m : Mesh) : list PrimitiveRef :=
  map (fun pi => (mi, pi)) (seq 0 (length (primitives m))).

Fixpoint primitiveRefsFrom (mi : nat) (ms : list Mesh) : list PrimitiveRef :=
  match ms with
  | [] => []
  | m :: ms' => meshRefs mi m ++ primitiveRefsFrom (S mi) ms'
  end.

Definition primitiveRefs (g : Gltf) : list PrimitiveRef :=
  primitiveRefsFrom 0 (meshes g).

(** Modelled from the spec: [lib/addToArray.js] is not among the sources.
    The spec (4.6) has new elements appended and identified by their
    position; the call returns that position. *)
Definition addToArray {A} (array : list A) (element : A) : list A * nat :=
  (array ++ [element], length array).

(** Modelled from the spec: [lib/addExtensionsRequired.js] is not among the
    sources.  The spec (6) has the extension declared in both the used and
    the required list. *)
Definition addName (l : list string) (x : string) : list string :=
  if bool_decide (x ∈ l) then l else l ++ [x].
Definition addExtensionsRequired (g : Gltf) (extension : string) : Gltf :=
  mkGltf (accessors g) (bufferViews g) (buffers g) (meshes g) (animations g)
         (addName (extensionsUsed g) extension)
         (addName (extensionsRequired g) extension)
         (Draco_animation_compression g).

(** Modelled from the spec: [lib/removeExtensionsUsed.js] is not among the
    sources.  The spec (4.1) has the extension marker removed after
    decompression. *)
Definition removeExtensionsUsed (g : Gltf) (extension : string) : Gltf :=
  mkGltf (accessors g) (bufferViews g) (buffers g) (meshes g) (animations g)
         (filter (fun x => x ≠ extension) (extensionsUsed g))
         (filter (fun x => x ≠ extension) (extensionsRequired g))
         (Draco_animation_compression g).

(** Reading the primitive a reference designates. *)
Definition primitiveAt (r : PrimitiveRef) : M Gltf Primitive :=
  g <- get ;;
  match getPrimitive g r with
  | Some p => ret p
  | None => throw "TypeError: primitive is undefined"
  end.

(** [primitive.f = v] on the primitive a reference designates. *)
Definition modifyPrimitive (r : PrimitiveRef) (f : Primitive -> Primitive) : M Gltf unit :=
  modify (fun g => match getPrimitive g r with
                   | Some p => setPrimitive g r (f p)
                   | None => g
                   end).

Definition set_attributes (p : Primitive) (a : object nat) : Primitive :=
  mkPrimitive a (indices p) (mode p) (targets p) (extensions p) (material p).
Definition set_indices (p : Primitive) (i : option nat) : Primitive :=
  mkPrimitive (attributes p) i (mode p) (targets p) (extensions p) (material p).
Definition set_extensions (p : Primitive) (e : option Extensions) : Primitive :=
  mkPrimitive (attributes p) (indices p) (mode p) (targets p) e (material p).

(** The Draco record of a primitive, if it has one. *)
Definition dracoExtensionOf (p : Primitive) : option DracoExtension :=
  match extensions p with
  | Some e => KHR_draco_mesh_compression e
  | None => None
  end.

(** [primitive.extensions = defaultValue(primitive.extensions, {});
     primitive.extensions.KHR_draco_mesh_compression = d]. *)
Definition set_dracoExtension (p : Primitive) (d : DracoExtension) : Primitive :=
  set_extensions p
    (Some (mkExtensions (Some d)
             (match extensions p with Some e => ext_others e | None => [] end))).

(** [clone(accessor)] followed by [delete .bufferView; delete .byteOffset]. *)
Definition withoutBufferView (a : Accessor) : Accessor :=
  mkAccessor None None (acc_componentType a) (acc_count a) (acc_type a)
             (acc_min a) (acc_max a) (acc_other a).

(* ================================================================== *)
(** ** lib/compressDracoMeshes.js *)
(* ================================================================== *)

Module CompressDracoMeshes.

(** *** Options and their range checks *)

Record DracoOptions : Type := mkDracoOptions {
  compressionLevel : value;
  quantizePositionBits : value;
  quantizeNormalBits : value;
  quantizeTexcoordBits : value;
  quantizeColorBits : value;
  quantizeGenericBits : value;
  unifiedQuantization : value
}.

(** [options] itself and [options.dracoOptions] may both be missing. *)
Record Options : Type := mkOptions {
  dracoOptions : option DracoOptions
}.

(** The empty bag [{}] that [defaultValue(options.dracoOptions, {})] yields. *)
Definition noDracoOptions : DracoOptions :=
  mkDracoOptions VUndefined VUndefined VUndefined VUndefined VUndefined
                 VUndefined VUndefined.

(** [compressDracoMeshes.defaults]. *)
Definition defaults : DracoOptions :=
  mkDracoOptions (VNum (Fin 7)) (VNum (Fin 14)) (VNum (Fin 10)) (VNum (Fin 12))
                 (VNum (Fin 8)) (VNum (Fin 12)) (VBool false).

(** Cesium's [Check.typeOf.number.greaterThanOrEquals(name, test, limit)]:
    a [DeveloperError] when [typeof test] is not ["number"] or when
    [test < limit].  [NaN] is a number and is below nothing, so it passes. *)
Definition typeOf_number_greaterThanOrEquals
    (name : string) (test : value) (limit : Q) : completion unit :=
  match test with
  | VNum n =>
      if lessThan n (Fin limit)
      then Throw (String.append "Expected " (String.append name " to be greater than or equal to the limit"))
      else Return tt
  | _ => Throw (String.append "Expected " (String.append name " to be typeof number"))
  end.

(** Cesium's [Check.typeOf.number.lessThanOrEquals(name, test, limit)]:
    a [DeveloperError] when [typeof test] is not ["number"] or when
    [test > limit]. *)
Definition typeOf_number_lessThanOrEquals
    (name : string) (test : value) (limit : Q) : completion unit :=
  match test with
  | VNum n =>
      if lessThan (Fin limit) n
      then Throw (String.append "Expected " (String.append name " to be less than or equal to the limit"))
      else Return tt
  | _ => Throw (String.append "Expected " (String.append name " to be typeof number"))
  end.

Definition checkRange (name : string) (v : value) (minimum maximum : Q)
  : completion unit :=
  match typeOf_number_greaterThanOrEquals name v minimum with
  | Return _ => typeOf_number_lessThanOrEquals name v maximum
  | Throw e => Throw e
  end.

(** The option values in force after [defaultValue] (lines 49-58). *)
Definition effectiveOptions (options : option Options) : DracoOptions :=
  let dracoOptions :=
    match options with
    | Some o => match dracoOptions o with Some d => d | None => noDracoOptions end
    | None => noDracoOptions
    end in
  mkDracoOptions
    (defaultValue (compressionLevel dracoOptions) (compressionLevel defaults))
    (defaultValue (quantizePositionBits dracoOptions) (quantizePositionBits defaults))
    (defaultValue (quantizeNormalBits dracoOptions) (quantizeNormalBits defaults))
    (defaultValue (quantizeTexcoordBits dracoOptions) (quantizeTexcoordBits defaults))
    (defaultValue (quantizeColorBits dracoOptions) (quantizeColorBits defaults))
    (defaultValue (quantizeGenericBits dracoOptions) (quantizeGenericBits defaults))
    (defaultValue (unifiedQuantization dracoOptions) (unifiedQuantization defaults)).

(** The six [checkRange] calls of lines 59-64, in order. *)
Definition checkRanges (o : DracoOptions) : completion unit :=
  match checkRange "compressionLevel" (compressionLevel o) 0 10 with
  | Throw e => Throw e
  | Return _ =>
  match checkRange "quantizePositionBits" (quantizePositionBits o) 0 30 with
  | Throw e => Throw e
  | Return _ =>
  match checkRange "quantizeNormalBits" (quantizeNormalBits o) 0 30 with
  | Throw e => Throw e
  | Return _ =>
  match checkRange "quantizeTexcoordBits" (quantizeTexcoordBits o) 0 30 with
  | Throw e => Throw e
  | Return _ =>
  match checkRange "quantizeColorBits" (quantizeColorBits o) 0 30 with
  | Throw e => Throw e
  | Return _ => checkRange "quantizeGenericBits" (quantizeGenericBits o) 0 30
  end end end end end.

(** *** Type dispatch (lines 486-503) *)

(** The [switch] has no [default]: for any other component type the function
    falls off its end and returns [undefined] ([None]); it never throws. *)
Definition getAddAttributeFunctionName (componentType : Z)
  : completion (option string) :=
  if (componentType =? WebGLConstants.UNSIGNED_BYTE)%Z then Return (Some "AddUInt8Attribute")
  else if (componentType =? WebGLConstants.BYTE)%Z then Return (Some "AddInt8Attribute")
  else if (componentType =? WebGLConstants.UNSIGNED_SHORT)%Z then Return (Some "AddUInt16Attribute")
  else if (componentType =? WebGLConstants.SHORT)%Z then Return (Some "AddInt16Attribute")
  else if (componentType =? WebGLConstants.UNSIGNED_INT)%Z then Return (Some "AddUInt32Attribute")
  else if (componentType =? WebGLConstants.INT)%Z then Return (Some "AddInt32Attribute")
  else if (componentType =? WebGLConstants.FLOAT)%Z then Return (Some "AddFloatAttribute")
  else Return None.

(** *** Unified quantization box (lines 72-91) *)

(** The three-slot arrays [min] and [max]. *)
Record Vec3 : Type := mkVec3 { v0 : number; v1 : number; v2 : number }.

(** Modelled from the spec: [ForEach.accessorWithSemantic] ([lib/ForEach.js])
    is not among the sources.  The spec (4.2) has the planner scan every
    POSITION attribute accessor across the whole asset; the accessor ids are
    handed to the callback in mesh order, then primitive order. *)
Definition accessorWithSemantic (g : Gltf) (semantic : string) : list nat :=
  flat_map (fun m =>
    flat_map (fun p =>
      match lookupKey (attributes p) semantic with
      | Some accessorId => [accessorId]
      | None => []
      end) (primitives m)) (meshes g).

(** The callback of lines 77-88 on one accessor id. *)
Definition visitPositionAccessor (accessors : list Accessor)
    (mm : Vec3 * Vec3) (accessorId : nat) : completion (Vec3 * Vec3) :=
  match accessors !! accessorId with
  | None => Throw "TypeError: Cannot read property 'type' of undefined"
  | Some accessor =>
      if negb (String.eqb (acc_type accessor) "VEC3")
      then Throw "Could not perform unified quantization. Input contains position accessor with an unsupported number of components."
      else
        match acc_min accessor, acc_max accessor with
        | Some accessorMin, Some accessorMax =>
            let (min, max) := mm in
            Return
              (mkVec3 (Math_min (v0 min) (numberAt accessorMin 0))
                      (Math_min (v1 min) (numberAt accessorMin 1))
                      (Math_min (v2 min) (numberAt accessorMin 2)),
               mkVec3 (Math_max (v0 max) (numberAt accessorMax 0))
                      (Math_max (v1 max) (numberAt accessorMax 1))
                      (Math_max (v2 max) (numberAt accessorMax 2)))
        | _, _ => Throw "TypeError: Cannot read property '0' of undefined"
        end
  end.

Fixpoint visitPositionAccessors (accessors : list Accessor)
    (mm : Vec3 * Vec3) (ids : list nat) : completion (Vec3 * Vec3) :=
  match ids with
  | [] => Return mm
  | accessorId :: ids' =>
      match visitPositionAccessor accessors mm accessorId with
      | Return mm' => visitPositionAccessors accessors mm' ids'
      | Throw e => Throw e
      end
  end.

(** [positionOrigin] and [positionRange] as lines 75-90 leave them. *)
Definition unifiedQuantizationBox (g : Gltf) : completion (Vec3 * number) :=
  let min := mkVec3 PosInf PosInf PosInf in
  let max := mkVec3 NegInf NegInf NegInf in
  match visitPositionAccessors (accessors g) (min, max)
          (accessorWithSemantic g "POSITION") with
  | Throw e => Throw e
  | Return (min, max) =>
      Return (min,
              Math_max (minus (v0 max) (v0 min))
                       (Math_max (minus (v1 max) (v1 min))
                                 (minus (v2 max) (v2 min))))
  end.

(** *** The codec and the other collaborators *)

Inductive AttributeEnum : Type := POSITION | NORMAL | COLOR | TEX_COORD | GENERIC.

(** One [meshBuilder.Add<T>Attribute(mesh, enum, points, components, data)]. *)
Record AddedAttribute : Type := mkAddedAttribute {
  aa_function : string;
  aa_enum : AttributeEnum;
  aa_points : nat;
  aa_components : nat;
  aa_data : list Q
}.

(** What has been put into an [encoderModule.Mesh] so far. *)
Record DracoMesh : Type := mkDracoMesh {
  dm_faces : option (Q * list Z);
  dm_attributes : list AddedAttribute
}.

(** The calls made on an [encoderModule.Encoder] before it encodes. *)
Inductive EncoderCall : Type :=
| SetSpeedOptions (encodingSpeed decodingSpeed : number)
| SetAttributeExplicitQuantization (e : AttributeEnum) (bits : number)
    (components : nat) (origin : option Vec3) (range : option number)
| SetAttributeQuantization (e : AttributeEnum) (bits : number)
| SetEncodingMethod_MESH_SEQUENTIAL_ENCODING
| SetTrackEncodedProperties (track : bool).

(** What an encoder reports after [EncodeMeshToDracoBuffer]. *)
Record EncodedMesh : Type := mkEncodedMesh {
  encodedLength : Z;
  GetValue : nat -> Z;
  GetNumberOfEncodedPoints : Z;
  GetNumberOfEncodedFaces : Z
}.

(** Everything the pass calls that is not in [compressDracoMeshes.js]: the
    Draco encoder module, [object-hash], Cesium's typed-array factory and the
    sibling modules of [lib/] that the sources do not include. *)
Class Collaborators : Type := {
  hashObject : object nat * option nat * option Z -> string;
  readAccessorPacked : Gltf -> option Accessor -> completion (list Q);
  numberOfComponentsForType : string -> nat;
  createTypedArray : Z -> list Q -> completion (list Q);
  (* the id [meshBuilder.Add<T>Attribute] returns, -1 on failure *)
  addAttributeToMesh : DracoMesh -> AddedAttribute -> Z;
  EncodeMeshToDracoBuffer : DracoMesh -> list EncoderCall -> EncodedMesh;
  splitPrimitives : Gltf -> Gltf;
  replaceWithDecompressedPrimitive : Gltf -> PrimitiveRef -> Z -> Z -> Gltf;
  removeUnusedElements : Gltf -> Gltf
}.

(** [new Uint32Array(numbers)] on one number: truncate, then wrap to 32 bits. *)
Definition toUint32 (q : Q) : Z :=
  ((Z.quot (Qnum q) (Z.pos (Qden q))) mod 2 ^ 32)%Z.

(** *** OBJ dump (lines 322-429)

    [outputAttribute], [outputFaces] and [outputFaces2] build the text of a
    side file and touch nothing of the asset, so the text itself is left
    out.  What is kept is the way [outputAttribute] depends on the asset's
    data: it calls [data[index].toString()], which throws on a slot past the
    end of [data]; the two face writers add a number first and so never meet
    [undefined]. *)
Definition outputAttribute (points components : nat) (data : list Q)
  : completion unit :=
  if decide (points * components ≤ length data)%nat
  then Return tt
  else Throw "TypeError: Cannot read property 'toString' of undefined".

(** *** Attaching and copying the extension record (lines 431-484) *)

Definition accessorAt (g : Gltf) (id : nat) : M Gltf Accessor :=
  match accessors g !! id with
  | Some a => ret a
  | None => throw "TypeError: Cannot convert undefined or null to object"
  end.

(** Push the stripped clone of accessor [id]; yield the clone's id. *)
Definition pushStrippedClone (id : nat) : M Gltf nat :=
  g <- get ;;
  a <- accessorAt g id ;;
  let (accessors', newId) := addToArray (accessors g) (withoutBufferView a) in
  put (set_accessors g accessors') ;;;
  ret newId.

Section WithCollaborators.
Context {collaborators : Collaborators}.

Definition addCompressionExtensionToPrimitive (primitive : PrimitiveRef)
    (attributeToId : object Z) (encodedLength : Z) (encodedData : list Z)
    (encodedPointsCount encodedFacesCount : Z) : M Gltf unit :=
  p <- primitiveAt primitive ;;
  (* Remove indices bufferView. *)
  match indices p with
  | None => throw "TypeError: Cannot convert undefined or null to object"
  | Some indicesId =>
      newIndices <- pushStrippedClone indicesId ;;
      modifyPrimitive primitive (fun p => set_indices p (Some newIndices)) ;;;
      (* Remove attributes bufferViews. *)
      forEach (attributes p) (fun '(semantic, accessorId) =>
        newId <- pushStrippedClone accessorId ;;
        modifyPrimitive primitive
          (fun p => set_attributes p (assignKey (attributes p) semantic newId))) ;;;
      g <- get ;;
      let (buffers', bufferId) :=
        addToArray (buffers g) (mkBuffer encodedLength encodedData) in
      let (bufferViews', bufferViewId) :=
        addToArray (bufferViews g) (mkBufferView bufferId 0 encodedLength) in
      put (set_bufferViews (set_buffers g buffers') bufferViews') ;;;
      modifyPrimitive primitive
        (fun p => set_dracoExtension p (mkDracoExtension bufferViewId attributeToId)) ;;;
      modify (fun g => replaceWithDecompressedPrimitive g primitive
                         encodedPointsCount encodedFacesCount)
  end.

Definition copyCompressedExtensionToPrimitive
    (primitive compressedPrimitive : PrimitiveRef) : M Gltf unit :=
  cp <- primitiveAt compressedPrimitive ;;
  forEach (attributes cp) (fun '(semantic, accessorId) =>
    modifyPrimitive primitive
      (fun p => set_attributes p (assignKey (attributes p) semantic accessorId))) ;;;
  cp <- primitiveAt compressedPrimitive ;;
  modifyPrimitive primitive (fun p => set_indices p (indices cp)) ;;;
  cp <- primitiveAt compressedPrimitive ;;
  match dracoExtensionOf cp with
  | None => throw "TypeError: Cannot read property 'bufferView' of undefined"
  | Some dracoExtension =>
      modifyPrimitive primitive
        (fun p => set_dracoExtension p
                    (mkDracoExtension (ext_bufferView dracoExtension)
                                      (ext_attributes dracoExtension)))
  end.

(** *** The pass (lines 48-320) *)

(** The variables of one run of the pass.  [hashPrimitives] holds references
    to primitives of the asset, not copies.  [encoded] is a log, kept for the
    proofs, of the hash of every primitive handed to
    [EncodeMeshToDracoBuffer]. *)
Record PassState : Type := mkPassState {
  gltf : Gltf;
  hashPrimitives : gmap string PrimitiveRef;
  addedExtension : bool;
  encoded : list string
}.

Definition onGltf {A} (c : M Gltf A) : M PassState A :=
  fun s => match c (gltf s) with
           | (r, g') => (r, mkPassState g' (hashPrimitives s) (addedExtension s) (encoded s))
           end.

Definition set_addedExtension (s : PassState) : PassState :=
  mkPassState (gltf s) (hashPrimitives s) true (encoded s).
Definition remember (hashValue : string) (primitive : PrimitiveRef) (s : PassState)
  : PassState :=
  mkPassState (gltf s) (<[hashValue := primitive]> (hashPrimitives s))
              (addedExtension s) (encoded s).
Definition logEncode (hashValue : string) (s : PassState) : PassState :=
  mkPassState (gltf s) (hashPrimitives s) (addedExtension s)
              (encoded s ++ [hashValue]).

(** The numeric options once the range checks have passed: they let
    nothing but numbers through. *)
Definition numberOf (v : value) : number :=
  match v with VNum n => n | _ => Fin 0 end.

(** Lines 166-169: the part of the semantic before its first underscore,
    unless the underscore comes first. *)
Definition attributeNameOf (semantic : string) : string :=
  match String.index 0 "_" semantic with
  | Some (S n) => String.substring 0 (S n) semantic
  | _ => semantic
  end.

(** Lines 171-178. *)
Definition attributeEnumOf (attributeName : string) : AttributeEnum :=
  if String.eqb attributeName "POSITION" then POSITION
  else if String.eqb attributeName "NORMAL" then NORMAL
  else if String.eqb attributeName "COLOR" then COLOR
  else if String.eqb attributeName "TEXCOORD" then TEX_COORD
  else GENERIC.

(** The callback of lines 156-205 for one attribute of the primitive. *)
Definition addAttribute (ma : DracoMesh * object Z) (sa : string * nat)
  : M Gltf (DracoMesh * object Z) :=
  let (mesh, attributeToId) := ma in
  let (semantic, accessorId) := sa in
  g <- get ;;
  match accessors g !! accessorId with
  | None => throw "TypeError: Cannot read property 'componentType' of undefined"
  | Some accessor =>
      let componentType := acc_componentType accessor in
      let numberOfPoints := acc_count accessor in
      let numberOfComponents := numberOfComponentsForType (acc_type accessor) in
      packed <- lift (readAccessorPacked g (Some accessor)) ;;
      addAttributeFunctionName <- lift (getAddAttributeFunctionName componentType) ;;
      data <- lift (createTypedArray componentType packed) ;;
      let attributeName := attributeNameOf semantic in
      let attributeEnum := attributeEnumOf attributeName in
      (if String.eqb attributeName "POSITION"
          || String.eqb attributeName "TEXCOORD"
          || String.eqb attributeName "NORMAL"
       then lift (outputAttribute numberOfPoints numberOfComponents data)
       else ret tt) ;;;
      match addAttributeFunctionName with
      | None => throw "TypeError: meshBuilder[addAttributeFunctionName] is not a function"
      | Some name =>
          let added := mkAddedAttribute name attributeEnum numberOfPoints
                                        numberOfComponents data in
          let attributeId := addAttributeToMesh mesh added in
          if (attributeId =? -1)%Z
          then throw "Error: Failed adding attribute"
          else ret (mkDracoMesh (dm_faces mesh) (dm_attributes mesh ++ [added]),
                    assignKey attributeToId semantic attributeId)
      end
  end.

Fixpoint addAttributes (ma : DracoMesh * object Z) (l : object nat)
  : M Gltf (DracoMesh * object Z) :=
  match l with
  | [] => ret ma
  | sa :: l' => ma' <- addAttribute ma sa ;; addAttributes ma' l'
  end.

(** Lines 260-286: the calls made on the encoder, in order. *)
Definition encoderCalls (o : DracoOptions) (box : option (Vec3 * number))
    (hasTargets : bool) : list EncoderCall :=
  let compressionLevel := numberOf (compressionLevel o) in
  let bits f := numberOf (f o) in
  [SetSpeedOptions (minus (Fin 10) compressionLevel)
                   (minus (Fin 10) compressionLevel)]
  ++ (if lessThan (Fin 0) (bits quantizePositionBits)
      then if truthy (unifiedQuantization o)
           then [SetAttributeExplicitQuantization POSITION (bits quantizePositionBits) 3
                   (fst <$> box) (snd <$> box)]
           else [SetAttributeQuantization POSITION (bits quantizePositionBits)]
      else [])
  ++ (if lessThan (Fin 0) (bits quantizeNormalBits)
      then [SetAttributeQuantization NORMAL (bits quantizeNormalBits)] else [])
  ++ (if lessThan (Fin 0) (bits quantizeTexcoordBits)
      then [SetAttributeQuantization TEX_COORD (bits quantizeTexcoordBits)] else [])
  ++ (if lessThan (Fin 0) (bits quantizeColorBits)
      then [SetAttributeQuantization COLOR (bits quantizeColorBits)] else [])
  ++ (if lessThan (Fin 0) (bits quantizeGenericBits)
      then [SetAttributeQuantization GENERIC (bits quantizeGenericBits)] else [])
  ++ (if hasTargets then [SetEncodingMethod_MESH_SEQUENTIAL_ENCODING] else [])
  ++ [SetTrackEncodedProperties true].

(** Lines 294-297: [Buffer.alloc(encodedLength)] filled from the codec's
    array; a [Buffer] slot keeps the low eight bits. *)
Definition encodedDataOf (e : EncodedMesh) : list Z :=
  map (fun i => (GetValue e i mod 256)%Z) (seq 0 (Z.to_nat (encodedLength e))).

(** Lines 133-304: a primitive that is not in the cache yet. *)
Definition encodePrimitive (options : option Options) (o : DracoOptions)
    (box : option (Vec3 * number)) (hashValue : string)
    (primitive : PrimitiveRef) (p : Primitive) (indicesId : nat)
  : M PassState unit :=
  (* line 133: options.dracoOptions.gltf2ObjDirectory *)
  match options with
  | Some (mkOptions (Some _)) =>
      ma <- onGltf (
        g <- get ;;
        (* First get the faces and add to geometry. *)
        indicesData <- lift (readAccessorPacked g (accessors g !! indicesId)) ;;
        let indices := map toUint32 indicesData in
        let numberOfFaces := (inject_Z (Z.of_nat (length indices)) / 3)%Q in
        (* Add attributes to mesh. *)
        addAttributes (mkDracoMesh (Some (numberOfFaces, indices)) [], [])
                      (attributes p)) ;;
      let (mesh, attributeToId) := ma : DracoMesh * object Z in
      let e := EncodeMeshToDracoBuffer mesh
                 (encoderCalls o box (bool_decide (is_Some (targets p)))) in
      modify (logEncode hashValue) ;;;
      if (encodedLength e <=? 0)%Z
      then throw "Error: Draco encoding failed."
      else onGltf (addCompressionExtensionToPrimitive primitive attributeToId
                     (encodedLength e) (encodedDataOf e)
                     (GetNumberOfEncodedPoints e) (GetNumberOfEncodedFaces e))
  | _ => throw "TypeError: Cannot read property 'gltf2ObjDirectory' of undefined"
  end.

(** Line 111: [defined(primitive.mode) && primitive.mode !== TRIANGLES]. *)
Definition unsupportedMode (p : Primitive) : bool :=
  match mode p with
  | Some m => negb (m =? WebGLConstants.TRIANGLES)%Z
  | None => false
  end.

(** The callback of lines 107-305 on one primitive. *)
Definition compressPrimitive (options : option Options) (o : DracoOptions)
    (box : option (Vec3 * number)) (primitive : PrimitiveRef) : M PassState unit :=
  p <- onGltf (primitiveAt primitive) ;;
  if unsupportedMode p then ret tt
  else
    match indices p with
    | None => ret tt
    | Some indicesId =>
        modify set_addedExtension ;;;
        let hashValue := hashObject (attributes p, indices p, mode p) in
        s <- get ;;
        match hashPrimitives s !! hashValue with
        | Some cached =>
            (* Copy compressed primitive. *)
            onGltf (copyCompressedExtensionToPrimitive primitive cached)
        | None =>
            modify (remember hashValue primitive) ;;;
            encodePrimitive options o box hashValue primitive p indicesId
        end
    end.

(** Lines 307-311: the per-mesh OBJ file name is read off
    [options.dracoOptions], which must therefore exist. *)
Definition meshObjDump (options : option Options) : M PassState unit :=
  match options with
  | Some (mkOptions (Some _)) => ret tt
  | _ => throw "TypeError: Cannot read property 'gltf2ObjDirectory' of undefined"
  end.

(** The callback of lines 97-312 on one mesh. *)
Definition compressMesh (options : option Options) (o : DracoOptions)
    (box : option (Vec3 * number)) (mi : nat) (m : Mesh) : M PassState unit :=
  forEach (meshRefs mi m) (compressPrimitive options o box) ;;;
  meshObjDump options.

Fixpoint compressMeshesFrom (options : option Options) (o : DracoOptions)
    (box : option (Vec3 * number)) (mi : nat) (ms : list Mesh) : M PassState unit :=
  match ms with
  | [] => ret tt
  | m :: ms' =>
      compressMesh options o box mi m ;;;
      compressMeshesFrom options o box (S mi) ms'
  end.

(** [ForEach.mesh(gltf, ...)] of lines 97-312. *)
Definition compressMeshes (options : option Options) (o : DracoOptions)
    (box : option (Vec3 * number)) : M PassState unit :=
  s <- get ;;
  compressMeshesFrom options o box 0 (meshes (gltf s)).

Definition initialState (g : Gltf) : PassState := mkPassState g ∅ false [].

(** [compressDracoMeshes(gltf, options)]: the outcome and the variables of the
    run, with the asset as the run leaves it. *)
Definition compressDracoMeshes (g : Gltf) (options : option Options)
  : completion unit * PassState :=
  let o := effectiveOptions options in
  (lift (checkRanges o) ;;;
   onGltf (modify splitPrimitives) ;;;
   box <- (if truthy (unifiedQuantization o)
           then s <- get ;;
                b <- lift (unifiedQuantizationBox (gltf s)) ;;
                ret (Some b)
           else ret None) ;;
   compressMeshes options o box ;;;
   s <- get ;;
   if addedExtension s
   then onGltf (modify (fun g =>
          removeUnusedElements (addExtensionsRequired g "KHR_draco_mesh_compression")))
   else ret tt) (initialState g).

End WithCollaborators.

End CompressDracoMeshes.

(* ================================================================== *)
(** ** lib/decompressDracoMeshes.js *)
(* ================================================================== *)

Module DecompressDracoMeshes.

(** *** Typed arrays and their bytes *)

Inductive TypedArrayKind : Type :=
| Int8Array | Uint8Array | Int16Array | Uint16Array | Uint32Array | Float32Array.

Definition BYTES_PER_ELEMENT (k : TypedArrayKind) : nat :=
  match k with
  | Int8Array | Uint8Array => 1
  | Int16Array | Uint16Array => 2
  | Uint32Array | Float32Array => 4
  end.

(** A typed array is a [list Z]: the bit pattern of each slot, an integer below
    [2 ^ (8 * BYTES_PER_ELEMENT)]: two's complement for the integer kinds and
    the IEEE-754 single-precision encoding for [Float32Array]. *)

Definition newTypedArray (n : nat) : list Z := repeat 0%Z n.

Definition pattern (k : TypedArrayKind) (v : Z) : Z :=
  (v mod 2 ^ (8 * Z.of_nat (BYTES_PER_ELEMENT k)))%Z.

(** [array[i] = v]: the value is wrapped to the slot width; a write past the
    end is dropped. *)
Definition store (k : TypedArrayKind) (array : list Z) (i : nat) (v : Z)
  : list Z :=
  <[i := pattern k v]> array.

Definition littleEndian (width : nat) (z : Z) : list Z :=
  map (fun j => Z.land (Z.shiftr z (8 * Z.of_nat j)) 255) (seq 0 width).

(** [Buffer.from(array.buffer)]. *)
Definition bytesOf (k : TypedArrayKind) (array : list Z) : list Z :=
  flat_map (littleEndian (BYTES_PER_ELEMENT k)) array.

(** *** The decoder *)

Inductive DracoArrayKind : Type :=
| DracoInt8Array | DracoUInt8Array | DracoInt16Array | DracoUInt16Array
| DracoUInt32Array | DracoInt32Array | DracoFloat32Array.

(** A decoded attribute: its Draco data type, its width, and what
    [decoder.GetAttribute<T>ForAllPoints] puts into an array of the given
    kind (integers as such, floats as their single-precision encoding). *)
Record DracoAttribute : Type := mkDracoAttribute {
  data_type : Z;
  num_components : nat;
  forAllPoints : DracoArrayKind -> list Z
}.

Record DracoGeometry : Type := mkDracoGeometry {
  ptr : Z;
  num_faces : nat;
  num_points : nat;
  GetFaceFromMesh : nat -> Z * Z * Z;
  (* decoder.GetAttributeId(geometry, POSITION) *)
  positionAttributeId : Z;
  GetAttributeByUniqueId : Z -> option DracoAttribute
}.

Record Decoded : Type := mkDecoded {
  ok : bool;
  error_msg : string;
  geometry : DracoGeometry
}.

Definition POINT_CLOUD : Z := 0%Z.
Definition TRIANGULAR_MESH : Z := 1%Z.

(** The Draco decoder module and the sibling module of [lib/] that prunes. *)
Class Collaborators : Type := {
  GetEncodedGeometryType : list Z -> Z -> Z;
  DecodeBufferToMesh : list Z -> Z -> Decoded;
  DecodeBufferToPointCloud : list Z -> Z -> Decoded;
  removeUnusedElements : Gltf -> Gltf
}.

(** *** Helpers (lines 90-225) *)

Definition addBufferToGltf (buffer : list Z) : M Gltf nat :=
  g <- get ;;
  let encodedLength := Z.of_nat (length buffer) in
  let (buffers', bufferId) := addToArray (buffers g) (mkBuffer encodedLength buffer) in
  let (bufferViews', bufferViewId) :=
    addToArray (bufferViews g) (mkBufferView bufferId 0 encodedLength) in
  put (set_bufferViews (set_buffers g buffers') bufferViews') ;;;
  ret bufferViewId.

(** [delete extensions[extension]], then [delete primitive.extensions] if no
    key is left. *)
Definition removePrimitiveExtension (primitive : PrimitiveRef) : M Gltf unit :=
  modifyPrimitive primitive (fun p =>
    match extensions p with
    | Some e =>
        match KHR_draco_mesh_compression e with
        | Some _ =>
            match ext_others e with
            | [] => set_extensions p None
            | others => set_extensions p (Some (mkExtensions None others))
            end
        | None => p
        end
    | None => p
    end).

(** The array kind [getIndicesBuffer] picks from the accessor's type. *)
Definition indicesArrayKind (componentType : Z) : TypedArrayKind :=
  if (componentType =? 5120)%Z then Int8Array
  else if (componentType =? 5121)%Z then Uint8Array
  else if (componentType =? 5122)%Z then Int16Array
  else if (componentType =? 5123)%Z then Uint16Array
  else Uint32Array.

Definition getIndicesBuffer (accessor : Accessor) (dracoGeometry : DracoGeometry)
    (numFaces : nat) : list Z :=
  let numIndices := numFaces * 3 in
  let k := indicesArrayKind (acc_componentType accessor) in
  let indices :=
    fold_left (fun indices i =>
        let '(a, b, c) := GetFaceFromMesh dracoGeometry i in
        let index := i * 3 in
        store k (store k (store k indices index a) (index + 1) b) (index + 2) c)
      (seq 0 numFaces) (newTypedArray numIndices) in
  bytesOf k indices.

(** The [if / else if] chain of lines 177-215: the Draco array asked for and
    the typed array allocated, by [attribute.data_type()].  The last branch
    is a plain [else]. *)
Definition attributeArrays (data_type : Z) : DracoArrayKind * TypedArrayKind :=
  if (data_type =? 1)%Z then (DracoInt8Array, Int8Array)
  else if (data_type =? 2)%Z then (DracoUInt8Array, Uint8Array)
  else if (data_type =? 3)%Z then (DracoInt16Array, Int16Array)
  else if (data_type =? 4)%Z then (DracoUInt16Array, Uint16Array)
  else if (data_type =? 6)%Z then (DracoUInt32Array, Uint32Array)
  else if (data_type =? 5)%Z then (DracoInt32Array, Uint32Array)
  else (DracoFloat32Array, Float32Array).

Definition getAttributeBuffer (dracoGeometry : DracoGeometry)
    (attribute : DracoAttribute) : list Z :=
  let numComponents := num_components attribute in
  let numPoints := num_points dracoGeometry in
  let numValues := numPoints * numComponents in
  let (dk, k) := attributeArrays (data_type attribute) in
  let attributeData := forAllPoints attribute dk in
  let attributeArray :=
    fold_left (fun array i => store k array i (nth i attributeData 0%Z))
      (seq 0 numValues) (newTypedArray (length attributeData)) in
  bytesOf k attributeArray.

(** *** Decoding one primitive (lines 227-308) *)

Definition modifyAccessor (id : nat) (f : Accessor -> Accessor) : M Gltf unit :=
  modify (fun g => match accessors g !! id with
                   | Some a => set_accessors g (<[id := f a]> (accessors g))
                   | None => g
                   end).

(** [accessor.bufferView = bufferViewId; accessor.byteOffset = 0]. *)
Definition pointAt (bufferViewId : nat) (a : Accessor) : Accessor :=
  mkAccessor (Some bufferViewId) (Some 0) (acc_componentType a) (acc_count a)
             (acc_type a) (acc_min a) (acc_max a) (acc_other a).

(** [accessor.count = numPoints] followed by the two assignments above. *)
Definition recount (numPoints bufferViewId : nat) (a : Accessor) : Accessor :=
  mkAccessor (Some bufferViewId) (Some 0) (acc_componentType a) numPoints
             (acc_type a) (acc_min a) (acc_max a) (acc_other a).

(** One turn of the [for (var semantic in attributes)] loop, lines 291-307. *)
Definition decodeAttribute (primitive : PrimitiveRef) (dracoGeometry : DracoGeometry)
    (numPoints : nat) (entry : string * Z) : M Gltf unit :=
  let (semantic, uniqueId) := entry in
  match GetAttributeByUniqueId dracoGeometry uniqueId with
  | None => throw "attribute is null"
  | Some attribute =>
      let attributeBuffer := getAttributeBuffer dracoGeometry attribute in
      bufferViewId <- addBufferToGltf attributeBuffer ;;
      p <- primitiveAt primitive ;;
      g <- get ;;
      match lookupKey (attributes p) semantic with
      | None => throw "TypeError: Cannot read property 'componentType' of undefined"
      | Some gltfAttributeId =>
          match accessors g !! gltfAttributeId with
          | None => throw "TypeError: Cannot read property 'componentType' of undefined"
          | Some _ => modifyAccessor gltfAttributeId (recount numPoints bufferViewId)
          end
      end
  end.

Section WithCollaborators.
Context {collaborators : Collaborators}.

(** Lines 231-238: the buffer is decoded as a mesh or as a point cloud. *)
Definition decodeBuffer (geometryType : Z) (dracoBuffer : list Z * Z) : Decoded :=
  if (geometryType =? TRIANGULAR_MESH)%Z
  then DecodeBufferToMesh dracoBuffer.1 dracoBuffer.2
  else DecodeBufferToPointCloud dracoBuffer.1 dracoBuffer.2.

Definition decmopressDracoMesh (primitive : PrimitiveRef) (geometryType : Z)
    (dracoBuffer : list Z * Z) (dracoExtension : DracoExtension) : M Gltf unit :=
  let decoded := decodeBuffer geometryType dracoBuffer in
  let dracoGeometry := geometry decoded in
  if negb (ok decoded) || (ptr dracoGeometry =? 0)%Z
  then throw (String.append "THREE.DRACOLoader: Decoding failed: " (error_msg decoded))
  else
    let numFaces :=
      if (geometryType =? TRIANGULAR_MESH)%Z then num_faces dracoGeometry else 0 in
    let numPoints := num_points dracoGeometry in
    (* Verify if there is position attribute. *)
    if (positionAttributeId dracoGeometry =? -1)%Z
    then throw "THREE.DRACOLoader: No position attribute found."
    else
      p <- primitiveAt primitive ;;
      g <- get ;;
      match indices p ≫= (fun indicesId => (fun a => (indicesId, a)) <$> accessors g !! indicesId) with
      | None => throw "TypeError: Cannot read property 'componentType' of undefined"
      | Some (indicesId, indicesAccessor) =>
          let indicesBuffer := getIndicesBuffer indicesAccessor dracoGeometry numFaces in
          bufferViewId <- addBufferToGltf indicesBuffer ;;
          (* Add decompressed indices data to indices accessor. *)
          modifyAccessor indicesId (pointAt bufferViewId) ;;;
          forEach (ext_attributes dracoExtension)
                  (decodeAttribute primitive dracoGeometry numPoints)
      end.

(** *** The pass (lines 42-88) *)

(** [source.slice(byteOffset, byteOffset + byteLength)]. *)
Definition slice (source : list Z) (byteOffset : nat) (byteLength : Z) : list Z :=
  take (Z.to_nat byteLength) (drop byteOffset source).

(** The callback of lines 45-83 on one primitive. *)
Definition decompressPrimitive (primitive : PrimitiveRef) : M Gltf unit :=
  p <- primitiveAt primitive ;;
  (* Only support triangles now. *)
  if (match mode p with Some m => negb (m =? 4)%Z | None => false end)
  then ret tt
  else
    match dracoExtensionOf p with
    | None => ret tt
    | Some dracoExtension =>
        g <- get ;;
        match bufferViews g !! ext_bufferView dracoExtension with
        | None => throw "TypeError: Cannot read property 'buffer' of undefined"
        | Some bufferView =>
            match buffers g !! bv_buffer bufferView with
            | None => throw "TypeError: Cannot read property 'extras' of undefined"
            | Some buffer =>
                let compressedData :=
                  slice (buf_source buffer) (bv_byteOffset bufferView)
                        (bv_byteLength bufferView) in
                (* dracoBuffer.Init(compressedData, buffer.byteLength) *)
                let dracoBuffer := (compressedData, buf_byteLength buffer) in
                let geometryType :=
                  GetEncodedGeometryType compressedData (buf_byteLength buffer) in
                decmopressDracoMesh primitive geometryType dracoBuffer dracoExtension ;;;
                removePrimitiveExtension primitive ;;;
                modify (fun g => removeExtensionsUsed g "KHR_draco_mesh_compression")
            end
        end
    end.

(** [ForEach.mesh] / [ForEach.meshPrimitive] of lines 44-84. *)
Definition decompressMeshes : M Gltf unit :=
  g <- get ;;
  forEach (primitiveRefs g) decompressPrimitive.

Definition decompressDracoMeshes (g : Gltf) : completion unit * Gltf :=
  (decompressMeshes ;;; modify removeUnusedElements) g.

End WithCollaborators.

End DecompressDracoMeshes.

(* ================================================================== *)
(** ** lib/compressDracoAnimations.js *)
(* ================================================================== *)

Module CompressDracoAnimations.

Record Options : Type := mkOptions {
  quantizeTimestamps : value;
  quantizeKeyframes : value
}.

(** What has been put into an [encoderModule.KeyframeAnimation] so far. *)
Record KeyframeAnimation : Type := mkKeyframeAnimation {
  ka_timestamps : nat * list Q;
  ka_keyframes : list (nat * nat * list Q)
}.

Record EncodedAnimation : Type := mkEncodedAnimation {
  encodedLen : Z;
  GetValue : nat -> Z
}.

(** The Draco animation encoder and the sibling modules of [lib/]. *)
Class Collaborators : Type := {
  readAccessorPacked : Gltf -> option Accessor -> completion (list Q);
  numberOfComponentsForType : string -> nat;
  (* the id [animationBuilder.AddKeyframes] returns *)
  AddKeyframes : KeyframeAnimation -> nat -> nat -> list Q -> Z;
  EncodeAnimationToDracoBuffer : KeyframeAnimation -> value -> value -> EncodedAnimation
}.

(** [extractedAnimations]: an object keyed by accessor id.  Its keys are
    array indices, which [for .. in] enumerates in ascending order, so the
    entries are kept sorted by key. *)
Definition Extracted : Type := list (nat * CompressedAnimation).

(** Lines 124-131: create the entry of [input] or push onto its outputs. *)
Fixpoint extract (ea : Extracted) (input output : nat) : Extracted :=
  match ea with
  | [] => [(input, mkCompressedAnimation input [output] None None)]
  | (k, e) :: ea' =>
      if decide (k = input)
      then (k, mkCompressedAnimation (ca_input e) (ca_outputs e ++ [output])
                                     (ca_attributesId e) (ca_bufferView e)) :: ea'
      else if decide (input < k)%nat
      then (input, mkCompressedAnimation input [output] None None) :: (k, e) :: ea'
      else (k, e) :: extract ea' input output
  end.

(** The callback of lines 114-132 on one sampler. *)
Definition extractSampler (acc : Extracted * nat) (sampler : Sampler)
  : completion (Extracted * nat) :=
  let (extractedAnimations, extractedAnimationCount) := acc in
  match input sampler, output sampler with
  | Some i, Some o =>
      match interpolation sampler with
      | None => Throw "Error: Animation missing interpolation method."
      | Some _ => Return (extract extractedAnimations i o, S extractedAnimationCount)
      end
  | _, _ => Throw "Error: Animation missing input/output."
  end.

Fixpoint extractSamplers (acc : Extracted * nat) (l : list Sampler)
  : completion (Extracted * nat) :=
  match l with
  | [] => Return acc
  | sampler :: l' =>
      match extractSampler acc sampler with
      | Return acc' => extractSamplers acc' l'
      | Throw e => Throw e
      end
  end.

(** All samplers in the order [ForEach.animation] / [ForEach.animationSampler]
    meet them. *)
Definition allSamplers (g : Gltf) : list Sampler :=
  flat_map samplers (animations g).

(** [sampler.input == oldAccessorId] and the like, lines 36-43. *)
Definition replaceInSampler (oldAccessorId newAccessorId : nat) (s : Sampler)
  : Sampler :=
  let replaced (x : option nat) :=
    match x with
    | Some v => if decide (v = oldAccessorId) then Some newAccessorId else x
    | None => None
    end in
  mkSampler (replaced (input s)) (replaced (output s)) (interpolation s).

(** Lines 24-46. *)
Definition removeDataAndReplaceAccessor (oldAccessorId : nat) : M Gltf nat :=
  g <- get ;;
  match accessors g !! oldAccessorId with
  | None => throw "TypeError: Cannot read property 'componentType' of undefined"
  | Some oldAccessor =>
      let newAccessor :=
        mkAccessor None None (acc_componentType oldAccessor) (acc_count oldAccessor)
                   (acc_type oldAccessor) (acc_min oldAccessor) (acc_max oldAccessor) [] in
      let (accessors', newAccessorId) := addToArray (accessors g) newAccessor in
      put (set_animations (set_accessors g accessors')
             (map (fun a => mkAnimation
                     (map (replaceInSampler oldAccessorId newAccessorId) (samplers a)))
                  (animations g))) ;;;
      ret newAccessorId
  end.

(** [replacedAccessors] is a sparse array; only its defined slots matter. *)
Fixpoint replaceOutputs (replacedAccessors : gmap nat nat) (outputs : list nat)
  : M Gltf (gmap nat nat * list nat) :=
  match outputs with
  | [] => ret (replacedAccessors, [])
  | output :: rest =>
      match replacedAccessors !! output with
      | Some _ => throw "Error: Duplicated output in animation extension."
      | None =>
          newAccessorId <- removeDataAndReplaceAccessor output ;;
          r <- replaceOutputs (<[output := newAccessorId]> replacedAccessors) rest ;;
          ret (r.1, newAccessorId :: r.2)
      end
  end.

(** Lines 50-74, from a given [replacedAccessors] on. *)
Fixpoint removeSamplerAccessorDataFrom (replacedAccessors : gmap nat nat)
    (extractedAnimations : Extracted) : M Gltf Extracted :=
  match extractedAnimations with
  | [] => ret []
  | (input, e) :: rest =>
      (* Every input here should always be unique or undefined. *)
      match replacedAccessors !! input with
      | Some _ => throw "Error: Duplicated input in animation extension."
      | None =>
          newAccessorId <- removeDataAndReplaceAccessor input ;;
          r <- replaceOutputs (<[input := newAccessorId]> replacedAccessors)
                              (ca_outputs e) ;;
          rest' <- removeSamplerAccessorDataFrom r.1 rest ;;
          ret ((input, mkCompressedAnimation newAccessorId r.2
                         (ca_attributesId e) (ca_bufferView e)) :: rest')
      end
  end.

Definition removeAllSamplerAccessorData (extractedAnimations : Extracted)
  : M Gltf Extracted :=
  removeSamplerAccessorDataFrom ∅ extractedAnimations.

(** Lines 78-97; yields the id of the new bufferView. *)
Definition addCompressedAnimation (encodedLen : Z) (encodedData : list Z)
  : M Gltf nat :=
  g <- get ;;
  let (buffers', bufferId) := addToArray (buffers g) (mkBuffer encodedLen encodedData) in
  let (bufferViews', bufferViewId) :=
    addToArray (bufferViews g) (mkBufferView bufferId 0 encodedLen) in
  put (set_bufferViews (set_buffers g buffers') bufferViews') ;;;
  ret bufferViewId.

Section WithCollaborators.
Context {collaborators : Collaborators}.

(** The [outputs.forEach] of lines 160-171. *)
Fixpoint addAllKeyframes (g : Gltf) (numKeyframes : nat)
    (dracoAnimation : KeyframeAnimation) (attributesId : list Z) (outputs : list nat)
  : completion (KeyframeAnimation * list Z) :=
  match outputs with
  | [] => Return (dracoAnimation, attributesId)
  | output :: rest =>
      match accessors g !! output with
      | None => Throw "TypeError: Cannot read property 'type' of undefined"
      | Some a =>
          let numComponents := numberOfComponentsForType (acc_type a) in
          match readAccessorPacked g (Some a) with
          | Throw e => Throw e
          | Return packed =>
              let attributeId := AddKeyframes dracoAnimation numKeyframes numComponents packed in
              if (attributeId <=? 0)%Z
              then Throw "Error: Failed adding new keyframes data."
              else addAllKeyframes g numKeyframes
                     (mkKeyframeAnimation (ka_timestamps dracoAnimation)
                        (ka_keyframes dracoAnimation ++ [(numKeyframes, numComponents, packed)]))
                     (attributesId ++ [attributeId]) rest
          end
      end
  end.

(** One turn of the loop of lines 142-194. *)
Definition encodeAnimation (options : option Options) (entry : nat * CompressedAnimation)
  : M Gltf (nat * CompressedAnimation) :=
  let (input, e) := entry in
  let timestampsQuantization :=
    match options with
    | Some o => if defined (quantizeTimestamps o) then quantizeTimestamps o else VNum (Fin 16)
    | None => VNum (Fin 16)
    end in
  let keyframesQuantization :=
    match options with
    | Some o => match quantizeKeyframes o with VUndefined => VNum (Fin 16) | v => v end
    | None => VNum (Fin 16)
    end in
  g <- get ;;
  timestampsData <- lift (readAccessorPacked g (accessors g !! input)) ;;
  let numKeyframes := length timestampsData in
  ka <- lift (addAllKeyframes g numKeyframes
                (mkKeyframeAnimation (numKeyframes, timestampsData) []) []
                (ca_outputs e)) ;;
  let encoded := EncodeAnimationToDracoBuffer ka.1 timestampsQuantization
                                              keyframesQuantization in
  if (encodedLen encoded <=? 0)%Z
  then throw "Error: Encoding failed."
  else
    let encodedData :=
      map (fun i => (GetValue encoded i mod 256)%Z)
          (seq 0 (Z.to_nat (encodedLen encoded))) in
    bufferViewId <- addCompressedAnimation (encodedLen encoded) encodedData ;;
    ret (input, mkCompressedAnimation (ca_input e) (ca_outputs e)
                  (Some ka.2) (Some bufferViewId)).

Fixpoint encodeAnimations (options : option Options) (ea : Extracted)
  : M Gltf Extracted :=
  match ea with
  | [] => ret []
  | entry :: rest =>
      entry' <- encodeAnimation options entry ;;
      rest' <- encodeAnimations options rest ;;
      ret (entry' :: rest')
  end.

(** Lines 99-212. *)
Definition compressDracoAnimations (g : Gltf) (options : option Options)
  : completion unit * Gltf :=
  (g <- get ;;
   x <- lift (extractSamplers ([], 0) (allSamplers g)) ;;
   let (extractedAnimations, extractedAnimationCount) := x : Extracted * nat in
   if decide (extractedAnimationCount = 0)
   then ret tt
   else
     modify (fun g => addExtensionsRequired g "Draco_animation_compression") ;;;
     encodedAnimations <- encodeAnimations options extractedAnimations ;;
     replaced <- removeAllSamplerAccessorData encodedAnimations ;;
     modify (fun g =>
       mkGltf (accessors g) (bufferViews g) (buffers g) (meshes g) (animations g)
              (extensionsUsed g) (extensionsRequired g)
              (Some (default [] (Draco_animation_compression g) ++ map snd replaced)))) g.

End WithCollaborators.

End CompressDracoAnimations.

(* ================================================================== *)
(** ** Vocabulary of the statements *)
(* ================================================================== *)

(** The component types the dispatcher knows: 8, 16 and 32-bit integers,
    signed and unsigned, and 32-bit floats. *)
Definition supportedComponentType (componentType : Z) : Prop :=
  (5120 ≤ componentType ≤ 5126)%Z.

(** The order of the extended number line; [NaN] is not comparable. *)
Definition numberLe (a b : number) : Prop :=
  match a, b with
  | NaN, _ | _, NaN => False
  | NegInf, _ => True
  | _, PosInf => True
  | Fin x, Fin y => (x <= y)%Q
  | _, _ => False
  end.







(* ================================================================== *)
(** ** Sample assets and collaborators *)
(* ================================================================== *)

Module Samples.

Definition emptyAsset : Gltf := mkGltf [] [] [] [] [] [] [] None.

Definition position (mn mx : list Q) : Accessor :=
  mkAccessor (Some 0) (Some 0) 5126 3 "VEC3" (Some mn) (Some mx) [].



(** A stand-in encoder: attribute ids count up from 0 and the payload is
    three bytes long. *)
Definition countingEncoder : CompressDracoMeshes.Collaborators :=
  {| CompressDracoMeshes.hashObject :=
       fun x => match x with
                | (attrs, Some i, _) => String.append "i" (String.concat "," (map fst attrs))
                | (attrs, None, _) => String.concat "," (map fst attrs)
                end;
     CompressDracoMeshes.readAccessorPacked := fun _ _ => Return [0; 1; 2]%Q;
     CompressDracoMeshes.numberOfComponentsForType := fun _ => 1;
     CompressDracoMeshes.createTypedArray := fun _ packed => Return packed;
     CompressDracoMeshes.addAttributeToMesh :=
       fun mesh _ => Z.of_nat (length (CompressDracoMeshes.dm_attributes mesh));
     CompressDracoMeshes.EncodeMeshToDracoBuffer :=
       fun _ _ => CompressDracoMeshes.mkEncodedMesh 3 (fun i => Z.of_nat i) 3 1;
     CompressDracoMeshes.splitPrimitives := fun g => g;
     CompressDracoMeshes.replaceWithDecompressedPrimitive := fun g _ _ _ => g;
     CompressDracoMeshes.removeUnusedElements := fun g => g |}.

Definition indexAccessor : Accessor :=
  mkAccessor (Some 0) (Some 0) 5123 3 "SCALAR" (Some [0]%Q) (Some [2]%Q) [].

Definition triangle : Primitive :=
  mkPrimitive [("POSITION", 1)] (Some 0) (Some 4%Z) None None None.

Definition lines : Primitive :=
  mkPrimitive [("POSITION", 1)] (Some 0) (Some 1%Z) None None None.

(** One mesh: a triangle primitive, a LINES primitive on the same accessors,
    and the triangle primitive once more. *)
Definition mixedAsset : Gltf :=
  mkGltf
    [indexAccessor; position [0; 0; 0]%Q [1; 1; 1]%Q]
    [mkBufferView 0 0 42]
    [mkBuffer 42 (repeat 0%Z 42)]
    [mkMesh [triangle; lines; triangle] None]
    [] [] [] None.

Definition defaultOptions : CompressDracoMeshes.Options :=
  CompressDracoMeshes.mkOptions (Some CompressDracoMeshes.noDracoOptions).

(** Options whose compression level is [NaN]; everything else is left to
    the defaults. *)
Definition nanLevel : CompressDracoMeshes.Options :=
  CompressDracoMeshes.mkOptions
    (Some (CompressDracoMeshes.mkDracoOptions (VNum NaN) VUndefined VUndefined
             VUndefined VUndefined VUndefined VUndefined)).

(** [accessor.count = n]. *)
Definition withCount (n : nat) (a : Accessor) : Accessor :=
  mkAccessor (acc_bufferView a) (acc_byteOffset a) (acc_componentType a) n
             (acc_type a) (acc_min a) (acc_max a) (acc_other a).

(** A stand-in for [replaceWithDecompressedPrimitive] that uses the counts
    it is given: it writes three times the face count into the accessor of
    the primitive's indices and the point count into the accessor of each
    of its attributes. *)
Definition writeCounts (g : Gltf) (r : PrimitiveRef) (points faces : Z) : Gltf :=
  match getPrimitive g r with
  | Some p =>
      let indexed :=
        match indices p with
        | Some i => alter (withCount (Z.to_nat (3 * faces))) i (accessors g)
        | None => accessors g
        end in
      set_accessors g
        (foldl (fun accs id => alter (withCount (Z.to_nat points)) id accs)
               indexed (map snd (attributes p)))
  | None => g
  end.

(** [countingEncoder], but the codec reports five encoded points and the
    counts are written back by [writeCounts]. *)
Definition recountingEncoder : CompressDracoMeshes.Collaborators :=
  {| CompressDracoMeshes.hashObject := CompressDracoMeshes.hashObject (Collaborators := countingEncoder);
     CompressDracoMeshes.readAccessorPacked := fun _ _ => Return [0; 1; 2]%Q;
     CompressDracoMeshes.numberOfComponentsForType := fun _ => 1;
     CompressDracoMeshes.createTypedArray := fun _ packed => Return packed;
     CompressDracoMeshes.addAttributeToMesh :=
       fun mesh _ => Z.of_nat (length (CompressDracoMeshes.dm_attributes mesh));
     CompressDracoMeshes.EncodeMeshToDracoBuffer :=
       fun _ _ => CompressDracoMeshes.mkEncodedMesh 3 (fun i => Z.of_nat (i + 7)) 5 1;
     CompressDracoMeshes.splitPrimitives := fun g => g;
     CompressDracoMeshes.replaceWithDecompressedPrimitive := writeCounts;
     CompressDracoMeshes.removeUnusedElements := fun g => g |}.

(** The variables of the pass once the callback, with [recountingEncoder],
    has encoded the first primitive of [mixedAsset]. *)
Definition recountedState : CompressDracoMeshes.PassState :=
  (CompressDracoMeshes.encodePrimitive (collaborators := recountingEncoder)
     (Some defaultOptions) CompressDracoMeshes.defaults None "iPOSITION"
     (0, 0) triangle 0 (CompressDracoMeshes.initialState mixedAsset)).2.

(** A decoded geometry of one face and three points, with one float
    attribute of unique id 0 (the floats as their bit patterns). *)
Definition floatPositions : DecompressDracoMeshes.DracoAttribute :=
  DecompressDracoMeshes.mkDracoAttribute 9 3
    (fun _ => [0; 0; 0; 1065353216; 0; 0; 0; 1065353216; 0]%Z).

Definition decodedTriangle : DecompressDracoMeshes.DracoGeometry :=
  DecompressDracoMeshes.mkDracoGeometry 1 1 3 (fun _ => (0, 1, 2)%Z) 0
    (fun id => if (id =? 0)%Z then Some floatPositions else None).

Definition decodedOk : DecompressDracoMeshes.Decoded :=
  DecompressDracoMeshes.mkDecoded true EmptyString decodedTriangle.

(** A stand-in decoder that always yields [decodedTriangle]. *)
Definition fixedDecoder : DecompressDracoMeshes.Collaborators :=
  {| DecompressDracoMeshes.GetEncodedGeometryType := fun _ _ => 1%Z;
     DecompressDracoMeshes.DecodeBufferToMesh := fun _ _ => decodedOk;
     DecompressDracoMeshes.DecodeBufferToPointCloud := fun _ _ => decodedOk;
     DecompressDracoMeshes.removeUnusedElements := fun g => g |}.

Definition payloadRecord : DracoExtension :=
  mkDracoExtension 0 [("POSITION", 0%Z)].

Definition compressedTriangle : Primitive :=
  mkPrimitive [("POSITION", 1)] (Some 0) (Some 4%Z) None
              (Some (mkExtensions (Some payloadRecord) [])) None.

Definition compressedLines : Primitive :=
  mkPrimitive [("POSITION", 1)] (Some 0) (Some 1%Z) None
              (Some (mkExtensions (Some payloadRecord) [])) None.

(** A compressed asset: a triangle primitive and a LINES primitive, both
    carrying an extension record for the same payload. *)
Definition compressedAsset : Gltf :=
  mkGltf
    [withoutBufferView indexAccessor;
     withoutBufferView (position [0; 0; 0]%Q [1; 1; 1]%Q)]
    [mkBufferView 0 0 3]
    [mkBuffer 3 [0; 1; 2]%Z]
    [mkMesh [compressedTriangle; compressedLines] None]
    [] ["KHR_draco_mesh_compression"] ["KHR_draco_mesh_compression"] None.

Definition decodedAsset : Gltf :=
  (DecompressDracoMeshes.decmopressDracoMesh (collaborators := fixedDecoder)
     (0, 0) 1 ([0; 1; 2]%Z, 3%Z) payloadRecord compressedAsset).2.










(** Two samplers on different timelines (inputs 0 and 1) that name the same
    output accessor 2. *)
Definition sharedOutput : Gltf :=
  mkGltf
    [indexAccessor; indexAccessor; indexAccessor] [mkBufferView 0 0 42]
    [mkBuffer 42 (repeat 0%Z 42)] []
    [mkAnimation [mkSampler (Some 0) (Some 2) (Some "LINEAR");
                  mkSampler (Some 1) (Some 2) (Some "LINEAR")]]
    [] [] None.

(** A stand-in animation encoder: keyframe ids count up from 1 and the
    payload is two bytes long. *)
Definition countingAnimationEncoder : CompressDracoAnimations.Collaborators :=
  {| CompressDracoAnimations.readAccessorPacked := fun _ _ => Return [0; 1]%Q;
     CompressDracoAnimations.numberOfComponentsForType := fun _ => 1;
     CompressDracoAnimations.AddKeyframes :=
       fun ka _ _ _ =>
         Z.of_nat (S (length (CompressDracoAnimations.ka_keyframes ka)));
     CompressDracoAnimations.EncodeAnimationToDracoBuffer :=
       fun _ _ _ => CompressDracoAnimations.mkEncodedAnimation 2 (fun i => Z.of_nat i) |}.

(** Options whose position bit depth was given as the string "14". *)
Definition wordyBits : CompressDracoMeshes.Options :=
  CompressDracoMeshes.mkOptions
    (Some (CompressDracoMeshes.mkDracoOptions VUndefined (VStr "14") VUndefined
             VUndefined VUndefined VUndefined VUndefined)).

(** One mesh that holds nothing but the LINES primitive. *)
Definition linesOnly : Gltf :=
  mkGltf
    [indexAccessor; position [0; 0; 0]%Q [1; 1; 1]%Q]
    [mkBufferView 0 0 42]
    [mkBuffer 42 (repeat 0%Z 42)]
    [mkMesh [lines] None]
    [] [] [] None.

(** Default options but for unified quantization, which is switched on. *)
Definition unifiedOptions : CompressDracoMeshes.Options :=
  CompressDracoMeshes.mkOptions
    (Some (CompressDracoMeshes.mkDracoOptions VUndefined VUndefined VUndefined
             VUndefined VUndefined VUndefined (VBool true))).

(** An asset whose only POSITION accessor is a VEC2. *)
Definition flatPositions : Gltf :=
  mkGltf
    [indexAccessor;
     mkAccessor (Some 0) (Some 0) 5126 3 "VEC2" (Some [0; 0]%Q) (Some [1; 1]%Q) []]
    [mkBufferView 0 0 42]
    [mkBuffer 42 (repeat 0%Z 42)]
    [mkMesh [triangle] None]
    [] [] [] None.

(** An asset whose only POSITION accessor is a VEC3 with two-slot bounds. *)
Definition shortBounds : Gltf :=
  mkGltf
    [indexAccessor;
     mkAccessor (Some 0) (Some 0) 5126 3 "VEC3" (Some [0; 0]%Q) (Some [1; 1; 1]%Q) []]
    [mkBufferView 0 0 42]
    [mkBuffer 42 (repeat 0%Z 42)]
    [mkMesh [triangle] None]
    [] [] [] None.

(** The variables of the pass after the mesh walk over [mixedAsset]. *)
Definition walkedState : CompressDracoMeshes.PassState :=
  (CompressDracoMeshes.compressMeshes (collaborators := countingEncoder)
     (Some defaultOptions) CompressDracoMeshes.defaults None
     (CompressDracoMeshes.initialState mixedAsset)).2.

(** A stand-in decoder that reports a failure for every payload. *)
Definition failingDecoder : DecompressDracoMeshes.Collaborators :=
  {| DecompressDracoMeshes.GetEncodedGeometryType := fun _ _ => 1%Z;
     DecompressDracoMeshes.DecodeBufferToMesh :=
       fun _ _ => DecompressDracoMeshes.mkDecoded false "corrupt" decodedTriangle;
     DecompressDracoMeshes.DecodeBufferToPointCloud :=
       fun _ _ => DecompressDracoMeshes.mkDecoded false "corrupt" decodedTriangle;
     DecompressDracoMeshes.removeUnusedElements := fun g => g |}.

(** [compressedAsset] after the mesh walk of the decompress pass. *)
Definition decompressedAsset : Gltf :=
  (DecompressDracoMeshes.decompressMeshes (collaborators := fixedDecoder)
     compressedAsset).2.

(** Three samplers in two animations, on two timelines: input 2 drives
    output 3, input 0 drives outputs 1 and 4. *)
Definition animatedAsset : Gltf :=
  mkGltf
    (repeat indexAccessor 5) [mkBufferView 0 0 42]
    [mkBuffer 42 (repeat 0%Z 42)] []
    [mkAnimation [mkSampler (Some 2) (Some 3) (Some "LINEAR");
                  mkSampler (Some 0) (Some 1) (Some "STEP")];
     mkAnimation [mkSampler (Some 0) (Some 4) (Some "LINEAR")]]
    [] [] None.

(** The timelines of [animatedAsset]. *)
Definition timelines : CompressDracoAnimations.Extracted :=
  [(0%nat, mkCompressedAnimation 0 [1%nat; 4%nat] None None);
   (2%nat, mkCompressedAnimation 2 [3%nat] None None)].

(** [animatedAsset] after the animation pass. *)
Definition compressedAnimations : Gltf :=
  (CompressDracoAnimations.compressDracoAnimations
     (collaborators := countingAnimationEncoder) animatedAsset None).2.

(** An asset whose only sampler has no interpolation. *)
Definition noInterpolation : Gltf :=
  mkGltf
    [indexAccessor; indexAccessor] [mkBufferView 0 0 42]
    [mkBuffer 42 (repeat 0%Z 42)] []
    [mkAnimation [mkSampler (Some 0) (Some 1) None]]
    [] [] None.

End Samples.

(** Two states of the asset that hold the same primitive behind every
    reference other than [r]. *)
Definition sameOthers (r : PrimitiveRef) (g g' : Gltf) : Prop :=
  ∀ r0, r0 ≠ r → getPrimitive g' r0 = getPrimitive g r0.

(** The assumption made of [replaceWithDecompressedPrimitive], whose source
    is not available: it changes no primitive other than the one it is
    given. *)
Definition touchesOnlyItsPrimitive
    (f : Gltf -> PrimitiveRef -> Z -> Z -> Gltf) : Prop :=
  ∀ g r n m, sameOthers r g (f g r n m).

(** A primitive the compress pass takes up: its mode is TRIANGLES or
    undefined, and it has indices. *)
Definition eligible (p : Primitive) : Prop :=
  CompressDracoMeshes.unsupportedMode p = false ∧ is_Some (indices p).

(** The Draco record of the primitive behind a reference. *)
Definition dracoExtensionAt (g : Gltf) (r : PrimitiveRef) : option DracoExtension :=
  getPrimitive g r ≫= dracoExtensionOf.

(** How often a hash occurs in the log of encoder runs. *)
Definition occurrences (h : string) (log : list string) : nat :=
  length (filter (fun x => x = h) log).

(** Two states of the asset of which the second still holds every primitive
    other than [r] as it was, and still holds a primitive behind [r] if the
    first did. *)
Definition reaches (r : PrimitiveRef) (g g' : Gltf) : Prop :=
  sameOthers r g g' ∧ (is_Some (getPrimitive g r) → is_Some (getPrimitive g' r)).

(** [a'] describes the same data as [a] but points at no bytes. *)
Definition strippedCloneOf (a a' : Accessor) : Prop :=
  acc_bufferView a' = None
  ∧ acc_byteOffset a' = None
  ∧ acc_componentType a' = acc_componentType a
  ∧ acc_count a' = acc_count a
  ∧ acc_min a' = acc_min a
  ∧ acc_max a' = acc_max a
  ∧ acc_type a' = acc_type a.

(** The assumption made of [replaceWithDecompressedPrimitive] where the
    accessors themselves are looked at: it hands back the asset with its
    accessors, bufferViews, buffers and meshes as they were. *)
Definition leavesArraysAlone (f : Gltf -> PrimitiveRef -> Z -> Z -> Gltf) : Prop :=
  ∀ g r n m,
    accessors (f g r n m) = accessors g
    ∧ bufferViews (f g r n m) = bufferViews g
    ∧ buffers (f g r n m) = buffers g
    ∧ meshes (f g r n m) = meshes g.

(** The attribute entry after the loop of lines 440-445 against the entry
    before it: same semantic, and the new id designates the stripped clone of
    what the old id designated in [g]. *)
Definition restripped (g g' : Gltf) (old new : string * nat) : Prop :=
  new.1 = old.1
  ∧ ∀ a, accessors g !! old.2 = Some a →
         accessors g' !! new.2 = Some (withoutBufferView a).


(** The number a run of bytes spells when it is read least significant
    byte first. *)
Fixpoint littleEndianValue (bytes : list Z) : Z :=
  match bytes with
  | [] => 0
  | b :: rest => b + 256 * littleEndianValue rest
  end.

(** [bytes] holds [values] one after the other, each on [width] bytes:
    every byte is in 0..255, and the [width] bytes from position
    [i * width] on spell value number [i], least significant byte first,
    as its bit pattern on [8 * width] bits (two's complement for a negative
    value). *)
Definition holdsValues (width : nat) (values bytes : list Z) : Prop :=
  length bytes = (length values * width)%nat
  ∧ Forall (fun b => 0 ≤ b < 256)%Z bytes
  ∧ ∀ i v, values !! i = Some v →
           littleEndianValue (take width (drop (i * width) bytes))
           = (v mod 2 ^ (8 * Z.of_nat width))%Z.


(** The accessor ids [removeAllSamplerAccessorData] replaces, in the order
    it meets them: each input followed by its outputs. *)
Definition replacedIds (ea : CompressDracoAnimations.Extracted) : list nat :=
  flat_map (fun entry => entry.1 :: ca_outputs entry.2) ea.

(** The entry of timeline [i] lists [o] among its outputs. *)
Definition timelineHas (ea : CompressDracoAnimations.Extracted) (i o : nat) : Prop :=
  ∃ e, (i, e) ∈ ea ∧ o ∈ ca_outputs e.

(* ================================================================== *)
(** ** Further vocabulary *)
(* ================================================================== *)

(** A number within the closed interval [lo, hi]; neither [NaN] nor an
    infinity is. *)
Definition withinRange (v : value) (lo hi : Q) : Prop :=
  match v with
  | VNum (Fin q) => (lo <= q)%Q ∧ (q <= hi)%Q
  | _ => False
  end.

(** What a range check lets through: a number within [lo, hi], or [NaN]. *)
Definition admitted (v : value) (lo hi : Q) : Prop :=
  v = VNum NaN ∨ withinRange v lo hi.

(** Each of the six options is [NaN] or a number within its range. *)
Definition optionsAdmitted (o : CompressDracoMeshes.DracoOptions) : Prop :=
  admitted (CompressDracoMeshes.compressionLevel o) 0 10
  ∧ admitted (CompressDracoMeshes.quantizePositionBits o) 0 30
  ∧ admitted (CompressDracoMeshes.quantizeNormalBits o) 0 30
  ∧ admitted (CompressDracoMeshes.quantizeTexcoordBits o) 0 30
  ∧ admitted (CompressDracoMeshes.quantizeColorBits o) 0 30
  ∧ admitted (CompressDracoMeshes.quantizeGenericBits o) 0 30.

(** A number above zero: a positive finite value or [+Infinity]. *)
Definition positive (n : number) : Prop :=
  match n with
  | Fin q => (0 < q)%Q
  | PosInf => True
  | _ => False
  end.

(** The compression level is a number in [0,10] and each of the five bit
    depths a number in [0,30]. *)
Definition optionsInRange (o : CompressDracoMeshes.DracoOptions) : Prop :=
  withinRange (CompressDracoMeshes.compressionLevel o) 0 10
  ∧ withinRange (CompressDracoMeshes.quantizePositionBits o) 0 30
  ∧ withinRange (CompressDracoMeshes.quantizeNormalBits o) 0 30
  ∧ withinRange (CompressDracoMeshes.quantizeTexcoordBits o) 0 30
  ∧ withinRange (CompressDracoMeshes.quantizeColorBits o) 0 30
  ∧ withinRange (CompressDracoMeshes.quantizeGenericBits o) 0 30.

(** The bit-depth option that belongs to an attribute kind. *)
Definition bitsFor (e : CompressDracoMeshes.AttributeEnum)
    (o : CompressDracoMeshes.DracoOptions) : value :=
  match e with
  | CompressDracoMeshes.POSITION => CompressDracoMeshes.quantizePositionBits o
  | CompressDracoMeshes.NORMAL => CompressDracoMeshes.quantizeNormalBits o
  | CompressDracoMeshes.COLOR => CompressDracoMeshes.quantizeColorBits o
  | CompressDracoMeshes.TEX_COORD => CompressDracoMeshes.quantizeTexcoordBits o
  | CompressDracoMeshes.GENERIC => CompressDracoMeshes.quantizeGenericBits o
  end.

(** The attribute kind an encoder call quantizes, with its bit depth. *)
Definition quantizes (c : CompressDracoMeshes.EncoderCall)
  : option (CompressDracoMeshes.AttributeEnum * number) :=
  match c with
  | CompressDracoMeshes.SetAttributeQuantization e bits => Some (e, bits)
  | CompressDracoMeshes.SetAttributeExplicitQuantization e bits _ _ _ => Some (e, bits)
  | _ => None
  end.

(** A POSITION accessor the box can be read off without a throw: a VEC3
    that carries [min] and [max]. *)
Definition readablePosition (a : Accessor) : bool :=
  String.eqb (acc_type a) "VEC3"
  && match acc_min a, acc_max a with
     | Some _, Some _ => true
     | _, _ => false
     end.

Definition allReadable (accessors : list Accessor) (ids : list nat) : bool :=
  forallb (fun id => match accessors !! id with
                     | Some a => readablePosition a
                     | None => false
                     end) ids.

(** An assumption on [replaceWithDecompressedPrimitive], whose source is
    not available: whatever it does to accessors, it hands the meshes, and
    so every primitive, back as they were. *)
Definition leavesPrimitivesAlone (f : Gltf -> PrimitiveRef -> Z -> Z -> Gltf) : Prop :=
  ∀ g r n m, meshes (f g r n m) = meshes g.

(** The same, and the bufferViews and buffers are handed back as they were
    as well. *)
Definition leavesPayloadAlone (f : Gltf -> PrimitiveRef -> Z -> Z -> Gltf) : Prop :=
  ∀ g r n m,
    meshes (f g r n m) = meshes g
    ∧ bufferViews (f g r n m) = bufferViews g
    ∧ buffers (f g r n m) = buffers g.

(** The guards of lines 111-116 turn every primitive of the asset away. *)
Definition nothingToCompress (g : Gltf) : Prop :=
  ∀ r p, getPrimitive g r = Some p →
         CompressDracoMeshes.unsupportedMode p = true ∨ indices p = None.

(** A computation on the asset whose end state, whatever the outcome, is
    related by [R] to the state it started in. *)
Definition stepsWithin {A} (R : Gltf -> Gltf -> Prop) (c : M Gltf A) : Prop :=
  ∀ g, R g (c g).2.

(** [g'] holds every accessor, bufferView and buffer of [g] unchanged and
    at its old index; it may hold more. *)
Definition grownFrom (g g' : Gltf) : Prop :=
  accessors g `prefix_of` accessors g'
  ∧ bufferViews g `prefix_of` bufferViews g'
  ∧ buffers g `prefix_of` buffers g'.

(** [g'] holds the same bufferViews and buffers as [g]. *)
Definition sameStore (g g' : Gltf) : Prop :=
  bufferViews g' = bufferViews g ∧ buffers g' = buffers g.

(** The extensions of a primitive other than Draco's. *)
Definition otherExtensions (p : Primitive) : object string :=
  match extensions p with
  | Some e => ext_others e
  | None => []
  end.

(** Two primitives that differ at most in their accessor references and in
    their Draco record. *)
Definition sameShape (q q' : Primitive) : Prop :=
  mode q' = mode q ∧ targets q' = targets q ∧ material q' = material q
  ∧ otherExtensions q' = otherExtensions q.

(** The width in bytes of one index, by the component type the index
    accessor declares: one byte for 5120 (BYTE) and 5121 (UNSIGNED_BYTE),
    two for 5122 (SHORT) and 5123 (UNSIGNED_SHORT); any other type gets
    four. *)
Definition indexWidth (componentType : Z) : nat :=
  if bool_decide (componentType = 5120 ∨ componentType = 5121)%Z then 1
  else if bool_decide (componentType = 5122 ∨ componentType = 5123)%Z then 2
  else 4.

(** The indices of the first [numFaces] faces of a decoded geometry, three
    to a face. *)
Definition faceIndices (dracoGeometry : DecompressDracoMeshes.DracoGeometry)
    (first numFaces : nat) : list Z :=
  flat_map (fun i =>
      let '(a, b, c) := DecompressDracoMeshes.GetFaceFromMesh dracoGeometry i in
      [a; b; c])
    (seq first numFaces).

(** [a'] says of its data what [a] says, bufferView, byteOffset and count
    apart. *)
Definition sameDescription (a a' : Accessor) : Prop :=
  acc_componentType a' = acc_componentType a
  ∧ acc_type a' = acc_type a
  ∧ acc_min a' = acc_min a
  ∧ acc_max a' = acc_max a
  ∧ acc_other a' = acc_other a.

(** [g'] has an accessor for each accessor of [g], at the same index and
    with the same description, and holds every bufferView and buffer of [g]
    unchanged at its old index. *)
Definition redirected (g g' : Gltf) : Prop :=
  Forall2 sameDescription (accessors g) (accessors g')
  ∧ bufferViews g `prefix_of` bufferViews g'
  ∧ buffers g `prefix_of` buffers g'.

(** The primitive [p'] is [p] without its Draco record. *)
Definition decompressedFrom (p p' : Primitive) : Prop :=
  attributes p' = attributes p
  ∧ indices p' = indices p
  ∧ sameShape p p'
  ∧ dracoExtensionOf p' = None.

(** What the decoder makes of the payload a primitive's extension record
    points at: the decoding fails, or the geometry has no position
    attribute. *)
Definition undecodable {collaborators : DecompressDracoMeshes.Collaborators}
    (g : Gltf) (d : DracoExtension) : Prop :=
  ∃ bufferView buffer,
    bufferViews g !! ext_bufferView d = Some bufferView
    ∧ buffers g !! bv_buffer bufferView = Some buffer
    ∧ let compressedData :=
        DecompressDracoMeshes.slice (buf_source buffer) (bv_byteOffset bufferView)
                                    (bv_byteLength bufferView) in
      let decoded :=
        DecompressDracoMeshes.decodeBuffer
          (DecompressDracoMeshes.GetEncodedGeometryType compressedData
             (buf_byteLength buffer))
          (compressedData, buf_byteLength buffer) in
      DecompressDracoMeshes.ok decoded = false
      ∨ DecompressDracoMeshes.ptr (DecompressDracoMeshes.geometry decoded) = 0%Z
      ∨ DecompressDracoMeshes.positionAttributeId
          (DecompressDracoMeshes.geometry decoded) = (-1)%Z.

(** A primitive the decompress pass takes up: its mode is undefined or 4. *)
Definition triangleMode (p : Primitive) : Prop :=
  mode p = None ∨ mode p = Some 4%Z.

(** The outputs of the samplers on timeline [i], in the order the samplers
    are met. *)
Definition outputsOn (i : nat) (l : list Sampler) : list nat :=
  omap (fun s => if decide (input s = Some i) then output s else None) l.

(** Strictly ascending. *)
Fixpoint ascending (l : list nat) : Prop :=
  match l with
  | [] => True
  | x :: l' => Forall (lt x) l' ∧ ascending l'
  end.

(** The entry [extractedAnimations[i]]. *)
Fixpoint entryOf (ea : CompressDracoAnimations.Extracted) (i : nat)
  : option CompressedAnimation :=
  match ea with
  | [] => None
  | (k, e) :: ea' => if decide (k = i) then Some e else entryOf ea' i
  end.

(** The entry of timeline [i] once output [o] has been added to it. *)
Definition withOutput (e : option CompressedAnimation) (i o : nat)
  : CompressedAnimation :=
  match e with
  | Some e => mkCompressedAnimation (ca_input e) (ca_outputs e ++ [o])
                                    (ca_attributesId e) (ca_bufferView e)
  | None => mkCompressedAnimation i [o] None None
  end.

(** A sampler the extraction of lines 113-133 rejects. *)
Definition malformed (s : Sampler) : Prop :=
  input s = None ∨ output s = None ∨ interpolation s = None.

(** [g'] has the meshes of [g], has grown from [g], and has a sampler for
    each sampler of [g], in the same place and with the same interpolation. *)
Definition animationFrame (g g' : Gltf) : Prop :=
  grownFrom g g'
  ∧ meshes g' = meshes g
  ∧ Forall2 (fun a a' =>
       Forall2 (fun s s' => interpolation s' = interpolation s)
               (samplers a) (samplers a'))
     (animations g) (animations g').

(** The accessor lines 26-32 put in place of [a]: its componentType, count,
    max, min and type, and nothing else. *)
Definition dataless (a : Accessor) : Accessor :=
  mkAccessor None None (acc_componentType a) (acc_count a) (acc_type a)
             (acc_min a) (acc_max a) [].

(** Where [x] first occurs in [l]. *)
Fixpoint positionOf (x : nat) (l : list nat) : option nat :=
  match l with
  | [] => None
  | y :: l' => if decide (y = x) then Some 0%nat else S <$> positionOf x l'
  end.

(** The id that stands for [x] once the ids in [done] have been replaced,
    in that order, by accessors appended from index [n0] on. *)
Definition renamed (n0 : nat) (done : list nat) (x : nat) : nat :=
  match positionOf x done with
  | Some j => (n0 + j)%nat
  | None => x
  end.

Definition renamedSampler (n0 : nat) (done : list nat) (s : Sampler) : Sampler :=
  mkSampler (renamed n0 done <$> input s) (renamed n0 done <$> output s)
            (interpolation s).

(** The asset [g0] after the accessors in [done] have been replaced. *)
Definition replacedSoFar (g0 : Gltf) (done : list nat) (g : Gltf) : Prop :=
  accessors g
  = accessors g0 ++ omap (fun x => dataless <$> accessors g0 !! x) done
  ∧ animations g
    = map (fun a =>
             mkAnimation (map (renamedSampler (length (accessors g0)) done)
                              (samplers a)))
          (animations g0).

(** Every accessor id a sampler names designates an accessor. *)
Definition samplersResolve (g : Gltf) : Prop :=
  ∀ s x, s ∈ CompressDracoAnimations.allSamplers g → input s = Some x ∨ output s = Some x →
         (x < length (accessors g))%nat.

(** The reference [x'] in [g'] stands for the reference [x] in [g]: it
    names an accessor appended since, which is the data-less copy of the
    one [x] names. *)
Definition repointed (g g' : Gltf) (x x' : option nat) : Prop :=
  ∃ i i' a,
    x = Some i ∧ x' = Some i'
    ∧ accessors g !! i = Some a
    ∧ (length (accessors g) ≤ i')%nat
    ∧ accessors g' !! i' = Some (dataless a).

(** BufferView [bv] of [g] starts at byte 0 of a buffer and spans all of
    it, and the buffer holds as many bytes as its byteLength says, at least
    one. *)
Definition storedPayload (g : Gltf) (bv : nat) : Prop :=
  ∃ bufferView buffer,
    bufferViews g !! bv = Some bufferView
    ∧ bv_byteOffset bufferView = 0%nat
    ∧ buffers g !! bv_buffer bufferView = Some buffer
    ∧ bv_byteLength bufferView = buf_byteLength buffer
    ∧ buf_byteLength buffer = Z.of_nat (length (buf_source buffer))
    ∧ (0 < buf_byteLength buffer)%Z.

(** The entry [encoded] is the timeline [entry] once lines 142-194 have
    encoded it in an asset that had [first] bufferViews and became [g]. *)
Definition encodedFrom (first : nat) (g : Gltf)
    (entry encoded : nat * CompressedAnimation) : Prop :=
  encoded.1 = entry.1
  ∧ ca_input encoded.2 = ca_input entry.2
  ∧ ca_outputs encoded.2 = ca_outputs entry.2
  ∧ (∃ attributesId,
       ca_attributesId encoded.2 = Some attributesId
       ∧ length attributesId = length (ca_outputs entry.2)
       ∧ Forall (fun id => (0 < id)%Z) attributesId)
  ∧ ∃ bv, ca_bufferView encoded.2 = Some bv
          ∧ (first ≤ bv)%nat
          ∧ storedPayload g bv.

(** The record [record] of the extension is the timeline [entry] with its
    accessor ids renamed and its payload stored in [g']. *)
Definition recordOf (g g' : Gltf) (ids : list nat)
    (entry : nat * CompressedAnimation) (record : CompressedAnimation) : Prop :=
  ca_input record = renamed (length (accessors g)) ids entry.1
  ∧ ca_outputs record = map (renamed (length (accessors g)) ids) (ca_outputs entry.2)
  ∧ (∃ attributesId,
       ca_attributesId record = Some attributesId
       ∧ length attributesId = length (ca_outputs entry.2)
       ∧ Forall (fun id => (0 < id)%Z) attributesId)
  ∧ ∃ bv, ca_bufferView record = Some bv
          ∧ (length (bufferViews g) ≤ bv)%nat
          ∧ storedPayload g' bv.

(* ================================================================== *)
(** * Properties *)
(* ================================================================== *)

(** ** Range checks come first *)

(** C7.  The range checks miss one case.  A compression level of [NaN] is a
    number, and it is neither below 0 nor above 10, so all six checks of
    lines 59-64 pass although [NaN] does not lie in [0,10]: no error is
    raised.  On [mixedAsset] the pass then runs to its end: it sets the
    encoder's speed to [NaN], encodes the triangle primitive and rewrites
    the asset. *)
Theorem C7_nan_level_passes_the_range_checks :
  CompressDracoMeshes.compressionLevel
    (CompressDracoMeshes.effectiveOptions (Some Samples.nanLevel)) = VNum NaN
  ∧ CompressDracoMeshes.checkRanges
      (CompressDracoMeshes.effectiveOptions (Some Samples.nanLevel)) = Return tt
  ∧ (∃ rest,
       CompressDracoMeshes.encoderCalls
         (CompressDracoMeshes.effectiveOptions (Some Samples.nanLevel)) None false
       = CompressDracoMeshes.SetSpeedOptions NaN NaN :: rest)
  ∧ ∃ s',
      CompressDracoMeshes.compressDracoMeshes (collaborators := Samples.countingEncoder)
        Samples.mixedAsset (Some Samples.nanLevel) = (Return tt, s')
      ∧ CompressDracoMeshes.encoded s' = ["iPOSITION"]
      ∧ length (accessors (CompressDracoMeshes.gltf s'))
        = (length (accessors Samples.mixedAsset) + 2)%nat
      ∧ CompressDracoMeshes.gltf s' ≠ Samples.mixedAsset.
Proof.
  split; [reflexivity|]. split; [reflexivity|].
  split; [eexists; reflexivity|].
  eexists. split; [vm_compute; reflexivity|].
  split; [reflexivity|]. split; [reflexivity|].
  intros Heq. apply (f_equal (fun g => length (accessors g))) in Heq.
  vm_compute in Heq. discriminate.
Qed.

(** ** The unified quantization box *)

Section UnifiedBox.
Import CompressDracoMeshes.

Lemma numberLe_refl (a : number) : a ≠ NaN → numberLe a a.
Proof. destruct a; simpl; try done. intros _. apply Qle_refl. Qed.













End UnifiedBox.


(** ** Type dispatch *)

Section TypeDispatch.
Import CompressDracoMeshes.

Lemma getAddAttributeFunctionName_unsupported (componentType : Z) :
  ¬ supportedComponentType componentType →
  getAddAttributeFunctionName componentType = Return None.
Proof.
  unfold supportedComponentType, getAddAttributeFunctionName.
  unfold WebGLConstants.UNSIGNED_BYTE, WebGLConstants.BYTE,
    WebGLConstants.UNSIGNED_SHORT, WebGLConstants.SHORT,
    WebGLConstants.UNSIGNED_INT, WebGLConstants.INT, WebGLConstants.FLOAT.
  intros Hun.
  repeat match goal with
         | |- context [(?a =? ?b)%Z] => destruct (Z.eqb_spec a b); [lia|]
         end.
  reflexivity.
Qed.

Lemma addAttribute_unsupported {collaborators : Collaborators}
    (g : Gltf) (ma : DracoMesh * object Z) (semantic : string) (accessorId : nat)
    (a : Accessor) :
  accessors g !! accessorId = Some a →
  ¬ supportedComponentType (acc_componentType a) →
  ∃ err, addAttribute ma (semantic, accessorId) g = (Throw err, g).
Proof.
  intros Ha Hun. destruct ma as [mesh attributeToId].
  unfold addAttribute, bind, get, lift, throw, ret. rewrite Ha.
  destruct (readAccessorPacked g (Some a)); [|eauto].
  rewrite (getAddAttributeFunctionName_unsupported _ Hun).
  destruct (createTypedArray _ _); [|eauto].
  destruct (_ || _); [|eauto].
  destruct (outputAttribute _ _ _); eauto.
Qed.

Lemma attributeArrays_else (data_type : Z) :
  ¬ (1 ≤ data_type ≤ 6)%Z →
  DecompressDracoMeshes.attributeArrays data_type
  = (DecompressDracoMeshes.DracoFloat32Array, DecompressDracoMeshes.Float32Array).
Proof.
  intros Hun. unfold DecompressDracoMeshes.attributeArrays.
  repeat match goal with
         | |- context [(?a =? ?b)%Z] => destruct (Z.eqb_spec a b); [lia|]
         end.
  reflexivity.
Qed.

(** C6 (as amended).  For a component type outside the seven supported ones
    the encode-side dispatch returns no function name and raises nothing
    itself; the attribute callback that uses it then always ends in a throw
    and leaves the asset as it was.  On the decode side every data type
    other than 1..6 is read as 32-bit float. *)
Theorem C6_dispatch_of_unsupported_types :
  (∀ componentType : Z,
      ¬ supportedComponentType componentType →
      getAddAttributeFunctionName componentType = Return None)
  ∧ (∀ (collaborators : Collaborators) (g : Gltf) (ma : DracoMesh * object Z)
       (semantic : string) (accessorId : nat) (a : Accessor),
      accessors g !! accessorId = Some a →
      ¬ supportedComponentType (acc_componentType a) →
      ∃ err, addAttribute ma (semantic, accessorId) g = (Throw err, g))
  ∧ (∀ data_type : Z,
      ¬ (1 ≤ data_type ≤ 6)%Z →
      DecompressDracoMeshes.attributeArrays data_type
      = (DecompressDracoMeshes.DracoFloat32Array, DecompressDracoMeshes.Float32Array)).
Proof.
  split; [exact getAddAttributeFunctionName_unsupported|].
  split; [intros; by eapply addAttribute_unsupported|exact attributeArrays_else].
Qed.

End TypeDispatch.

Lemma C6_witness_double :
  CompressDracoMeshes.getAddAttributeFunctionName 5130 = Return None
  ∧ DecompressDracoMeshes.attributeArrays 7
    = (DecompressDracoMeshes.DracoFloat32Array, DecompressDracoMeshes.Float32Array).
Proof.
  destruct C6_dispatch_of_unsupported_types as (Hname & _ & Harrays).
  split.
  - apply Hname. unfold supportedComponentType. lia.
  - apply Harrays. lia.
Defined.

(** The claim as written fails: component type 5130 (a 64-bit float) is not
    supported, yet the encode-side dispatch throws nothing for it, and data
    type 7 (a 64-bit integer) is decoded through the float path. *)
Lemma C6_counterexample_no_explicit_error :
  (supportedComponentType 5130 → False)
  ∧ (∀ err, CompressDracoMeshes.getAddAttributeFunctionName 5130 ≠ Throw err)
  ∧ DecompressDracoMeshes.attributeArrays 7
    = (DecompressDracoMeshes.DracoFloat32Array, DecompressDracoMeshes.Float32Array).
Proof.
  split; [unfold supportedComponentType; lia|]. split; [|reflexivity].
  intros err. vm_compute. discriminate.
Qed.

(** ** Running the monad *)

Section Running.

Lemma bind_run {S A B : Type} (c : M S A) (k : A → M S B) (s : S) :
  bind c k s = match c s with
               | (Return a, s') => k a s'
               | (Throw e, s') => (Throw e, s')
               end.
Proof. reflexivity. Qed.

Lemma bind_invariant {S A B : Type} (P : S → Prop) (c : M S A) (k : A → M S B) :
  (∀ s, P s → P (c s).2) → (∀ a s, P s → P (k a s).2) →
  ∀ s, P s → P (bind c k s).2.
Proof.
  intros Hc Hk s Hs. rewrite bind_run. specialize (Hc s Hs).
  destruct (c s) as [[a|e] s']; simpl in *; [by apply Hk|done].
Qed.

Lemma bind_Return {S A B : Type} (c : M S A) (k : A → M S B) (s s' : S) (b : B) :
  bind c k s = (Return b, s') →
  ∃ a s1, c s = (Return a, s1) ∧ k a s1 = (Return b, s').
Proof.
  rewrite bind_run. destruct (c s) as [[a|e] s1]; [eauto|discriminate].
Qed.

Lemma forEach_invariant {S A : Type} (P : S → Prop) (l : list A) (h : A → M S unit) :
  (∀ x s, x ∈ l → P s → P (h x s).2) → ∀ s, P s → P (forEach l h s).2.
Proof.
  induction l as [|x l IH]; intros Hh s Hs; simpl; [done|].
  apply bind_invariant; [|intros _ s1 Hs1|done].
  - intros s1 Hs1. apply Hh; [left|done].
  - apply IH; [|done]. intros y s2 Hy. apply Hh. by right.
Qed.

End Running.

(** ** References into the asset *)

Section References.

Lemma getPrimitive_setPrimitive_ne (g : Gltf) (r r0 : PrimitiveRef) (p : Primitive) :
  r0 ≠ r → getPrimitive (setPrimitive g r p) r0 = getPrimitive g r0.
Proof.
  intros Hne. unfold getPrimitive, setPrimitive.
  destruct (meshes g !! r.1) as [m|] eqn:Em; [|done]. simpl.
  destruct (decide (r0.1 = r.1)) as [E1|E1].
  - rewrite E1, Em. rewrite list_lookup_insert_eq by (by eapply lookup_lt_Some).
    simpl. apply list_lookup_insert_ne. intros E2. apply Hne.
    destruct r, r0; simpl in *; congruence.
  - by rewrite list_lookup_insert_ne.
Qed.

Lemma getPrimitive_setPrimitive_eq (g : Gltf) (r : PrimitiveRef) (p0 p : Primitive) :
  getPrimitive g r = Some p0 → getPrimitive (setPrimitive g r p) r = Some p.
Proof.
  unfold getPrimitive, setPrimitive.
  destruct (meshes g !! r.1) as [m|] eqn:Em; [|done]. simpl. intros Hp.
  rewrite list_lookup_insert_eq by (by eapply lookup_lt_Some). simpl.
  apply list_lookup_insert_eq. by eapply lookup_lt_Some.
Qed.

Lemma sameOthers_refl (r : PrimitiveRef) (g : Gltf) : sameOthers r g g.
Proof. by intros r0 _. Qed.

Lemma sameOthers_trans (r : PrimitiveRef) (g1 g2 g3 : Gltf) :
  sameOthers r g1 g2 → sameOthers r g2 g3 → sameOthers r g1 g3.
Proof. intros H12 H23 r0 Hne. by rewrite H23, H12. Qed.

Lemma sameOthers_meshes (r : PrimitiveRef) (g g' : Gltf) :
  meshes g' = meshes g → sameOthers r g g'.
Proof. intros E r0 _. unfold getPrimitive. by rewrite E. Qed.

Lemma sameOthers_setPrimitive (r : PrimitiveRef) (g : Gltf) (p : Primitive) :
  sameOthers r g (setPrimitive g r p).
Proof. intros r0 Hne. by apply getPrimitive_setPrimitive_ne. Qed.

Lemma modifyPrimitive_run (r : PrimitiveRef) (f : Primitive → Primitive) (g : Gltf) :
  modifyPrimitive r f g
  = (Return tt, match getPrimitive g r with
                | Some p => setPrimitive g r (f p)
                | None => g
                end).
Proof. reflexivity. Qed.

Lemma modifyPrimitive_sameOthers (r : PrimitiveRef) (f : Primitive → Primitive)
    (g0 g : Gltf) :
  sameOthers r g0 g → sameOthers r g0 (modifyPrimitive r f g).2.
Proof.
  intros Hs. rewrite modifyPrimitive_run. simpl.
  destruct (getPrimitive g r); [|done].
  eapply sameOthers_trans; [exact Hs|apply sameOthers_setPrimitive].
Qed.

Lemma primitiveAt_run (r : PrimitiveRef) (g : Gltf) :
  primitiveAt r g
  = match getPrimitive g r with
    | Some p => (Return p, g)
    | None => (Throw "TypeError: primitive is undefined", g)
    end.
Proof. unfold primitiveAt, bind, get. by destruct (getPrimitive g r). Qed.

Lemma primitiveAt_state (r : PrimitiveRef) (g : Gltf) : (primitiveAt r g).2 = g.
Proof. rewrite primitiveAt_run. by destruct (getPrimitive g r). Qed.

End References.

Section CompressFrames.
Import CompressDracoMeshes.
Context {collaborators : Collaborators}.

Lemma bind_get {S B} (k : S → M S B) (s : S) : bind get k s = k s s.
Proof. reflexivity. Qed.

Lemma bind_put {S B} (x : S) (k : unit → M S B) (s : S) : bind (put x) k s = k tt x.
Proof. reflexivity. Qed.

Lemma bind_modify {S B} (f : S → S) (k : unit → M S B) (s : S) :
  bind (modify f) k s = k tt (f s).
Proof. reflexivity. Qed.

Lemma pushStrippedClone_run (id : nat) (g : Gltf) :
  pushStrippedClone id g
  = match accessors g !! id with
    | Some a => (Return (length (accessors g)),
                 set_accessors g (accessors g ++ [withoutBufferView a]))
    | None => (Throw "TypeError: Cannot convert undefined or null to object", g)
    end.
Proof.
  unfold pushStrippedClone, accessorAt, bind, get, put, ret, throw.
  by destruct (accessors g !! id).
Qed.

Lemma pushStrippedClone_sameOthers (r : PrimitiveRef) (id : nat) (g0 g : Gltf) :
  sameOthers r g0 g → sameOthers r g0 (pushStrippedClone id g).2.
Proof.
  intros Hs. rewrite pushStrippedClone_run.
  destruct (accessors g !! id); [|done]. simpl.
  eapply sameOthers_trans; [exact Hs|]. by apply sameOthers_meshes.
Qed.

(** The turn of the attribute loop of lines 440-445. *)
Lemma stripAttribute_sameOthers (r : PrimitiveRef) (sa : string * nat) (g0 g : Gltf) :
  sameOthers r g0 g →
  sameOthers r g0
    ((let '(semantic, accessorId) := sa in
      newId <- pushStrippedClone accessorId ;;
      modifyPrimitive r
        (fun p => set_attributes p (assignKey (attributes p) semantic newId))) g).2.
Proof.
  intros Hs. destruct sa as [semantic accessorId].
  apply (bind_invariant (sameOthers r g0)); [| |done].
  - intros s. apply pushStrippedClone_sameOthers.
  - intros a s. apply modifyPrimitive_sameOthers.
Qed.

Lemma addCompression_sameOthers (r : PrimitiveRef) (attributeToId : object Z)
    (len : Z) (data : list Z) (n m : Z) (g : Gltf) :
  touchesOnlyItsPrimitive replaceWithDecompressedPrimitive →
  sameOthers r g (addCompressionExtensionToPrimitive r attributeToId len data n m g).2.
Proof.
  intros Hh. unfold addCompressionExtensionToPrimitive.
  rewrite bind_run, primitiveAt_run.
  destruct (getPrimitive g r) as [p|] eqn:Ep; [|apply sameOthers_refl].
  destruct (indices p) as [i|]; [|apply sameOthers_refl].
  apply (bind_invariant (sameOthers r g)); [| |apply sameOthers_refl].
  { intros s. apply pushStrippedClone_sameOthers. }
  intros newIndices s Hs.
  apply (bind_invariant (sameOthers r g)); [| |done].
  { intros s1. apply modifyPrimitive_sameOthers. }
  clear s Hs. intros _ s Hs.
  apply (bind_invariant (sameOthers r g)); [| |done].
  { intros s1. apply forEach_invariant. intros sa s2 _. apply stripAttribute_sameOthers. }
  clear s Hs. intros _ s Hs.
  rewrite bind_get. unfold addToArray. rewrite bind_put.
  apply (bind_invariant (sameOthers r g)).
  { intros s1. apply modifyPrimitive_sameOthers. }
  { intros _ s1 Hs1. unfold modify. simpl.
    eapply sameOthers_trans; [exact Hs1|apply Hh]. }
  eapply sameOthers_trans; [exact Hs|]. by apply sameOthers_meshes.
Qed.

(** Copying touches the receiving primitive only, whatever the outcome. *)
Lemma copyCompressed_sameOthers (r rc : PrimitiveRef) (g : Gltf) :
  sameOthers r g (copyCompressedExtensionToPrimitive r rc g).2.
Proof.
  unfold copyCompressedExtensionToPrimitive.
  apply (bind_invariant (sameOthers r g)); [| |apply sameOthers_refl].
  { intros s Hs. by rewrite primitiveAt_state. }
  intros cp s Hs.
  apply (bind_invariant (sameOthers r g)); [| |done].
  { intros s1. apply forEach_invariant. intros [semantic accessorId] s2 _.
    apply modifyPrimitive_sameOthers. }
  clear s Hs. intros _ s Hs.
  apply (bind_invariant (sameOthers r g)); [| |done].
  { intros s1 Hs1. by rewrite primitiveAt_state. }
  clear s Hs cp. intros cp s Hs.
  apply (bind_invariant (sameOthers r g)); [| |done].
  { intros s1. apply modifyPrimitive_sameOthers. }
  clear s Hs. intros _ s Hs.
  apply (bind_invariant (sameOthers r g)); [| |done].
  { intros s1 Hs1. by rewrite primitiveAt_state. }
  clear s Hs cp. intros cp s Hs.
  destruct (dracoExtensionOf cp); [|done].
  by apply modifyPrimitive_sameOthers.
Qed.

Lemma onGltf_run {A} (c : M Gltf A) (s : PassState) :
  onGltf c s
  = ((c (gltf s)).1,
     mkPassState (c (gltf s)).2 (hashPrimitives s) (addedExtension s) (encoded s)).
Proof. unfold onGltf. by destruct (c (gltf s)). Qed.

Lemma addAttribute_state (ma : DracoMesh * object Z) (sa : string * nat) (g : Gltf) :
  (addAttribute ma sa g).2 = g.
Proof.
  destruct ma as [mesh attributeToId], sa as [semantic accessorId].
  unfold addAttribute, bind, get, lift, throw, ret.
  destruct (accessors g !! accessorId); [|done].
  destruct (readAccessorPacked _ _); [|done].
  destruct (getAddAttributeFunctionName _) as [[name|]|]; try done;
    destruct (createTypedArray _ _); try done;
    destruct (_ || _); try done;
    try destruct (outputAttribute _ _ _); try done;
    destruct (_ =? _)%Z; done.
Qed.

Lemma addAttributes_state (l : object nat) (ma : DracoMesh * object Z) (g : Gltf) :
  (addAttributes ma l g).2 = g.
Proof.
  revert ma g. induction l as [|sa l IH]; intros ma g; simpl; [done|].
  rewrite bind_run. pose proof (addAttribute_state ma sa g) as Hs.
  destruct (addAttribute ma sa g) as [[ma'|e] g1]; simpl in *; subst; [apply IH|done].
Qed.

Lemma encodePrimitive_sameOthers (options : option Options) (o : DracoOptions)
    (box : option (Vec3 * number)) (hashValue : string) (r : PrimitiveRef)
    (p : Primitive) (indicesId : nat) (s : PassState) :
  touchesOnlyItsPrimitive replaceWithDecompressedPrimitive →
  sameOthers r (gltf s) (gltf (encodePrimitive options o box hashValue r p indicesId s).2).
Proof.
  intros Hh. unfold encodePrimitive.
  destruct options as [[[d|]]|]; try apply sameOthers_refl.
  apply (bind_invariant (fun s' => sameOthers r (gltf s) (gltf s')));
    [| |apply sameOthers_refl].
  { intros s1 Hs1. rewrite onGltf_run. simpl.
    rewrite bind_get, bind_run. unfold lift.
    destruct (readAccessorPacked _ _); [|done].
    by rewrite addAttributes_state. }
  intros [mesh attributeToId] s1 Hs1.
  rewrite bind_modify. simpl.
  destruct (_ <=? _)%Z; [done|].
  rewrite onGltf_run. simpl.
  eapply sameOthers_trans; [exact Hs1|]. by apply addCompression_sameOthers.
Qed.

Lemma compressPrimitive_sameOthers (options : option Options) (o : DracoOptions)
    (box : option (Vec3 * number)) (r : PrimitiveRef) (s : PassState) :
  touchesOnlyItsPrimitive replaceWithDecompressedPrimitive →
  sameOthers r (gltf s) (gltf (compressPrimitive options o box r s).2).
Proof.
  intros Hh. unfold compressPrimitive.
  rewrite bind_run, onGltf_run, primitiveAt_run.
  destruct (getPrimitive (gltf s) r) as [p|]; simpl; [|apply sameOthers_refl].
  destruct (unsupportedMode p); [apply sameOthers_refl|].
  destruct (indices p) as [indicesId|]; [|apply sameOthers_refl].
  rewrite bind_modify, bind_get. simpl.
  destruct (hashPrimitives s !! _) as [cached|].
  - rewrite onGltf_run. simpl. apply copyCompressed_sameOthers.
  - rewrite bind_modify.
    apply (encodePrimitive_sameOthers options o box _ r p indicesId
             (remember _ r (set_addedExtension
                {| gltf := gltf s; hashPrimitives := hashPrimitives s;
                   addedExtension := addedExtension s; encoded := encoded s |})) Hh).
Qed.

(** A primitive that one of the two guards turns away costs nothing. *)
Lemma compressPrimitive_skipped (options : option Options) (o : DracoOptions)
    (box : option (Vec3 * number)) (r : PrimitiveRef) (p : Primitive) (s : PassState) :
  getPrimitive (gltf s) r = Some p →
  unsupportedMode p = true ∨ indices p = None →
  compressPrimitive options o box r s = (Return tt, s).
Proof.
  intros Hp Hskip. unfold compressPrimitive.
  rewrite bind_run, onGltf_run, primitiveAt_run, Hp. simpl.
  destruct s as [g hp ae en]; simpl in *.
  destruct (unsupportedMode p); [done|].
  destruct Hskip as [?| ->]; done.
Qed.

Lemma compressPrimitive_keeps (options : option Options) (o : DracoOptions)
    (box : option (Vec3 * number)) (r r0 : PrimitiveRef) (p0 : Primitive)
    (s : PassState) :
  touchesOnlyItsPrimitive replaceWithDecompressedPrimitive →
  unsupportedMode p0 = true ∨ indices p0 = None →
  getPrimitive (gltf s) r0 = Some p0 →
  getPrimitive (gltf (compressPrimitive options o box r s).2) r0 = Some p0.
Proof.
  intros Hh Hskip Hp0. destruct (decide (r0 = r)) as [->|Hne].
  - by rewrite (compressPrimitive_skipped options o box r p0 s Hp0 Hskip).
  - by rewrite (compressPrimitive_sameOthers options o box r s Hh r0 Hne).
Qed.

Lemma compressMeshesFrom_keeps (options : option Options) (o : DracoOptions)
    (box : option (Vec3 * number)) (r0 : PrimitiveRef) (p0 : Primitive)
    (ms : list Mesh) (mi : nat) (s : PassState) :
  touchesOnlyItsPrimitive replaceWithDecompressedPrimitive →
  unsupportedMode p0 = true ∨ indices p0 = None →
  getPrimitive (gltf s) r0 = Some p0 →
  getPrimitive (gltf (compressMeshesFrom options o box mi ms s).2) r0 = Some p0.
Proof.
  intros Hh Hskip. revert mi s.
  induction ms as [|m ms IH]; intros mi s Hp0; simpl; [done|].
  apply (bind_invariant (fun s' => getPrimitive (gltf s') r0 = Some p0)); [| |done].
  - intros s1 Hs1. unfold compressMesh.
    apply (bind_invariant (fun s' => getPrimitive (gltf s') r0 = Some p0)); [| |done].
    + apply (forEach_invariant (fun s' => getPrimitive (gltf s') r0 = Some p0)).
      intros r s3 _ Hs3. by apply compressPrimitive_keeps.
    + intros _ s2 Hs2. unfold meshObjDump. by destruct options as [[[d|]]|].
  - intros _ s1 Hs1. by apply IH.
Qed.

(** C4.  A primitive whose mode is defined and is not TRIANGLES, or whose
    indices are undefined, is the same primitive after the mesh walk of the
    compress pass as before it, whether the walk ends normally or in a
    throw: it has gained no extension record and its accessor references
    are the ones it had. *)
Theorem C4_skipped_primitive_unchanged (options : option Options)
    (o : DracoOptions) (box : option (Vec3 * number)) (s : PassState)
    (r0 : PrimitiveRef) (p0 : Primitive) :
  touchesOnlyItsPrimitive replaceWithDecompressedPrimitive →
  getPrimitive (gltf s) r0 = Some p0 →
  unsupportedMode p0 = true ∨ indices p0 = None →
  getPrimitive (gltf (compressMeshes options o box s).2) r0 = Some p0.
Proof.
  intros Hh Hp0 Hskip. unfold compressMeshes. rewrite bind_get.
  by apply compressMeshesFrom_keeps.
Qed.

End CompressFrames.

Lemma C4_witness_lines :
  getPrimitive
    (CompressDracoMeshes.gltf
       (CompressDracoMeshes.compressMeshes (collaborators := Samples.countingEncoder)
          (Some Samples.defaultOptions) CompressDracoMeshes.defaults None
          (CompressDracoMeshes.initialState Samples.mixedAsset)).2) (0, 1)
  = Some Samples.lines.
Proof.
  apply (@C4_skipped_primitive_unchanged Samples.countingEncoder).
  - intros g r n m r0 Hne. reflexivity.
  - reflexivity.
  - left. reflexivity.
Defined.

Section Deduplication.
Import CompressDracoMeshes.
Context {collaborators : Collaborators}.

Lemma reaches_refl (r : PrimitiveRef) (g : Gltf) : reaches r g g.
Proof. split; [apply sameOthers_refl|done]. Qed.

Lemma modifyPrimitive_reaches (r : PrimitiveRef) (f : Primitive → Primitive)
    (g0 g : Gltf) :
  reaches r g0 g → reaches r g0 (modifyPrimitive r f g).2.
Proof.
  intros [Hs Hr]. split; [by apply modifyPrimitive_sameOthers|].
  intros H0. specialize (Hr H0) as [p Hp].
  rewrite modifyPrimitive_run. simpl. rewrite Hp.
  rewrite (getPrimitive_setPrimitive_eq _ _ _ _ Hp). eauto.
Qed.

Lemma copyCompressed_Return (r rc : PrimitiveRef) (g g' : Gltf) :
  is_Some (getPrimitive g r) → rc ≠ r →
  copyCompressedExtensionToPrimitive r rc g = (Return tt, g') →
  sameOthers r g g'
  ∧ ∃ d, dracoExtensionAt g rc = Some d ∧ dracoExtensionAt g' r = Some d.
Proof.
  intros Hr Hne Hrun.
  split; [pose proof (copyCompressed_sameOthers r rc g) as Hs; by rewrite Hrun in Hs|].
  unfold copyCompressedExtensionToPrimitive in Hrun.
  apply bind_Return in Hrun as (cp0 & g1 & H1 & Hrun).
  rewrite primitiveAt_run in H1.
  destruct (getPrimitive g rc) as [cp|] eqn:Ecp; [|discriminate].
  injection H1 as <- <-.
  apply bind_Return in Hrun as ([] & g2 & H2 & Hrun).
  assert (R2 : reaches r g g2).
  { pose proof (forEach_invariant (reaches r g) (attributes cp)
      (fun '(semantic, accessorId) =>
         modifyPrimitive r (fun p =>
           set_attributes p (assignKey (attributes p) semantic accessorId)))) as Hinv.
    specialize (Hinv ltac:(intros [??] ? _; apply modifyPrimitive_reaches) g
                     (reaches_refl r g)).
    by rewrite H2 in Hinv. }
  apply bind_Return in Hrun as (cp2 & g2' & H3 & Hrun).
  rewrite primitiveAt_run in H3.
  rewrite (proj1 R2 rc Hne), Ecp in H3. injection H3 as <- <-.
  apply bind_Return in Hrun as ([] & g3 & H4 & Hrun).
  assert (R3 : reaches r g g3).
  { pose proof (modifyPrimitive_reaches r (fun p => set_indices p (indices cp)) g g2 R2) as Hm.
    by rewrite H4 in Hm. }
  apply bind_Return in Hrun as (cp3 & g3' & H5 & Hrun).
  rewrite primitiveAt_run in H5.
  rewrite (proj1 R3 rc Hne), Ecp in H5. injection H5 as <- <-.
  destruct (dracoExtensionOf cp) as [d|] eqn:Ed; [|discriminate].
  exists d. split; [unfold dracoExtensionAt; by rewrite Ecp|].
  rewrite modifyPrimitive_run in Hrun.
  destruct (proj2 R3 Hr) as [p3 Hp3]. rewrite Hp3 in Hrun.
  injection Hrun as <-.
  unfold dracoExtensionAt. rewrite (getPrimitive_setPrimitive_eq _ _ _ _ Hp3).
  simpl. unfold dracoExtensionOf. simpl. by destruct d.
Qed.

Lemma onGltf_Return {A} (c : M Gltf A) (s s' : PassState) (a : A) :
  onGltf c s = (Return a, s') →
  c (gltf s) = (Return a, gltf s')
  ∧ hashPrimitives s' = hashPrimitives s
  ∧ addedExtension s' = addedExtension s
  ∧ encoded s' = encoded s.
Proof.
  rewrite onGltf_run. destruct (c (gltf s)) as [res g'] eqn:E. simpl.
  intros [= -> <-]. done.
Qed.

Lemma encodePrimitive_Return (options : option Options) (o : DracoOptions)
    (box : option (Vec3 * number)) (hashValue : string) (r : PrimitiveRef)
    (p : Primitive) (indicesId : nat) (s s' : PassState) :
  encodePrimitive options o box hashValue r p indicesId s = (Return tt, s') →
  hashPrimitives s' = hashPrimitives s ∧ encoded s' = encoded s ++ [hashValue].
Proof.
  unfold encodePrimitive. destruct options as [[[d|]]|]; try discriminate.
  intros Hrun. apply bind_Return in Hrun as ([mesh attributeToId] & s1 & H1 & Hrun).
  apply onGltf_Return in H1 as (_ & Hc1 & _ & He1).
  rewrite bind_modify in Hrun. simpl in Hrun.
  destruct (_ <=? _)%Z; [discriminate|].
  apply onGltf_Return in Hrun as (_ & Hc & _ & He). simpl in *.
  split; congruence.
Qed.

(** What a normal return of the callback means for the primitive it was
    called on. *)
Lemma compressPrimitive_Return (options : option Options) (o : DracoOptions)
    (box : option (Vec3 * number)) (r : PrimitiveRef) (s s' : PassState) :
  compressPrimitive options o box r s = (Return tt, s') →
  ∃ p, getPrimitive (gltf s) r = Some p
  ∧ (((unsupportedMode p = true ∨ indices p = None) ∧ s' = s)
     ∨ (eligible p
        ∧ ∃ rc, hashPrimitives s !! hashObject (attributes p, indices p, mode p) = Some rc
          ∧ hashPrimitives s' = hashPrimitives s
          ∧ encoded s' = encoded s
          ∧ (rc ≠ r → ∃ d, dracoExtensionAt (gltf s) rc = Some d
                           ∧ dracoExtensionAt (gltf s') r = Some d))
     ∨ (eligible p
        ∧ hashPrimitives s !! hashObject (attributes p, indices p, mode p) = None
        ∧ hashPrimitives s'
          = <[hashObject (attributes p, indices p, mode p) := r]> (hashPrimitives s)
        ∧ encoded s' = encoded s ++ [hashObject (attributes p, indices p, mode p)])).
Proof.
  intros Hrun. unfold compressPrimitive in Hrun.
  rewrite bind_run, onGltf_run, primitiveAt_run in Hrun.
  destruct (getPrimitive (gltf s) r) as [p|] eqn:Ep; simpl in Hrun; [|discriminate].
  exists p. split; [done|].
  destruct (unsupportedMode p) eqn:Em.
  { left. split; [by left|]. destruct s. by injection Hrun as <-. }
  destruct (indices p) as [indicesId|] eqn:Ei.
  2:{ left. split; [by right|]. destruct s. by injection Hrun as <-. }
  right. rewrite bind_modify, bind_get in Hrun. simpl in Hrun.
  destruct (hashPrimitives s !! _) as [rc|] eqn:Eh.
  - left. split; [split; [done|by rewrite Ei]|]. exists rc. split; [done|].
    apply onGltf_Return in Hrun as (Hcopy & Hc & _ & He). simpl in *.
    split; [done|]. split; [done|]. intros Hne.
    apply copyCompressed_Return in Hcopy as (_ & d & Hd & Hd'); [eauto| |done].
    by rewrite Ep.
  - right. split; [split; [done|by rewrite Ei]|]. split; [done|].
    rewrite bind_modify in Hrun.
    apply encodePrimitive_Return in Hrun as [Hc He]. simpl in *. done.
Qed.

Lemma occurrences_snoc (h x : string) (log : list string) :
  occurrences h (log ++ [x])
  = (occurrences h log + (if decide (x = h) then 1 else 0))%nat.
Proof.
  unfold occurrences. rewrite filter_app, length_app. f_equal.
  rewrite filter_cons, filter_nil. by destruct (decide (x = h)).
Qed.

(** The walk over [refs], from a state whose cache points at none of them. *)
Lemma walk_spec (options : option Options) (o : DracoOptions)
    (box : option (Vec3 * number)) (refs : list PrimitiveRef) (s s' : PassState) :
  touchesOnlyItsPrimitive replaceWithDecompressedPrimitive →
  NoDup refs →
  (∀ h rc, hashPrimitives s !! h = Some rc → rc ∉ refs) →
  forEach refs (compressPrimitive options o box) s = (Return tt, s') →
  (∀ h rc, hashPrimitives s !! h = Some rc → hashPrimitives s' !! h = Some rc)
  ∧ (∀ r, r ∉ refs → getPrimitive (gltf s') r = getPrimitive (gltf s) r)
  ∧ (∀ r p, r ∈ refs → getPrimitive (gltf s) r = Some p → eligible p →
       ∃ rc, hashPrimitives s' !! hashObject (attributes p, indices p, mode p) = Some rc
             ∧ dracoExtensionAt (gltf s') r = dracoExtensionAt (gltf s') rc
             ∧ (rc ≠ r → is_Some (dracoExtensionAt (gltf s') rc)))
  ∧ (∀ h, (occurrences h (encoded s')
           + match hashPrimitives s !! h with Some _ => 1 | None => 0 end
           = occurrences h (encoded s)
             + match hashPrimitives s' !! h with Some _ => 1 | None => 0 end)%nat).
Proof.
  intros Hh. revert s.
  induction refs as [|r refs IH]; intros s Hnd Hfresh Hrun.
  { simpl in Hrun. injection Hrun as <-. repeat split; try done.
    intros r p Hr. by apply elem_of_nil in Hr. }
  apply NoDup_cons in Hnd as [Hr Hnd].
  simpl in Hrun. apply bind_Return in Hrun as ([] & s1 & H1 & Hrun).
  pose proof (compressPrimitive_sameOthers options o box r s Hh) as Hso.
  rewrite H1 in Hso. simpl in Hso.
  apply compressPrimitive_Return in H1 as (p & Hp & Hcase).
  assert (Hfresh1 : ∀ h rc, hashPrimitives s1 !! h = Some rc → rc ∉ refs).
  { intros h rc Hrc.
    destruct Hcase as [[_ ->]|[(_ & rc' & _ & Hc & _)|(_ & _ & Hc & _)]].
    - specialize (Hfresh h rc Hrc). by apply not_elem_of_cons in Hfresh as [_ ?].
    - rewrite Hc in Hrc. specialize (Hfresh h rc Hrc).
      by apply not_elem_of_cons in Hfresh as [_ ?].
    - rewrite Hc in Hrc. apply lookup_insert_Some in Hrc as [[_ <-]|[_ Hrc]]; [done|].
      specialize (Hfresh h rc Hrc). by apply not_elem_of_cons in Hfresh as [_ ?]. }
  destruct (IH s1 Hnd Hfresh1 Hrun) as (E1 & E2 & E3 & E5).
  assert (Hmono : ∀ h rc, hashPrimitives s !! h = Some rc →
                          hashPrimitives s1 !! h = Some rc).
  { intros h rc Hrc.
    destruct Hcase as [[_ ->]|[(_ & rc' & _ & Hc & _)|(_ & Hnone & Hc & _)]];
      [done|by rewrite Hc|].
    rewrite Hc. rewrite lookup_insert_ne; [done|]. intros <-. congruence. }
  split; [intros h rc Hrc; by apply E1, Hmono|].
  split.
  { intros r0 Hr0. apply not_elem_of_cons in Hr0 as [Hne Hr0].
    rewrite (E2 r0 Hr0). by apply Hso. }
  split.
  { intros r0 p0 Hr0 Hp0 Hel. apply elem_of_cons in Hr0 as [->|Hr0].
    - rewrite Hp in Hp0. injection Hp0 as <-.
      destruct Hcase as [[Hskip _]|[(_ & rc & Hrc & Hc & _ & Hd)|(_ & _ & Hc & _)]].
      + exfalso. destruct Hel as [Hm [i Hi]]. destruct Hskip; congruence.
      + specialize (Hfresh _ _ Hrc). apply not_elem_of_cons in Hfresh as [Hne Hrc'].
        destruct (Hd Hne) as (d & Hd0 & Hd1).
        exists rc. split; [apply E1; by rewrite Hc|].
        unfold dracoExtensionAt in *.
        rewrite (E2 r Hr), (E2 rc Hrc'), (Hso rc Hne), Hd0, Hd1. eauto.
      + exists r. split; [apply E1; rewrite Hc; apply lookup_insert_eq|].
        split; [done|]. intros Hne. done.
    - assert (Hne : r0 ≠ r) by (intros ->; done).
      apply (E3 r0 p0 Hr0); [|done]. by rewrite (Hso r0 Hne). }
  intros h. specialize (E5 h).
  destruct Hcase as [[_ ->]|[(_ & rc & _ & Hc & He & _)|(_ & Hnone & Hc & He)]].
  - done.
  - by rewrite Hc, He in E5.
  - rewrite Hc, He, occurrences_snoc in E5.
    destruct (decide (hashObject (attributes p, indices p, mode p) = h)) as [<-|Hne].
    + rewrite lookup_insert_eq in E5. rewrite Hnone. lia.
    + rewrite lookup_insert_ne in E5 by done. lia.
Qed.

Lemma forEach_app {S A} (l1 l2 : list A) (h : A → M S unit) (s : S) :
  forEach (l1 ++ l2) h s = bind (forEach l1 h) (fun _ => forEach l2 h) s.
Proof.
  revert s. induction l1 as [|x l1 IH]; intros s; simpl; [done|].
  rewrite !bind_run. destruct (h x s) as [[[]|e] s1]; [|done].
  rewrite IH. by rewrite bind_run.
Qed.

Lemma primitiveRefsFrom_first (ms : list Mesh) (mi : nat) (r : PrimitiveRef) :
  r ∈ primitiveRefsFrom mi ms → (mi ≤ r.1)%nat.
Proof.
  revert mi. induction ms as [|m ms IH]; intros mi; simpl.
  - intros Hr. by apply elem_of_nil in Hr.
  - intros [Hr|Hr]%elem_of_app.
    + unfold meshRefs in Hr. apply list_elem_of_fmap in Hr as (pi & -> & _). done.
    + apply IH in Hr. lia.
Qed.

Lemma primitiveRefsFrom_NoDup (ms : list Mesh) (mi : nat) :
  NoDup (primitiveRefsFrom mi ms).
Proof.
  revert mi. induction ms as [|m ms IH]; intros mi; simpl; [constructor|].
  apply NoDup_app. split; [|split; [|apply IH]].
  - unfold meshRefs. apply NoDup_fmap_2; [|apply NoDup_seq].
    intros x y [= ->]. done.
  - intros r Hr Hr'. apply primitiveRefsFrom_first in Hr'.
    unfold meshRefs in Hr. apply list_elem_of_fmap in Hr as (pi & -> & _).
    simpl in Hr'. lia.
Qed.

Lemma primitiveRefsFrom_elem (ms : list Mesh) (mi k pi : nat) (m : Mesh) (p : Primitive) :
  ms !! k = Some m → primitives m !! pi = Some p →
  ((mi + k)%nat, pi) ∈ primitiveRefsFrom mi ms.
Proof.
  revert mi k. induction ms as [|m0 ms IH]; intros mi k Hm Hp; [done|].
  simpl. apply elem_of_app. destruct k as [|k]; simpl in Hm.
  - left. injection Hm as ->. unfold meshRefs. apply list_elem_of_fmap.
    exists pi. split; [f_equal; lia|]. apply elem_of_seq.
    apply lookup_lt_Some in Hp. lia.
  - right. replace (mi + S k)%nat with (S mi + k)%nat by lia. by apply IH.
Qed.

Lemma getPrimitive_primitiveRefs (g : Gltf) (r : PrimitiveRef) (p : Primitive) :
  getPrimitive g r = Some p → r ∈ primitiveRefs g.
Proof.
  unfold getPrimitive, primitiveRefs. destruct r as [mi pi]; simpl.
  destruct (meshes g !! mi) as [m|] eqn:Em; [|done]. intros Hp.
  exact (primitiveRefsFrom_elem (meshes g) 0 mi pi m p Em Hp).
Qed.

(** A walk that returns normally is the walk over the flat list of
    references. *)
Lemma compressMeshesFrom_flat (options : option Options) (o : DracoOptions)
    (box : option (Vec3 * number)) (ms : list Mesh) (mi : nat) (s s' : PassState) :
  compressMeshesFrom options o box mi ms s = (Return tt, s') →
  forEach (primitiveRefsFrom mi ms) (compressPrimitive options o box) s
  = (Return tt, s').
Proof.
  revert mi s. induction ms as [|m ms IH]; intros mi s Hrun; simpl in *; [done|].
  apply bind_Return in Hrun as ([] & s1 & H1 & Hrun).
  unfold compressMesh in H1. apply bind_Return in H1 as ([] & s2 & H2 & H3).
  assert (s2 = s1) as ->.
  { unfold meshObjDump in H3. destruct options as [[[d|]]|]; try discriminate.
    by injection H3. }
  rewrite forEach_app, bind_run, H2. by apply IH.
Qed.

(** C3.  Two distinct primitives that the compress pass takes up and whose
    attributes, indices and mode are identical carry, at the end of a mesh
    walk that returns normally, extension records with the same bufferView
    and the same semantic-to-attribute-id mapping, and the encoder has been
    run exactly once for their common fingerprint. *)
Theorem C3_identical_primitives_share_one_encoding (options : option Options)
    (o : DracoOptions) (box : option (Vec3 * number)) (g : Gltf) (s' : PassState)
    (r1 r2 : PrimitiveRef) (p1 p2 : Primitive) :
  touchesOnlyItsPrimitive replaceWithDecompressedPrimitive →
  compressMeshes options o box (initialState g) = (Return tt, s') →
  r1 ≠ r2 →
  getPrimitive g r1 = Some p1 → getPrimitive g r2 = Some p2 →
  eligible p1 →
  attributes p1 = attributes p2 → indices p1 = indices p2 → mode p1 = mode p2 →
  ∃ d1 d2,
    dracoExtensionAt (gltf s') r1 = Some d1
    ∧ dracoExtensionAt (gltf s') r2 = Some d2
    ∧ ext_bufferView d1 = ext_bufferView d2
    ∧ ext_attributes d1 = ext_attributes d2
    ∧ occurrences (hashObject (attributes p1, indices p1, mode p1)) (encoded s') = 1.
Proof.
  intros Hh Hrun Hne Hp1 Hp2 He1 Ea Ei Em.
  assert (He2 : eligible p2).
  { destruct He1 as [Hm Hi]. split; [|by rewrite <- Ei].
    unfold unsupportedMode in *. by rewrite <- Em. }
  unfold compressMeshes in Hrun. rewrite bind_get in Hrun.
  apply compressMeshesFrom_flat in Hrun.
  assert (Hfresh : ∀ h rc, hashPrimitives (initialState g) !! h = Some rc →
                           rc ∉ primitiveRefsFrom 0 (meshes (gltf (initialState g)))).
  { intros h rc Hrc. simpl in Hrc. by rewrite lookup_empty in Hrc. }
  destruct (walk_spec options o box _ _ _ Hh (primitiveRefsFrom_NoDup _ 0) Hfresh Hrun)
    as (_ & _ & E3 & E5).
  destruct (E3 r1 p1 (getPrimitive_primitiveRefs _ _ _ Hp1) Hp1 He1)
    as (rc & Hc1 & Hx1 & Hs1).
  destruct (E3 r2 p2 (getPrimitive_primitiveRefs _ _ _ Hp2) Hp2 He2)
    as (rc' & Hc2 & Hx2 & Hs2).
  rewrite <- Ea, <- Ei, <- Em, Hc1 in Hc2. injection Hc2 as <-.
  assert (Hsome : is_Some (dracoExtensionAt (gltf s') rc)).
  { destruct (decide (rc = r1)) as [->|Hn]; [apply Hs2; congruence|by apply Hs1]. }
  destruct Hsome as [d Hd]. exists d, d.
  split; [congruence|]. split; [congruence|]. split; [done|]. split; [done|].
  specialize (E5 (hashObject (attributes p1, indices p1, mode p1))).
  simpl in E5. rewrite lookup_empty, Hc1 in E5. simpl in E5. lia.
Qed.

End Deduplication.

Lemma C3_witness_twin_triangles :
  ∃ d1 d2,
    dracoExtensionAt
      (CompressDracoMeshes.gltf
         (CompressDracoMeshes.compressMeshes (collaborators := Samples.countingEncoder)
            (Some Samples.defaultOptions) CompressDracoMeshes.defaults None
            (CompressDracoMeshes.initialState Samples.mixedAsset)).2) (0, 0) = Some d1
    ∧ dracoExtensionAt
        (CompressDracoMeshes.gltf
           (CompressDracoMeshes.compressMeshes (collaborators := Samples.countingEncoder)
              (Some Samples.defaultOptions) CompressDracoMeshes.defaults None
              (CompressDracoMeshes.initialState Samples.mixedAsset)).2) (0, 2) = Some d2
    ∧ ext_bufferView d1 = ext_bufferView d2
    ∧ ext_attributes d1 = ext_attributes d2
    ∧ occurrences "iPOSITION"
        (CompressDracoMeshes.encoded
           (CompressDracoMeshes.compressMeshes (collaborators := Samples.countingEncoder)
              (Some Samples.defaultOptions) CompressDracoMeshes.defaults None
              (CompressDracoMeshes.initialState Samples.mixedAsset)).2) = 1.
Proof.
  apply (@C3_identical_primitives_share_one_encoding Samples.countingEncoder
           (Some Samples.defaultOptions) CompressDracoMeshes.defaults None
           Samples.mixedAsset _ (0, 0) (0, 2) Samples.triangle Samples.triangle).
  - intros g r n m r0 Hne. reflexivity.
  - vm_compute. reflexivity.
  - discriminate.
  - reflexivity.
  - reflexivity.
  - split; [reflexivity|]. exists 0. reflexivity.
  - reflexivity.
  - reflexivity.
  - reflexivity.
Defined.

Section Attaching.
Import CompressDracoMeshes.
Context {collaborators : Collaborators}.

Lemma assignKey_middle {V} (done rest : object V) (k : string) (v v' : V) :
  k ∉ keys done →
  assignKey (done ++ (k, v) :: rest) k v' = done ++ (k, v') :: rest.
Proof.
  induction done as [|[k0 v0] done IH]; simpl; intros Hk.
  - by rewrite String.eqb_refl.
  - apply not_elem_of_cons in Hk as [Hne Hk].
    destruct (String.eqb_spec k0 k) as [->|_]; [done|]. by rewrite IH.
Qed.

Lemma accessors_setPrimitive (g : Gltf) (r : PrimitiveRef) (p : Primitive) :
  accessors (setPrimitive g r p) = accessors g
  ∧ bufferViews (setPrimitive g r p) = bufferViews g
  ∧ buffers (setPrimitive g r p) = buffers g.
Proof. unfold setPrimitive. by destruct (meshes g !! r.1). Qed.

Lemma getPrimitive_meshes (g g' : Gltf) (r : PrimitiveRef) :
  meshes g' = meshes g → getPrimitive g' r = getPrimitive g r.
Proof. intros E. unfold getPrimitive. by rewrite E. Qed.

(** The loop of lines 440-445, from the entries [rest] on. *)
Lemma strip_loop (r : PrimitiveRef) (rest done : object nat) (g g' : Gltf)
    (q : Primitive) :
  getPrimitive g r = Some q →
  attributes q = done ++ rest →
  NoDup (keys (done ++ rest)) →
  forEach rest (fun '(semantic, accessorId) =>
      newId <- pushStrippedClone accessorId ;;
      modifyPrimitive r
        (fun p => set_attributes p (assignKey (attributes p) semantic newId))) g
  = (Return tt, g') →
  ∃ news, getPrimitive g' r = Some (set_attributes q (done ++ news))
          ∧ accessors g `prefix_of` accessors g'
          ∧ bufferViews g' = bufferViews g
          ∧ buffers g' = buffers g
          ∧ Forall2 (restripped g g') rest news.
Proof.
  revert done g q. induction rest as [|[semantic id] rest IH];
    intros done g q Hq Hattrs Hnd Hrun.
  { simpl in Hrun. injection Hrun as <-. exists []. rewrite app_nil_r in *.
    split; [rewrite Hq; f_equal; destruct q; simpl in *; by subst|].
    repeat split; first [done|constructor]. }
  simpl in Hrun. apply bind_Return in Hrun as ([] & g2 & Hstep & Hrun).
  apply bind_Return in Hstep as (newId & g1 & Hpush & Hmod).
  rewrite pushStrippedClone_run in Hpush.
  destruct (accessors g !! id) as [a0|] eqn:Ea0; [|discriminate].
  injection Hpush as <- <-.
  rewrite modifyPrimitive_run in Hmod.
  rewrite (getPrimitive_meshes g (set_accessors g _) r eq_refl), Hq in Hmod.
  injection Hmod as <-.
  assert (Hk : semantic ∉ keys done).
  { unfold keys in *. rewrite fmap_app in Hnd. apply NoDup_app in Hnd as (_ & Hd & _).
    intros Hin. apply (Hd _ Hin). simpl. left. }
  rewrite Hattrs, (assignKey_middle _ _ _ _ _ Hk) in Hrun.
  set (g1 := set_accessors g (accessors g ++ [withoutBufferView a0])) in *.
  set (q2 := set_attributes q (done ++ (semantic, length (accessors g)) :: rest)) in *.
  assert (Hq2 : getPrimitive (setPrimitive g1 r q2) r = Some q2).
  { apply (getPrimitive_setPrimitive_eq _ _ q).
    by rewrite (getPrimitive_meshes g g1 r eq_refl). }
  destruct (IH (done ++ [(semantic, length (accessors g))]) _ q2 Hq2)
    as (news & Hq' & Hpre & Hbv & Hbuf & Hall); [| |exact Hrun|].
  { subst q2. simpl. by rewrite <- app_assoc. }
  { unfold keys in *. rewrite <- app_assoc. simpl.
    rewrite fmap_app in *. simpl in *. done. }
  destruct (accessors_setPrimitive g1 r q2) as (Eacc & Ebv & Ebuf).
  exists ((semantic, length (accessors g)) :: news).
  split; [rewrite Hq'; subst q2; simpl; unfold set_attributes; simpl;
          by rewrite <- app_assoc|].
  assert (Hpre1 : accessors g `prefix_of` accessors g').
  { etrans; [|exact Hpre]. rewrite Eacc. subst g1. simpl. by apply prefix_app_r. }
  split; [done|]. split; [by rewrite Hbv, Ebv|]. split; [by rewrite Hbuf, Ebuf|].
  constructor.
  - split; [done|]. simpl. intros a Ha. rewrite Ea0 in Ha. injection Ha as <-.
    eapply prefix_lookup_Some; [|exact Hpre]. rewrite Eacc. subst g1. simpl.
    rewrite lookup_app_r by done. by rewrite Nat.sub_diag.
  - eapply Forall2_impl; [exact Hall|]. intros [s0 i0] [s1 i1] [Hs Hi].
    split; [done|]. simpl in *. intros a Ha. apply Hi. rewrite Eacc. subst g1. simpl.
    by apply lookup_app_l_Some.
Qed.

Lemma lookupKey_restripped (g g' : Gltf) (l news : object nat)
    (semantic : string) (id : nat) :
  Forall2 (restripped g g') l news → lookupKey l semantic = Some id →
  ∃ id', lookupKey news semantic = Some id'
         ∧ ∀ a, accessors g !! id = Some a →
                accessors g' !! id' = Some (withoutBufferView a).
Proof.
  induction 1 as [|[s i] [s' i'] l news [Hs Hi] Hall IH]; simpl; [done|].
  simpl in Hs, Hi. subst s'.
  destruct (String.eqb_spec s semantic) as [_|_]; [intros [= <-]; eauto|apply IH].
Qed.

Lemma keys_restripped (g g' : Gltf) (l news : object nat) :
  Forall2 (restripped g g') l news → keys news = keys l.
Proof.
  induction 1 as [|[s i] [s' i'] l news [Hs Hi] Hall IH]; simpl; [done|].
  simpl in Hs. by rewrite Hs, IH.
Qed.

Lemma strippedCloneOf_withoutBufferView (a : Accessor) :
  strippedCloneOf a (withoutBufferView a).
Proof. by repeat split. Qed.

(** What [addCompressionExtensionToPrimitive] has built when it reaches its
    last statement (line 469), for a payload as long as [encodedLength]
    says: the asset [g1], which it hands to
    [replaceWithDecompressedPrimitive]. *)
Lemma addCompressionExtensionToPrimitive_Return (r : PrimitiveRef)
    (attributeToId : object Z) (encodedLength : Z) (encodedData : list Z)
    (encodedPointsCount encodedFacesCount : Z) (g g' : Gltf) (p : Primitive) :
  getPrimitive g r = Some p →
  NoDup (keys (attributes p)) →
  addCompressionExtensionToPrimitive r attributeToId encodedLength encodedData
    encodedPointsCount encodedFacesCount g = (Return tt, g') →
  ∃ g1 p' d,
    g' = replaceWithDecompressedPrimitive g1 r encodedPointsCount encodedFacesCount
    ∧ getPrimitive g1 r = Some p'
    ∧ (∀ i a, indices p = Some i → accessors g !! i = Some a →
         ∃ i' a', indices p' = Some i' ∧ accessors g1 !! i' = Some a'
                  ∧ strippedCloneOf a a')
    ∧ keys (attributes p') = keys (attributes p)
    ∧ (∀ semantic id a,
         lookupKey (attributes p) semantic = Some id → accessors g !! id = Some a →
         ∃ id' a', lookupKey (attributes p') semantic = Some id'
                   ∧ accessors g1 !! id' = Some a' ∧ strippedCloneOf a a')
    ∧ mode p' = mode p
    ∧ dracoExtensionOf p' = Some d
    ∧ d = mkDracoExtension (length (bufferViews g)) attributeToId
    ∧ bufferViews g1
      = bufferViews g ++ [mkBufferView (length (buffers g)) 0 encodedLength]
    ∧ buffers g1 = buffers g ++ [mkBuffer encodedLength encodedData].
Proof.
  intros Hp Hnd Hrun.
  unfold addCompressionExtensionToPrimitive in Hrun.
  rewrite bind_run, primitiveAt_run, Hp in Hrun.
  destruct (indices p) as [i|] eqn:Ei; [|discriminate].
  apply bind_Return in Hrun as (newIndices & g1 & Hpush & Hrun).
  rewrite pushStrippedClone_run in Hpush.
  destruct (accessors g !! i) as [ai|] eqn:Eai; [|discriminate].
  injection Hpush as <- <-.
  rewrite bind_run, modifyPrimitive_run in Hrun.
  rewrite (getPrimitive_meshes g (set_accessors g _) r eq_refl), Hp in Hrun.
  set (g1 := set_accessors g (accessors g ++ [withoutBufferView ai])) in *.
  set (q := set_indices p (Some (length (accessors g)))) in *.
  assert (Hq : getPrimitive (setPrimitive g1 r q) r = Some q).
  { apply (getPrimitive_setPrimitive_eq _ _ p).
    by rewrite (getPrimitive_meshes g g1 r eq_refl). }
  destruct (accessors_setPrimitive g1 r q) as (Eacc & Ebv & Ebuf).
  apply bind_Return in Hrun as ([] & g3 & Hloop & Hrun).
  apply (strip_loop r (attributes p) [] _ _ q Hq eq_refl Hnd) in Hloop
    as (news & Hq3 & Hpre & Hbv3 & Hbuf3 & Hall).
  simpl in Hq3.
  rewrite bind_get in Hrun. unfold addToArray in Hrun. rewrite bind_put in Hrun.
  rewrite bind_run, modifyPrimitive_run in Hrun.
  set (g4 := set_bufferViews (set_buffers g3 _) _) in *.
  rewrite (getPrimitive_meshes g3 g4 r eq_refl), Hq3 in Hrun.
  unfold modify in Hrun. injection Hrun as <-.
  assert (Ebvs : bufferViews g3 = bufferViews g) by (by rewrite Hbv3, Ebv).
  assert (Ebufs : buffers g3 = buffers g) by (by rewrite Hbuf3, Ebuf).
  set (d := mkDracoExtension (length (bufferViews g3)) attributeToId) in *.
  set (p' := set_dracoExtension (set_attributes q news) d) in *.
  destruct (accessors_setPrimitive g4 r p') as (Eacc4 & Ebv4 & Ebuf4).
  assert (Hpre' : accessors g1 `prefix_of` accessors g3) by (by rewrite <- Eacc).
  exists (setPrimitive g4 r p'), p', d.
  split; [done|]. split.
  { apply (getPrimitive_setPrimitive_eq _ _ (set_attributes q news)).
    by rewrite (getPrimitive_meshes g3 g4 r eq_refl). }
  split.
  { intros i0 a [= <-] Ha0. rewrite Eai in Ha0. injection Ha0 as <-.
    exists (length (accessors g)), (withoutBufferView ai).
    split; [done|]. split; [|apply strippedCloneOf_withoutBufferView].
    rewrite Eacc4. subst g4. simpl.
    eapply prefix_lookup_Some; [|exact Hpre']. subst g1. simpl.
    rewrite lookup_app_r by done. by rewrite Nat.sub_diag. }
  split; [subst p'; simpl; by eapply keys_restripped|].
  split.
  { intros semantic id a Hl Ha0.
    destruct (lookupKey_restripped _ _ _ _ _ _ Hall Hl) as (id' & Hl' & Hid').
    exists id', (withoutBufferView a).
    split; [done|]. split; [|apply strippedCloneOf_withoutBufferView].
    rewrite Eacc4. subst g4. simpl. apply Hid'. rewrite Eacc. subst g1. simpl.
    by apply lookup_app_l_Some. }
  split; [done|]. split; [done|].
  split; [subst d; by rewrite Ebvs|].
  split; [rewrite Ebv4; subst g4; simpl; by rewrite Ebvs, Ebufs|].
  rewrite Ebuf4. subst g4. simpl. by rewrite Ebufs.
Qed.

(** The payload the callback hands over is as long as the codec said. *)
Lemma encodedDataOf_length (e : EncodedMesh) :
  (0 < encodedLength e)%Z →
  Z.of_nat (length (encodedDataOf e)) = encodedLength e.
Proof.
  intros Hpos. unfold encodedDataOf. rewrite length_map, length_seq. lia.
Qed.


End Attaching.


(** ** Decompression *)

Section DecompressFrames.
Import DecompressDracoMeshes.
Context {collaborators : Collaborators}.

Lemma addBufferToGltf_run (buffer : list Z) (g : Gltf) :
  addBufferToGltf buffer g
  = (Return (length (bufferViews g)),
     set_bufferViews
       (set_buffers g (buffers g ++ [mkBuffer (Z.of_nat (length buffer)) buffer]))
       (bufferViews g
          ++ [mkBufferView (length (buffers g)) 0 (Z.of_nat (length buffer))])).
Proof. reflexivity. Qed.

Lemma modifyAccessor_run (id : nat) (f : Accessor → Accessor) (g : Gltf) :
  modifyAccessor id f g
  = (Return tt, match accessors g !! id with
                | Some a => set_accessors g (<[id := f a]> (accessors g))
                | None => g
                end).
Proof. reflexivity. Qed.

Lemma modifyAccessor_meshes (id : nat) (f : Accessor → Accessor) (g : Gltf) :
  meshes (modifyAccessor id f g).2 = meshes g.
Proof. rewrite modifyAccessor_run. simpl. by destruct (accessors g !! id). Qed.

Lemma decodeAttribute_meshes (r : PrimitiveRef) (dracoGeometry : DracoGeometry)
    (numPoints : nat) (entry : string * Z) (g0 g : Gltf) :
  meshes g = meshes g0 →
  meshes (decodeAttribute r dracoGeometry numPoints entry g).2 = meshes g0.
Proof.
  intros Hm. destruct entry as [semantic uniqueId]. unfold decodeAttribute.
  destruct (GetAttributeByUniqueId dracoGeometry uniqueId) as [attribute|]; [|done].
  rewrite bind_run, addBufferToGltf_run, bind_run, primitiveAt_run.
  set (g1 := set_bufferViews _ _).
  destruct (getPrimitive g1 r) as [p|]; [|done].
  rewrite bind_get.
  destruct (lookupKey (attributes p) semantic) as [gltfAttributeId|]; [|done].
  destruct (accessors g1 !! gltfAttributeId); [|done].
  by rewrite modifyAccessor_meshes.
Qed.

Lemma decmopressDracoMesh_meshes (r : PrimitiveRef) (geometryType : Z)
    (dracoBuffer : list Z * Z) (dracoExtension : DracoExtension) (g : Gltf) :
  meshes (decmopressDracoMesh r geometryType dracoBuffer dracoExtension g).2 = meshes g.
Proof.
  unfold decmopressDracoMesh. cbv zeta.
  destruct (_ || _); [done|]. destruct (_ =? -1)%Z; [done|].
  rewrite bind_run, primitiveAt_run.
  destruct (getPrimitive g r) as [p|]; [|done].
  rewrite bind_get.
  destruct (indices p ≫= _) as [[indicesId indicesAccessor]|]; [|done].
  rewrite bind_run, addBufferToGltf_run.
  apply (bind_invariant (fun g' => meshes g' = meshes g)); [| |done].
  - intros s Hs. by rewrite modifyAccessor_meshes.
  - intros _ s Hs. apply (forEach_invariant (fun g' => meshes g' = meshes g)); [|done].
    intros entry s1 _ Hs1. by apply decodeAttribute_meshes.
Qed.

Lemma decompressPrimitive_sameOthers (r : PrimitiveRef) (g : Gltf) :
  sameOthers r g (decompressPrimitive r g).2.
Proof.
  unfold decompressPrimitive. rewrite bind_run, primitiveAt_run.
  destruct (getPrimitive g r) as [p|]; [|apply sameOthers_refl].
  destruct (match mode p with Some m => _ | None => _ end); [apply sameOthers_refl|].
  destruct (dracoExtensionOf p) as [dracoExtension|]; [|apply sameOthers_refl].
  rewrite bind_get.
  destruct (bufferViews g !! _) as [bufferView|]; [|apply sameOthers_refl].
  destruct (buffers g !! _) as [buffer|]; [|apply sameOthers_refl].
  apply (bind_invariant (sameOthers r g)); [| |apply sameOthers_refl].
  - intros s Hs. eapply sameOthers_trans; [exact Hs|].
    apply sameOthers_meshes, decmopressDracoMesh_meshes.
  - intros _ s Hs. apply (bind_invariant (sameOthers r g)); [| |done].
    + intros s1. apply modifyPrimitive_sameOthers.
    + intros _ s1 Hs1. unfold modify. simpl.
      eapply sameOthers_trans; [exact Hs1|]. by apply sameOthers_meshes.
Qed.

(** The callback returns at once on a primitive of another mode. *)
Lemma decompressPrimitive_other_mode (r : PrimitiveRef) (p : Primitive) (m : Z)
    (g : Gltf) :
  getPrimitive g r = Some p → mode p = Some m → m ≠ 4%Z →
  decompressPrimitive r g = (Return tt, g).
Proof.
  intros Hp Hm Hne. unfold decompressPrimitive.
  rewrite bind_run, primitiveAt_run, Hp, Hm.
  by destruct (Z.eqb_spec m 4).
Qed.

(** C10.  On a primitive whose mode is defined and is not 4 the callback of
    the decompress pass returns at once with the asset untouched (nothing is
    decoded, no extension record is removed), even when the primitive carries
    a [KHR_draco_mesh_compression] record; and at the end of the mesh walk,
    however it ends, that primitive is still the one it was. *)
Theorem C10_decompress_leaves_other_modes (g : Gltf) (r0 : PrimitiveRef)
    (p0 : Primitive) (m : Z) :
  getPrimitive g r0 = Some p0 → mode p0 = Some m → m ≠ 4%Z →
  decompressPrimitive r0 g = (Return tt, g)
  ∧ getPrimitive (decompressMeshes g).2 r0 = Some p0.
Proof.
  intros Hp0 Hm Hne.
  split; [by eapply decompressPrimitive_other_mode|].
  unfold decompressMeshes. rewrite bind_get.
  apply (forEach_invariant (fun g' => getPrimitive g' r0 = Some p0)); [|done].
  intros r s _ Hs. destruct (decide (r0 = r)) as [<-|Hr].
  - by rewrite (decompressPrimitive_other_mode r0 p0 m s Hs Hm Hne).
  - by rewrite (decompressPrimitive_sameOthers r s r0 Hr).
Qed.

End DecompressFrames.

Section Decoding.
Import DecompressDracoMeshes.
Context {collaborators : Collaborators}.


Lemma littleEndian_length (width : nat) (z : Z) : length (littleEndian width z) = width.
Proof. unfold littleEndian. by rewrite length_map, length_seq. Qed.

Lemma land_255 (z : Z) : Z.land z 255 = (z mod 256)%Z.
Proof. exact (Z.land_ones z 8 ltac:(lia)). Qed.

Lemma littleEndian_bytes (width : nat) (z : Z) :
  Forall (fun b => 0 ≤ b < 256)%Z (littleEndian width z).
Proof.
  unfold littleEndian. apply Forall_fmap, Forall_forall. intros j _. simpl.
  rewrite land_255. apply Z.mod_pos_bound. lia.
Qed.

Lemma littleEndian_S (width : nat) (z : Z) :
  littleEndian (S width) z = Z.land z 255 :: littleEndian width (Z.shiftr z 8).
Proof.
  unfold littleEndian. cbn [seq map]. f_equal.
  rewrite <- seq_shift, map_map. apply map_ext. intros j.
  rewrite Z.shiftr_shiftr by lia. do 2 f_equal. lia.
Qed.

Lemma littleEndianValue_littleEndian (width : nat) (z : Z) :
  (0 ≤ z)%Z →
  littleEndianValue (littleEndian width z) = (z mod 2 ^ (8 * Z.of_nat width))%Z.
Proof.
  revert z. induction width as [|width IH]; intros z Hz.
  - simpl. by rewrite Z.mod_1_r.
  - rewrite littleEndian_S. cbn [littleEndianValue].
    rewrite IH by (apply Z.shiftr_nonneg; lia).
    rewrite land_255, Z.shiftr_div_pow2 by lia.
    replace (8 * Z.of_nat (S width))%Z with (8 + 8 * Z.of_nat width)%Z by lia.
    rewrite Z.pow_add_r by lia. change (2 ^ 8)%Z with 256%Z.
    rewrite Z.rem_mul_r by lia. reflexivity.
Qed.

Lemma chunk_flat_map (f : Z → list Z) (width : nat) (values : list Z) (i : nat) (v : Z) :
  (∀ x, length (f x) = width) → values !! i = Some v →
  take width (drop (i * width) (flat_map f values)) = f v.
Proof.
  intros Hf. revert i. induction values as [|x values IH]; intros i Hi; [done|].
  cbn [flat_map]. destruct i as [|i]; simpl in Hi.
  - injection Hi as ->. rewrite Nat.mul_0_l, drop_0. by rewrite take_app_length'.
  - cbn [Nat.mul]. rewrite drop_app_add' by done. by apply IH.
Qed.

Lemma holdsValues_bytesOf (k : TypedArrayKind) (values : list Z) :
  holdsValues (BYTES_PER_ELEMENT k) values (bytesOf k (map (pattern k) values)).
Proof.
  unfold bytesOf. rewrite flat_map_concat_map, map_map, <- flat_map_concat_map.
  split; [|split].
  - induction values as [|v vs IH]; cbn [flat_map length]; [done|].
    by rewrite length_app, littleEndian_length, IH.
  - induction values as [|v vs IH]; cbn [flat_map]; [constructor|].
    apply Forall_app. split; [apply littleEndian_bytes|done].
  - intros i v Hv.
    rewrite (chunk_flat_map _ _ _ _ _ (fun x => littleEndian_length _ _) Hv).
    unfold pattern. rewrite littleEndianValue_littleEndian.
    + by rewrite Z.mod_mod by (apply Z.pow_nonzero; lia).
    + apply Z.mod_pos_bound. apply Z.pow_pos_nonneg; lia.
Qed.


(** One turn of the attribute loop that returns normally. *)
Lemma decodeAttribute_Return (r : PrimitiveRef) (dracoGeometry : DracoGeometry)
    (numPoints : nat) (semantic : string) (uniqueId : Z) (g g' : Gltf) (p : Primitive) :
  getPrimitive g r = Some p →
  decodeAttribute r dracoGeometry numPoints (semantic, uniqueId) g = (Return tt, g') →
  ∃ attribute aid a,
    GetAttributeByUniqueId dracoGeometry uniqueId = Some attribute
    ∧ lookupKey (attributes p) semantic = Some aid
    ∧ accessors g !! aid = Some a
    ∧ accessors g' = <[aid := recount numPoints (length (bufferViews g)) a]> (accessors g)
    ∧ bufferViews g'
      = bufferViews g
        ++ [mkBufferView (length (buffers g)) 0
              (Z.of_nat (length (getAttributeBuffer dracoGeometry attribute)))]
    ∧ buffers g'
      = buffers g
        ++ [mkBuffer (Z.of_nat (length (getAttributeBuffer dracoGeometry attribute)))
              (getAttributeBuffer dracoGeometry attribute)]
    ∧ meshes g' = meshes g.
Proof.
  intros Hp Hrun. unfold decodeAttribute in Hrun.
  destruct (GetAttributeByUniqueId dracoGeometry uniqueId) as [attribute|]; [|discriminate].
  rewrite bind_run, addBufferToGltf_run, bind_run, primitiveAt_run in Hrun.
  set (g1 := set_bufferViews _ _) in *.
  rewrite (getPrimitive_meshes g g1 r eq_refl), Hp, bind_get in Hrun.
  destruct (lookupKey (attributes p) semantic) as [aid|]; [|discriminate].
  destruct (accessors g1 !! aid) as [a|] eqn:Ea; [|discriminate].
  rewrite modifyAccessor_run, Ea in Hrun. injection Hrun as <-.
  exists attribute, aid, a. done.
Qed.

(** The attribute loop of lines 291-307 over [entries]. *)
Lemma decode_loop (r : PrimitiveRef) (dracoGeometry : DracoGeometry) (numPoints : nat)
    (p : Primitive) (entries : object Z) (g g' : Gltf) :
  getPrimitive g r = Some p →
  forEach entries (decodeAttribute r dracoGeometry numPoints) g = (Return tt, g') →
  bufferViews g `prefix_of` bufferViews g'
  ∧ buffers g `prefix_of` buffers g'
  ∧ (∀ aid, (∀ semantic, semantic ∈ keys entries →
                         lookupKey (attributes p) semantic ≠ Some aid) →
            accessors g' !! aid = accessors g !! aid)
  ∧ (∀ semantic uniqueId aid attribute,
       NoDup (keys entries) →
       lookupKey entries semantic = Some uniqueId →
       lookupKey (attributes p) semantic = Some aid →
       (∀ semantic', semantic' ∈ keys entries → semantic' ≠ semantic →
                     lookupKey (attributes p) semantic' ≠ Some aid) →
       GetAttributeByUniqueId dracoGeometry uniqueId = Some attribute →
       ∃ a bvid bufid,
         accessors g' !! aid = Some (recount numPoints bvid a)
         ∧ (length (bufferViews g) ≤ bvid)%nat
         ∧ (length (buffers g) ≤ bufid)%nat
         ∧ bufferViews g' !! bvid
           = Some (mkBufferView bufid 0
                     (Z.of_nat (length (getAttributeBuffer dracoGeometry attribute))))
         ∧ buffers g' !! bufid
           = Some (mkBuffer (Z.of_nat (length (getAttributeBuffer dracoGeometry attribute)))
                     (getAttributeBuffer dracoGeometry attribute))).
Proof.
  revert g. induction entries as [|[s0 uid0] entries IH]; intros g Hp Hrun.
  { simpl in Hrun. injection Hrun as <-. repeat split; try done. }
  simpl in Hrun. apply bind_Return in Hrun as ([] & g2 & Hstep & Hrun).
  destruct (decodeAttribute_Return _ _ _ _ _ _ _ _ Hp Hstep)
    as (att0 & aid0 & a0 & Hatt0 & Hl0 & Ha0 & Eacc & Ebv & Ebuf & Em).
  assert (Hp2 : getPrimitive g2 r = Some p)
    by (by rewrite (getPrimitive_meshes g g2 r Em)).
  destruct (IH g2 Hp2 Hrun) as (Pbv & Pbuf & Hkeep & Hthis).
  assert (Pbv0 : bufferViews g `prefix_of` bufferViews g').
  { etrans; [|exact Pbv]. rewrite Ebv. by apply prefix_app_r. }
  assert (Pbuf0 : buffers g `prefix_of` buffers g').
  { etrans; [|exact Pbuf]. rewrite Ebuf. by apply prefix_app_r. }
  split; [done|]. split; [done|]. split.
  { intros aid Hnone. rewrite Hkeep.
    - rewrite Eacc. apply list_lookup_insert_ne. intros <-.
      apply (Hnone s0); [left|done].
    - intros semantic Hin. apply Hnone. by right. }
  intros semantic uniqueId aid attribute Hnd Hl Hlp Hothers Hatt.
  simpl in Hnd. apply NoDup_cons in Hnd as [Hs0 Hnd].
  simpl in Hl. destruct (String.eqb_spec s0 semantic) as [->|Hne].
  - injection Hl as <-. rewrite Hatt0 in Hatt. injection Hatt as <-.
    rewrite Hl0 in Hlp. injection Hlp as <-.
    exists a0, (length (bufferViews g)), (length (buffers g)).
    split.
    { rewrite Hkeep.
      - rewrite Eacc. apply list_lookup_insert_eq. by eapply lookup_lt_Some.
      - intros semantic' Hin. apply Hothers; [by right|]. intros ->. done. }
    split; [done|]. split; [done|]. split.
    + eapply prefix_lookup_Some; [|exact Pbv]. rewrite Ebv.
      rewrite lookup_app_r by done. by rewrite Nat.sub_diag.
    + eapply prefix_lookup_Some; [|exact Pbuf]. rewrite Ebuf.
      rewrite lookup_app_r by done. by rewrite Nat.sub_diag.
  - destruct (Hthis semantic uniqueId aid attribute Hnd Hl Hlp) as (a & bvid & bufid & H1 & H2 & H3 & H4 & H5);
      [intros semantic' Hin; apply Hothers; by right|done|].
    exists a, bvid, bufid. split; [done|].
    rewrite Ebv, length_app in H2. rewrite Ebuf, length_app in H3. simpl in *.
    repeat split; try done; lia.
Qed.


End Decoding.

Lemma C10_witness_compressed_lines :
  DecompressDracoMeshes.decompressPrimitive (collaborators := Samples.fixedDecoder)
    (0, 1) Samples.compressedAsset = (Return tt, Samples.compressedAsset)
  ∧ getPrimitive
      (DecompressDracoMeshes.decompressMeshes (collaborators := Samples.fixedDecoder)
         Samples.compressedAsset).2 (0, 1)
    = Some Samples.compressedLines.
Proof.
  apply (@C10_decompress_leaves_other_modes Samples.fixedDecoder
           Samples.compressedAsset (0, 1) Samples.compressedLines 1).
  - reflexivity.
  - reflexivity.
  - discriminate.
Defined.



(** ** Animations *)

Section Animations.
Import CompressDracoAnimations.
Context {collaborators : Collaborators}.

Lemma extract_has (ea : Extracted) (i o : nat) : timelineHas (extract ea i o) i o.
Proof.
  induction ea as [|[k e] ea IH]; simpl.
  - eexists. split; [left|]. simpl. left.
  - destruct (decide (k = i)) as [->|Hne].
    + eexists. split; [left|]. simpl. apply elem_of_app. right. left.
    + destruct (decide (i < k)%nat).
      * eexists. split; [left|]. simpl. left.
      * destruct IH as (e' & Hin & Ho). exists e'. split; [by right|done].
Qed.

Lemma extract_keeps (ea : Extracted) (i o i' o' : nat) :
  timelineHas ea i' o' → timelineHas (extract ea i o) i' o'.
Proof.
  induction ea as [|[k e] ea IH]; intros (e' & Hin & Ho).
  - by apply elem_of_nil in Hin.
  - simpl. apply elem_of_cons in Hin as [Heq|Hin].
    + injection Heq as -> ->. destruct (decide (k = i)) as [->|Hne].
      * eexists. split; [left|]. simpl. apply elem_of_app. by left.
      * destruct (decide (i < k)%nat).
        -- exists e. split; [right; left|done].
        -- exists e. split; [left|done].
    + destruct (decide (k = i)) as [->|Hne].
      * exists e'. split; [by right|done].
      * destruct (decide (i < k)%nat).
        -- exists e'. split; [right; by right|done].
        -- destruct IH as (e2 & Hin2 & Ho2); [by exists e'|].
           exists e2. split; [by right|done].
Qed.

Lemma extractSamplers_Return (l : list Sampler) (ea0 ea : Extracted) (n0 n : nat) :
  extractSamplers (ea0, n0) l = Return (ea, n) →
  n = (n0 + length l)%nat
  ∧ (∀ i o, timelineHas ea0 i o → timelineHas ea i o)
  ∧ (∀ s, s ∈ l → ∃ i o, input s = Some i ∧ output s = Some o ∧ timelineHas ea i o).
Proof.
  revert ea0 n0. induction l as [|s l IH]; intros ea0 n0 Hrun; simpl in Hrun.
  - injection Hrun as <- <-. split; [simpl; lia|]. split; [done|].
    intros s Hs. by apply elem_of_nil in Hs.
  - destruct (input s) as [i|] eqn:Ei; [|discriminate].
    destruct (output s) as [o|] eqn:Eo; [|discriminate].
    destruct (interpolation s); [|discriminate].
    apply IH in Hrun as (Hn & Hkeep & Hall).
    split; [simpl; lia|]. split.
    + intros i' o' Hh. by apply Hkeep, extract_keeps.
    + intros s' [->|Hs']%elem_of_cons; [|by apply Hall].
      exists i, o. split; [done|]. split; [done|]. apply Hkeep, extract_has.
Qed.

Lemma encodeAnimation_Return (options : option Options) (entry entry' : nat * CompressedAnimation)
    (g g' : Gltf) :
  encodeAnimation options entry g = (Return entry', g') →
  entry'.1 = entry.1 ∧ ca_outputs entry'.2 = ca_outputs entry.2.
Proof.
  destruct entry as [i e]. unfold encodeAnimation.
  rewrite bind_get, bind_run. unfold lift.
  destruct (readAccessorPacked g _) as [timestampsData|]; [|discriminate].
  rewrite bind_run.
  destruct (addAllKeyframes _ _ _ _ _) as [ka|]; [|discriminate].
  destruct (_ <=? _)%Z; [discriminate|].
  rewrite bind_run.
  destruct (addCompressedAnimation _ _ g) as [[bufferViewId|] g1]; [|discriminate].
  by intros [= <- <-].
Qed.

Lemma encodeAnimations_Return (options : option Options) (ea ea' : Extracted)
    (g g' : Gltf) :
  encodeAnimations options ea g = (Return ea', g') →
  replacedIds ea' = replacedIds ea
  ∧ ∀ i o, timelineHas ea i o → timelineHas ea' i o.
Proof.
  revert ea' g. induction ea as [|entry ea IH]; intros ea' g Hrun; simpl in Hrun.
  - by injection Hrun as <- <-.
  - apply bind_Return in Hrun as (entry' & g1 & H1 & Hrun).
    apply bind_Return in Hrun as (rest' & g2 & H2 & Hrun).
    injection Hrun as <- <-.
    apply encodeAnimation_Return in H1 as [Hk Ho].
    apply IH in H2 as [Hids Hhas].
    split; [simpl; by rewrite Hk, Ho, Hids|].
    intros i o (e & Hin & Hoe). apply elem_of_cons in Hin as [Heq|Hin].
    + subst entry. simpl in Hk, Ho. exists entry'.2. split; [|by rewrite Ho].
      rewrite <- Hk. destruct entry'. left.
    + destruct (Hhas i o) as (e' & Hin' & Ho'); [by exists e|].
      exists e'. split; [by right|done].
Qed.

Lemma replaceOutputs_Return (outputs outputs' : list nat)
    (replacedAccessors replaced' : gmap nat nat) (g g' : Gltf) :
  replaceOutputs replacedAccessors outputs g = (Return (replaced', outputs'), g') →
  NoDup outputs
  ∧ (∀ o, o ∈ outputs → replacedAccessors !! o = None)
  ∧ (∀ k, is_Some (replacedAccessors !! k) ∨ k ∈ outputs → is_Some (replaced' !! k)).
Proof.
  revert outputs' replacedAccessors replaced' g.
  induction outputs as [|output rest IH];
    intros outputs' replacedAccessors replaced' g Hrun; simpl in Hrun.
  - injection Hrun as <- <- <-. split; [constructor|]. split.
    + intros o Ho. by apply elem_of_nil in Ho.
    + intros k [Hk|Hk]; [done|by apply elem_of_nil in Hk].
  - destruct (replacedAccessors !! output) eqn:Eo; [discriminate|].
    apply bind_Return in Hrun as (newAccessorId & g1 & _ & Hrun).
    apply bind_Return in Hrun as ([r1 r2] & g2 & Hrest & Hrun).
    injection Hrun as <- <- <-.
    apply IH in Hrest as (Hnd & Hnone & Hsome).
    split.
    { constructor; [|done]. intros Hin. specialize (Hnone _ Hin).
      by rewrite lookup_insert_eq in Hnone. }
    split.
    { intros o [->|Ho]%elem_of_cons; [done|]. specialize (Hnone _ Ho).
      apply lookup_insert_None in Hnone as [Hnone _]. done. }
    intros k [Hk|Hk].
    + apply Hsome. left. destruct (decide (output = k)) as [->|Hne].
      * rewrite lookup_insert_eq. eauto.
      * by rewrite lookup_insert_ne.
    + apply elem_of_cons in Hk as [->|Hk].
      * apply Hsome. left. rewrite lookup_insert_eq. eauto.
      * apply Hsome. by right.
Qed.

(** A normal return of lines 50-74 means no accessor id was met twice. *)
Lemma removeSamplerAccessorDataFrom_Return (ea ea' : Extracted)
    (replacedAccessors : gmap nat nat) (g g' : Gltf) :
  removeSamplerAccessorDataFrom replacedAccessors ea g = (Return ea', g') →
  NoDup (replacedIds ea)
  ∧ ∀ x, x ∈ replacedIds ea → replacedAccessors !! x = None.
Proof.
  revert ea' replacedAccessors g g'.
  induction ea as [|[i e] ea IH]; intros ea' replacedAccessors g g' Hrun; simpl in Hrun.
  - split; [constructor|]. intros x Hx. by apply elem_of_nil in Hx.
  - destruct (replacedAccessors !! i) eqn:Ei; [discriminate|].
    apply bind_Return in Hrun as (newAccessorId & g1 & _ & Hrun).
    apply bind_Return in Hrun as ([r1 r2] & g2 & Houts & Hrun).
    apply bind_Return in Hrun as (rest' & g3 & Hrest & _).
    apply replaceOutputs_Return in Houts as (Hnd & Hnone & Hsome).
    apply IH in Hrest as (Hndr & Hnoner). simpl in *.
    assert (Hi : i ∉ ca_outputs e).
    { intros Hin. specialize (Hnone _ Hin). by rewrite lookup_insert_eq in Hnone. }
    split.
    + apply NoDup_cons. split.
      * intros [Hin|Hin]%elem_of_app; [done|].
        specialize (Hnoner _ Hin).
        destruct (Hsome i) as [v Hv]; [left; rewrite lookup_insert_eq; eauto|].
        congruence.
      * apply NoDup_app. split; [done|]. split; [|done].
        intros x Hx Hx'. specialize (Hnoner _ Hx').
        destruct (Hsome x) as [v Hv]; [by right|]. congruence.
    + intros x [->|Hx]%elem_of_cons; [done|].
      apply elem_of_app in Hx as [Hx|Hx].
      * specialize (Hnone _ Hx). by apply lookup_insert_None in Hnone as [? _].
      * specialize (Hnoner _ Hx).
        destruct (replacedAccessors !! x) eqn:Ex; [|done].
        destruct (Hsome x) as [v Hv]; [|congruence].
        left. destruct (decide (i = x)) as [->|Hne]; [congruence|].
        rewrite lookup_insert_ne by done. rewrite Ex. eauto.
Qed.

Lemma replacedIds_key (ea : Extracted) (k : nat) (e : CompressedAnimation) :
  (k, e) ∈ ea → k ∈ replacedIds ea.
Proof.
  induction ea as [|entry ea IH]; intros Hin; [by apply elem_of_nil in Hin|].
  simpl. apply elem_of_cons in Hin as [<-|Hin]; [left|].
  right. apply elem_of_app. right. by apply IH.
Qed.

Lemma replacedIds_output (ea : Extracted) (i o : nat) :
  timelineHas ea i o → o ∈ replacedIds ea.
Proof.
  intros (e & Hin & Ho).
  induction ea as [|entry ea IH]; [by apply elem_of_nil in Hin|].
  simpl. apply elem_of_cons in Hin as [<-|Hin].
  - right. apply elem_of_app. by left.
  - right. apply elem_of_app. right. by apply IH.
Qed.

Lemma NoDup_replacedIds_one_timeline (ea : Extracted) (i1 i2 o : nat) :
  NoDup (replacedIds ea) → timelineHas ea i1 o → timelineHas ea i2 o → i1 = i2.
Proof.
  induction ea as [|[k e] ea IH]; intros Hnd (e1 & Hin1 & Ho1) (e2 & Hin2 & Ho2).
  { by apply elem_of_nil in Hin1. }
  simpl in Hnd. apply NoDup_cons in Hnd as [Hk Hnd].
  apply NoDup_app in Hnd as (Hnde & Hdisj & Hndr).
  apply elem_of_cons in Hin1 as [Heq1|Hin1]; apply elem_of_cons in Hin2 as [Heq2|Hin2].
  - congruence.
  - injection Heq1 as -> ->. exfalso. apply (Hdisj o Ho1).
    apply (replacedIds_output ea i2 o). by exists e2.
  - injection Heq2 as -> ->. exfalso. apply (Hdisj o Ho2).
    apply (replacedIds_output ea i1 o). by exists e1.
  - apply IH; [done|by exists e1|by exists e2].
Qed.

Lemma NoDup_replacedIds_input_not_output (ea : Extracted) (a i : nat)
    (e : CompressedAnimation) :
  NoDup (replacedIds ea) → (a, e) ∈ ea → timelineHas ea i a → False.
Proof.
  induction ea as [|[k e0] ea IH]; intros Hnd Hin (e' & Hin' & Ho').
  { by apply elem_of_nil in Hin. }
  simpl in Hnd. apply NoDup_cons in Hnd as [Hk Hnd].
  apply NoDup_app in Hnd as (Hnde & Hdisj & Hndr).
  apply elem_of_cons in Hin as [Heq|Hin]; apply elem_of_cons in Hin' as [Heq'|Hin'].
  - injection Heq as -> ->. injection Heq' as -> ->.
    apply Hk. apply elem_of_app. by left.
  - injection Heq as -> ->. apply Hk. apply elem_of_app. right.
    apply (replacedIds_output ea i k). by exists e'.
  - injection Heq' as -> ->. apply (Hdisj a Ho').
    by apply (replacedIds_key ea a e).
  - apply IH; [done|done|by exists e'].
Qed.

(** C8.  When two samplers with different input accessors name the same
    output accessor, or when some accessor id is the input of one sampler and
    the output of one, [compressDracoAnimations] ends in a throw, whatever
    the encoder does. *)
Theorem C8_shared_output_rejected (g : Gltf) (options : option Options) :
  (∃ s1 s2 i1 i2 o,
      s1 ∈ allSamplers g ∧ s2 ∈ allSamplers g
      ∧ input s1 = Some i1 ∧ input s2 = Some i2 ∧ i1 ≠ i2
      ∧ output s1 = Some o ∧ output s2 = Some o)
  ∨ (∃ s1 s2 a,
      s1 ∈ allSamplers g ∧ s2 ∈ allSamplers g
      ∧ input s1 = Some a ∧ output s2 = Some a) →
  ∃ err g', compressDracoAnimations g options = (Throw err, g').
Proof.
  intros Hbad. unfold compressDracoAnimations.
  rewrite bind_get, bind_run. unfold lift.
  destruct (extractSamplers ([], 0%nat) (allSamplers g)) as [[ea n]|err] eqn:Eex; [|eauto].
  apply extractSamplers_Return in Eex as (Hn & _ & Hall).
  assert (Hs : ∃ s, s ∈ allSamplers g).
  { destruct Hbad as [(s1 & _ & _ & _ & _ & H1 & _)|(s1 & _ & _ & H1 & _)]; eauto. }
  destruct Hs as [s Hs].
  destruct (decide (n = 0%nat)) as [->|_].
  { exfalso. destruct (allSamplers g); [by apply elem_of_nil in Hs|simpl in Hn; lia]. }
  rewrite bind_modify, bind_run.
  destruct (encodeAnimations _ _ _) as [[ea'|err] g2] eqn:Eenc; [|eauto].
  apply encodeAnimations_Return in Eenc as [Hids Hhas].
  rewrite bind_run.
  destruct (removeAllSamplerAccessorData ea' g2) as [[ea''|err] g3] eqn:Erem; [|eauto].
  exfalso. unfold removeAllSamplerAccessorData in Erem.
  apply removeSamplerAccessorDataFrom_Return in Erem as [Hnd _].
  destruct Hbad as [(s1 & s2 & i1 & i2 & o & H1 & H2 & Hi1 & Hi2 & Hne & Ho1 & Ho2)
                   |(s1 & s2 & a & H1 & H2 & Hi1 & Ho2)].
  - destruct (Hall s1 H1) as (i1' & o1' & Ei & Eo & Hh1).
    destruct (Hall s2 H2) as (i2' & o2' & Ei2 & Eo2 & Hh2).
    rewrite Hi1 in Ei. rewrite Ho1 in Eo. rewrite Hi2 in Ei2. rewrite Ho2 in Eo2.
    injection Ei as <-. injection Eo as <-. injection Ei2 as <-. injection Eo2 as <-.
    apply Hne. eapply NoDup_replacedIds_one_timeline; [exact Hnd| |]; by apply Hhas.
  - destruct (Hall s1 H1) as (i1' & o1' & Ei & Eo & Hh1).
    destruct (Hall s2 H2) as (i2' & o2' & Ei2 & Eo2 & Hh2).
    rewrite Hi1 in Ei. rewrite Ho2 in Eo2. injection Ei as <-. injection Eo2 as <-.
    apply Hhas in Hh1 as (e1 & Hin1 & _). apply Hhas in Hh2.
    eapply NoDup_replacedIds_input_not_output; [exact Hnd|exact Hin1|exact Hh2].
Qed.

End Animations.

Lemma C8_witness_shared_output :
  ∃ err g',
    CompressDracoAnimations.compressDracoAnimations
      (collaborators := Samples.countingAnimationEncoder) Samples.sharedOutput None
    = (Throw err, g').
Proof.
  apply (@C8_shared_output_rejected Samples.countingAnimationEncoder).
  left.
  exists (mkSampler (Some 0) (Some 2) (Some "LINEAR")),
         (mkSampler (Some 1) (Some 2) (Some "LINEAR")), 0, 1, 2.
  split; [left|]. split; [right; left|].
  split; [reflexivity|]. split; [reflexivity|]. split; [discriminate|].
  split; reflexivity.
Defined.

(* ================================================================== *)
(** * Further properties *)
(* ================================================================== *)

(** ** Options *)

Section Options.
Import CompressDracoMeshes.
Context {collaborators : Collaborators}.

Lemma Qlt_bool_false (a b : Q) : Qlt_bool a b = false ↔ (b <= a)%Q.
Proof.
  unfold Qlt_bool. rewrite negb_false_iff. apply Qle_bool_iff.
Qed.

Lemma checkRange_Return (name : string) (v : value) (lo hi : Q) :
  checkRange name v lo hi = Return tt ↔ admitted v lo hi.
Proof.
  unfold checkRange, typeOf_number_greaterThanOrEquals, typeOf_number_lessThanOrEquals,
    admitted.
  destruct v as [| |[| |q|]| |]; simpl;
    try (split; [discriminate|intros [?|?]; [discriminate|contradiction]]).
  - split; [by left|done].
  - destruct (Qlt_bool q lo) eqn:Elo.
    + split; [discriminate|]. intros [?|[Hlo _]]; [discriminate|].
      apply Qlt_bool_false in Hlo. congruence.
    + apply Qlt_bool_false in Elo.
      destruct (Qlt_bool hi q) eqn:Ehi.
      * split; [discriminate|]. intros [?|[_ Hhi]]; [discriminate|].
        apply Qlt_bool_false in Hhi. congruence.
      * apply Qlt_bool_false in Ehi. split; [by right|done].
Qed.

Lemma checkRanges_Return (o : DracoOptions) :
  checkRanges o = Return tt ↔ optionsAdmitted o.
Proof.
  unfold checkRanges, optionsAdmitted.
  rewrite <- (checkRange_Return "compressionLevel"),
    <- (checkRange_Return "quantizePositionBits"),
    <- (checkRange_Return "quantizeNormalBits"),
    <- (checkRange_Return "quantizeTexcoordBits"),
    <- (checkRange_Return "quantizeColorBits"),
    <- (checkRange_Return "quantizeGenericBits").
  destruct (checkRange "compressionLevel" _ _ _) as [[]|?];
    [|split; [discriminate|intros [? _]; discriminate]].
  destruct (checkRange "quantizePositionBits" _ _ _) as [[]|?];
    [|split; [discriminate|intros (_ & ? & _); discriminate]].
  destruct (checkRange "quantizeNormalBits" _ _ _) as [[]|?];
    [|split; [discriminate|intros (_ & _ & ? & _); discriminate]].
  destruct (checkRange "quantizeTexcoordBits" _ _ _) as [[]|?];
    [|split; [discriminate|intros (_ & _ & _ & ? & _); discriminate]].
  destruct (checkRange "quantizeColorBits" _ _ _) as [[]|?];
    [|split; [discriminate|intros (_ & _ & _ & _ & ? & _); discriminate]].
  tauto.
Qed.

(** Options that are numbers within their ranges pass the checks. *)
Lemma checkRanges_inRange (o : DracoOptions) :
  optionsInRange o → checkRanges o = Return tt.
Proof.
  intros (H1 & H2 & H3 & H4 & H5 & H6). apply checkRanges_Return.
  repeat split; by right.
Qed.

(** X1.  The six range checks of lines 59-64 let the pass through exactly
    when each of the six options in force is either [NaN] or a number
    within its range, [0,10] for the compression level and [0,30] for the
    five bit depths.  Anything that is not a number, a finite number below
    or above its range and the two infinities are turned away; [NaN] is
    not. *)
Theorem X1_range_checks_accept_in_range_or_NaN (o : DracoOptions) :
  checkRanges o = Return tt ↔ optionsAdmitted o.
Proof. apply checkRanges_Return. Qed.

(** X2.  An option in force that is neither [NaN] nor a number within its
    range -- a string or a boolean as much as a number that is too large --
    makes [compressDracoMeshes] throw in its initial state: the asset is the
    one passed in and nothing has been handed to the encoder. *)
Theorem X2_ill_typed_option_rejected_before_processing (g : Gltf)
    (options : option Options) :
  ¬ optionsAdmitted (effectiveOptions options) →
  ∃ err, compressDracoMeshes g options = (Throw err, initialState g).
Proof.
  intros Hbad. unfold compressDracoMeshes. rewrite bind_run. unfold lift.
  destruct (checkRanges (effectiveOptions options)) as [[]|err] eqn:E; [|eauto].
  exfalso. apply Hbad. by apply checkRanges_Return.
Qed.

Lemma lessThan_zero (n : number) : lessThan (Fin 0) n = true → positive n.
Proof.
  destruct n as [| |q|]; simpl; try done.
  unfold Qlt_bool. rewrite negb_true_iff. intros E.
  apply Qnot_le_lt. intros Hle. apply Qle_bool_iff in Hle. congruence.
Qed.

(** X3.  Every quantization call among the settings of lines 260-286
    carries the bit depth in force for the attribute kind it names, and that
    depth is positive: a depth of 0 sets no quantization.  The explicit form,
    with origin and range, is used for POSITION only, under unified
    quantization only, and carries the unified box. *)
Theorem X3_quantization_calls_carry_positive_bits (o : DracoOptions)
    (box : option (Vec3 * number)) (hasTargets : bool) (c : EncoderCall)
    (e : AttributeEnum) (bits : number) :
  c ∈ encoderCalls o box hasTargets → quantizes c = Some (e, bits) →
  bits = numberOf (bitsFor e o)
  ∧ positive bits
  ∧ (c = SetAttributeQuantization e bits
     ∨ c = SetAttributeExplicitQuantization POSITION bits 3 (fst <$> box) (snd <$> box))
  ∧ (e = POSITION →
     (truthy (unifiedQuantization o) = true ↔ c ≠ SetAttributeQuantization e bits)).
Proof.
  intros Hin Hq. unfold encoderCalls in Hin.
  repeat (apply elem_of_app in Hin as [Hin|Hin]).
  - apply list_elem_of_singleton in Hin as ->. discriminate.
  - destruct (lessThan (Fin 0) _) eqn:Eb; [|by apply elem_of_nil in Hin].
    apply lessThan_zero in Eb.
    destruct (truthy (unifiedQuantization o)) eqn:Eu;
      apply list_elem_of_singleton in Hin as ->; injection Hq as <- <-;
      (split; [done|]); (split; [done|]).
    + split; [by right|]. intros _. split; [discriminate|done].
    + split; [by left|]. intros _. split; [discriminate|]. intros Hne. by destruct Hne.
  - destruct (lessThan (Fin 0) _) eqn:Eb; [|by apply elem_of_nil in Hin].
    apply lessThan_zero in Eb. apply list_elem_of_singleton in Hin as ->.
    injection Hq as <- <-. repeat split; try done; try by left.
  - destruct (lessThan (Fin 0) _) eqn:Eb; [|by apply elem_of_nil in Hin].
    apply lessThan_zero in Eb. apply list_elem_of_singleton in Hin as ->.
    injection Hq as <- <-. repeat split; try done; try by left.
  - destruct (lessThan (Fin 0) _) eqn:Eb; [|by apply elem_of_nil in Hin].
    apply lessThan_zero in Eb. apply list_elem_of_singleton in Hin as ->.
    injection Hq as <- <-. repeat split; try done; try by left.
  - destruct (lessThan (Fin 0) _) eqn:Eb; [|by apply elem_of_nil in Hin].
    apply lessThan_zero in Eb. apply list_elem_of_singleton in Hin as ->.
    injection Hq as <- <-. repeat split; try done; try by left.
  - destruct hasTargets; [|by apply elem_of_nil in Hin].
    apply list_elem_of_singleton in Hin as ->. discriminate.
  - apply list_elem_of_singleton in Hin as ->. discriminate.
Qed.

(** X4.  With a compression level that is a number in [0,10], the first
    setting the encoder receives is its speed, the same for encoding and
    decoding, and that speed is 10 minus the compression level and lies in
    [0,10]. *)
Theorem X4_speed_is_ten_minus_level (o : DracoOptions)
    (box : option (Vec3 * number)) (hasTargets : bool) :
  withinRange (compressionLevel o) 0 10 →
  ∃ level speed rest,
    compressionLevel o = VNum (Fin level)
    ∧ encoderCalls o box hasTargets = SetSpeedOptions (Fin speed) (Fin speed) :: rest
    ∧ (speed + level == 10)%Q
    ∧ (0 <= speed)%Q ∧ (speed <= 10)%Q.
Proof.
  intros Hlevel. unfold encoderCalls.
  destruct (compressionLevel o) as [| |[| |q|]| |]; simpl in Hlevel; try contradiction.
  destruct Hlevel as [Hlo Hhi].
  eexists q, _, _. split; [reflexivity|]. split; [reflexivity|]. simpl.
  split; [ring|]. split.
  - apply (Qplus_le_r _ _ q). ring_simplify. exact Hhi.
  - apply (Qplus_le_r _ _ q). ring_simplify.
    apply (Qplus_le_r _ _ (-(10))). ring_simplify. exact Hlo.
Qed.

End Options.

Lemma X2_witness_string_bits :
  ∃ err, CompressDracoMeshes.compressDracoMeshes (collaborators := Samples.countingEncoder)
           Samples.mixedAsset (Some Samples.wordyBits)
         = (Throw err, CompressDracoMeshes.initialState Samples.mixedAsset).
Proof.
  apply (@X2_ill_typed_option_rejected_before_processing Samples.countingEncoder).
  intros (_ & [H|H] & _); [discriminate H|exact H].
Defined.

Lemma X3_witness_default_normals :
  Fin 10 = CompressDracoMeshes.numberOf (bitsFor CompressDracoMeshes.NORMAL CompressDracoMeshes.defaults)
  ∧ positive (Fin 10)
  ∧ (CompressDracoMeshes.SetAttributeQuantization CompressDracoMeshes.NORMAL (Fin 10)
     = CompressDracoMeshes.SetAttributeQuantization CompressDracoMeshes.NORMAL (Fin 10)
     ∨ CompressDracoMeshes.SetAttributeQuantization CompressDracoMeshes.NORMAL (Fin 10)
       = CompressDracoMeshes.SetAttributeExplicitQuantization
           CompressDracoMeshes.POSITION (Fin 10) 3 None None)
  ∧ (CompressDracoMeshes.NORMAL = CompressDracoMeshes.POSITION →
     (truthy (CompressDracoMeshes.unifiedQuantization CompressDracoMeshes.defaults) = true
      ↔ CompressDracoMeshes.SetAttributeQuantization CompressDracoMeshes.NORMAL (Fin 10)
        ≠ CompressDracoMeshes.SetAttributeQuantization CompressDracoMeshes.NORMAL (Fin 10))).
Proof.
  apply (X3_quantization_calls_carry_positive_bits CompressDracoMeshes.defaults None false
           (CompressDracoMeshes.SetAttributeQuantization CompressDracoMeshes.NORMAL (Fin 10))).
  - right. right. left.
  - reflexivity.
Defined.

Lemma X4_witness_default_level :
  ∃ level speed rest,
    CompressDracoMeshes.compressionLevel CompressDracoMeshes.defaults = VNum (Fin level)
    ∧ CompressDracoMeshes.encoderCalls CompressDracoMeshes.defaults None false
      = CompressDracoMeshes.SetSpeedOptions (Fin speed) (Fin speed) :: rest
    ∧ (speed + level == 10)%Q ∧ (0 <= speed)%Q ∧ (speed <= 10)%Q.
Proof.
  apply (X4_speed_is_ten_minus_level CompressDracoMeshes.defaults None false).
  split; discriminate.
Defined.


(** ** Attribute kinds *)

Section AttributeKinds.
Import CompressDracoMeshes.
Import Stdlib.Strings.Ascii.

Lemma index_underscore_append (name rest : string) :
  String.index 0 "_" name = None →
  String.index 0 "_" (String.append name (String "_"%char rest))
  = Some (String.length name).
Proof.
  induction name as [|a name IH]; cbn [String.index String.append String.prefix String.length].
  - intros _. destruct (Ascii.ascii_dec "_"%char "_"%char) as [_|Hne]; [|done].
    by destruct rest.
  - destruct (Ascii.ascii_dec "_"%char a) as [_|Hne].
    + by destruct name.
    + destruct (String.index 0 "_" name); [discriminate|].
      intros _. change (String.index 0 "_" (String a (name +:+ String "_"%char rest)) = Some (S (String.length name))).
      cbn [String.index String.prefix].
      destruct (Ascii.ascii_dec "_"%char a) as [?|_]; [done|].
      by rewrite IH.
Qed.

Lemma substring_append (name rest : string) :
  String.substring 0 (String.length name) (String.append name rest) = name.
Proof.
  induction name as [|a name IH]; simpl.
  - by destruct rest.
  - by rewrite IH.
Qed.

(** X5.  A semantic made of a name, an underscore and a set index
    (TEXCOORD_1, COLOR_0, JOINTS_0) is filed under its name: lines 166-169
    cut it at the first underscore. *)
Theorem X5_indexed_semantic_is_filed_under_its_name (name rest : string) :
  name ≠ EmptyString → String.index 0 "_" name = None →
  attributeNameOf (String.append name (String "_"%char rest)) = name.
Proof.
  intros Hne Hnone. unfold attributeNameOf.
  rewrite (index_underscore_append name rest Hnone).
  destruct name as [|a name]; [done|]. cbn [String.length].
  apply (substring_append (String a name)).
Qed.

(** X6.  A user-defined semantic, one that starts with an underscore, is not
    cut and is handed to the encoder as a GENERIC attribute. *)
Theorem X6_underscore_semantic_is_generic (rest : string) :
  attributeNameOf (String "_"%char rest) = String "_"%char rest
  ∧ attributeEnumOf (attributeNameOf (String "_"%char rest)) = GENERIC.
Proof.
  assert (E : attributeNameOf (String "_"%char rest) = String "_"%char rest)
    by (by destruct rest).
  split; [exact E|]. rewrite E. reflexivity.
Qed.

End AttributeKinds.

Lemma X5_witness_second_texcoord :
  CompressDracoMeshes.attributeNameOf "TEXCOORD_1" = "TEXCOORD".
Proof.
  apply (X5_indexed_semantic_is_filed_under_its_name "TEXCOORD" "1").
  - discriminate.
  - reflexivity.
Defined.

(** ** The pass as a whole *)

Section WholePass.
Import CompressDracoMeshes.
Context {collaborators : Collaborators}.

Lemma forEach_fixed {S A : Type} (l : list A) (h : A → M S unit) (s : S) :
  (∀ x, x ∈ l → h x s = (Return tt, s)) → forEach l h s = (Return tt, s).
Proof.
  induction l as [|x l IH]; intros Hh; simpl; [done|].
  rewrite bind_run, (Hh x) by left. apply IH. intros y Hy. apply Hh. by right.
Qed.

Lemma getPrimitive_meshRefs (g : Gltf) (mi : nat) (m : Mesh) (r : PrimitiveRef) :
  meshes g !! mi = Some m → r ∈ meshRefs mi m → is_Some (getPrimitive g r).
Proof.
  intros Hm Hr. unfold meshRefs in Hr.
  apply list_elem_of_fmap in Hr as (pi & -> & Hpi).
  apply elem_of_seq in Hpi. unfold getPrimitive. simpl. rewrite Hm.
  apply lookup_lt_is_Some. lia.
Qed.

(** A walk that meets nothing but primitives the guards turn away. *)
Lemma compressMeshesFrom_nothing (options : option Options) (o : DracoOptions)
    (box : option (Vec3 * number)) (d : DracoOptions) (ms : list Mesh) (mi : nat)
    (s : PassState) :
  options = Some (mkOptions (Some d)) →
  nothingToCompress (gltf s) →
  (∀ k m, ms !! k = Some m → meshes (gltf s) !! (mi + k)%nat = Some m) →
  compressMeshesFrom options o box mi ms s = (Return tt, s).
Proof.
  intros -> Hskip. revert mi.
  induction ms as [|m ms IH]; intros mi Hms; simpl; [done|].
  rewrite bind_run. unfold compressMesh. rewrite bind_run.
  rewrite forEach_fixed.
  - simpl. apply IH. intros k m' Hk.
    replace (S mi + k)%nat with (mi + S k)%nat by lia. by apply Hms.
  - intros r Hr.
    destruct (getPrimitive_meshRefs (gltf s) mi m r) as [p Hp]; [|done|].
    { specialize (Hms 0%nat m eq_refl). by rewrite Nat.add_0_r in Hms. }
    apply (compressPrimitive_skipped _ _ _ _ p); [done|]. by eapply Hskip.
Qed.

(** X7.  With options that pass the range checks and leave unified
    quantization off, on an asset in which (after [splitPrimitives]) the
    guards of lines 111-116 turn every primitive away, the pass returns
    normally and has done nothing beyond [splitPrimitives]: no encoder run,
    no extension declared, [removeUnusedElements] not called. *)
Theorem X7_nothing_to_compress_is_left_alone (g : Gltf) (d : DracoOptions) :
  optionsInRange (effectiveOptions (Some (mkOptions (Some d)))) →
  truthy (unifiedQuantization (effectiveOptions (Some (mkOptions (Some d))))) = false →
  nothingToCompress (splitPrimitives g) →
  compressDracoMeshes g (Some (mkOptions (Some d)))
  = (Return tt, initialState (splitPrimitives g)).
Proof.
  intros Hrange Hunified Hskip. unfold compressDracoMeshes. cbv zeta.
  apply checkRanges_inRange in Hrange.
  remember (Some (mkOptions (Some d))) as options eqn:Eopt.
  remember (effectiveOptions options) as o eqn:Eo.
  rewrite bind_run. unfold lift. rewrite Hrange.
  rewrite bind_run, onGltf_run. unfold modify. cbn [fst snd gltf initialState].
  rewrite Hunified. rewrite bind_run. unfold ret at 1.
  rewrite bind_run. unfold compressMeshes. rewrite bind_get.
  rewrite (compressMeshesFrom_nothing _ _ _ d); try done.
Qed.

Lemma compressPrimitive_without_dracoOptions (options : option Options)
    (o : DracoOptions) (box : option (Vec3 * number)) (r : PrimitiveRef)
    (s : PassState) :
  options = None ∨ options = Some (mkOptions None) →
  hashPrimitives s = ∅ →
  is_Some (getPrimitive (gltf s) r) →
  compressPrimitive options o box r s = (Return tt, s)
  ∨ ∃ s', compressPrimitive options o box r s
          = (Throw "TypeError: Cannot read property 'gltf2ObjDirectory' of undefined", s')
          ∧ gltf s' = gltf s ∧ encoded s' = encoded s.
Proof.
  intros Hopt Hempty [p Hp]. unfold compressPrimitive.
  rewrite bind_run, onGltf_run, primitiveAt_run, Hp. cbn [fst snd].
  destruct s as [g0 hp ae en]. cbn [gltf hashPrimitives addedExtension encoded] in *.
  destruct (unsupportedMode p); [by left|].
  destruct (indices p) as [indicesId|]; [|by left].
  right. rewrite bind_modify, bind_get. cbn [set_addedExtension hashPrimitives gltf
    addedExtension encoded]. subst hp. rewrite lookup_empty, bind_modify.
  unfold encodePrimitive.
  destruct Hopt as [-> | ->]; eexists; (split; [reflexivity|done]).
Qed.

Lemma forEach_without_dracoOptions (options : option Options)
    (o : DracoOptions) (box : option (Vec3 * number)) (refs : list PrimitiveRef)
    (s : PassState) :
  options = None ∨ options = Some (mkOptions None) →
  hashPrimitives s = ∅ →
  (∀ r, r ∈ refs → is_Some (getPrimitive (gltf s) r)) →
  forEach refs (compressPrimitive options o box) s = (Return tt, s)
  ∨ ∃ s', forEach refs (compressPrimitive options o box) s
          = (Throw "TypeError: Cannot read property 'gltf2ObjDirectory' of undefined", s')
          ∧ gltf s' = gltf s ∧ encoded s' = encoded s.
Proof.
  intros Hopt Hempty. induction refs as [|r refs IH]; intros Hrefs; simpl; [by left|].
  rewrite bind_run.
  destruct (compressPrimitive_without_dracoOptions options o box r s Hopt Hempty)
    as [->|(s' & -> & Hs')]; [apply Hrefs; left| |right; eauto].
  apply IH. intros r' Hr'. apply Hrefs. by right.
Qed.

(** X8.  Lines 133 and 309 read [options.dracoOptions.gltf2ObjDirectory]
    although line 50 allows [options.dracoOptions] to be missing: called
    without options, or with options that carry no [dracoOptions], the pass
    throws a TypeError on any asset that has a mesh.  Nothing has been handed
    to the encoder by then and the asset is as [splitPrimitives] left it. *)
Theorem X8_pass_without_dracoOptions_throws (g : Gltf) (options : option Options) :
  options = None ∨ options = Some (mkOptions None) →
  meshes (splitPrimitives g) ≠ [] →
  ∃ s', compressDracoMeshes g options
        = (Throw "TypeError: Cannot read property 'gltf2ObjDirectory' of undefined", s')
        ∧ gltf s' = splitPrimitives g ∧ encoded s' = [].
Proof.
  intros Hopt Hmesh. unfold compressDracoMeshes. cbv zeta.
  assert (Eo : effectiveOptions options = defaults) by (by destruct Hopt as [-> | ->]).
  rewrite Eo.
  rewrite bind_run. unfold lift.
  replace (checkRanges defaults) with (Return tt : completion unit) by (by vm_compute).
  rewrite bind_run, onGltf_run. unfold modify. cbn [fst snd gltf initialState].
  cbn [truthy unifiedQuantization defaults]. rewrite bind_run. unfold ret at 1.
  rewrite bind_run. unfold compressMeshes. rewrite bind_get. cbn [gltf].
  destruct (meshes (splitPrimitives g)) as [|m ms] eqn:Em; [done|].
  cbn [compressMeshesFrom]. rewrite bind_run. unfold compressMesh. rewrite bind_run.
  cbn [initialState hashPrimitives addedExtension encoded].
  set (s0 := {| gltf := splitPrimitives g; hashPrimitives := ∅;
                addedExtension := false; encoded := [] |}).
  destruct (forEach_without_dracoOptions options defaults None (meshRefs 0 m) s0 Hopt eq_refl)
    as [->|(s' & -> & Hg & He)].
  - intros r Hr. apply (getPrimitive_meshRefs _ 0 m); [|done]. cbn [gltf s0]. by rewrite Em.
  - unfold meshObjDump. exists s0. by destruct Hopt as [-> | ->].
  - exists s'. done.
Qed.

Lemma visitPositionAccessors_unreadable (accessors : list Accessor)
    (ids : list nat) (mm : Vec3 * Vec3) :
  allReadable accessors ids = false →
  ∃ err, visitPositionAccessors accessors mm ids = Throw err.
Proof.
  revert mm. induction ids as [|id ids IH]; intros mm; simpl; [discriminate|].
  unfold visitPositionAccessor, readablePosition.
  destruct (accessors !! id) as [a|]; [|eauto].
  destruct (String.eqb (acc_type a) "VEC3"); simpl; [|eauto].
  destruct (acc_min a), (acc_max a); simpl; eauto.
  destruct mm as [mn mx]. apply IH.
Qed.

(** X9.  Under unified quantization a POSITION accessor that is missing, is
    not a VEC3, or carries no [min] or no [max] makes the pass throw while
    it collects the box, that is before any primitive is looked at: nothing
    has been handed to the encoder and the asset is as [splitPrimitives]
    left it. *)
Theorem X9_unreadable_position_aborts_before_encoding (g : Gltf)
    (options : option Options) :
  optionsInRange (effectiveOptions options) →
  truthy (unifiedQuantization (effectiveOptions options)) = true →
  allReadable (accessors (splitPrimitives g))
              (accessorWithSemantic (splitPrimitives g) "POSITION") = false →
  ∃ err, compressDracoMeshes g options
         = (Throw err, initialState (splitPrimitives g)).
Proof.
  intros Hrange Hunified Hbad. unfold compressDracoMeshes. cbv zeta.
  apply checkRanges_inRange in Hrange.
  remember (effectiveOptions options) as o eqn:Eo.
  rewrite bind_run. unfold lift. rewrite Hrange.
  rewrite bind_run, onGltf_run. unfold modify. cbn [fst snd gltf initialState].
  rewrite Hunified. rewrite bind_run, bind_get, bind_run. cbn [gltf].
  unfold unifiedQuantizationBox.
  destruct (visitPositionAccessors_unreadable _ _
              (mkVec3 PosInf PosInf PosInf, mkVec3 NegInf NegInf NegInf) Hbad)
    as [err ->].
  by exists err.
Qed.

End WholePass.

Section PoisonedBox.
Import CompressDracoMeshes.

Lemma Math_min_NaN (a : number) : Math_min a NaN = NaN.
Proof. by destruct a. Qed.

Lemma Math_max_NaN (a : number) : Math_max a NaN = NaN.
Proof. by destruct a. Qed.

Lemma minus_NaN_r (a : number) : minus a NaN = NaN.
Proof. by destruct a. Qed.

Lemma numberAt_short (arr : list Q) : (length arr < 3)%nat → numberAt arr 2 = NaN.
Proof.
  intros Hlen. unfold numberAt. by rewrite lookup_ge_None_2 by lia.
Qed.

(** Once the third slot of an accumulator is [NaN] it stays so, and a
    short [min] or [max] array makes it so. *)
Lemma visitPositionAccessors_poison (accessors : list Accessor) (ids : list nat)
    (mm mm' : Vec3 * Vec3) :
  visitPositionAccessors accessors mm ids = Return mm' →
  (v2 mm.1 = NaN → v2 mm'.1 = NaN)
  ∧ (v2 mm.2 = NaN → v2 mm'.2 = NaN)
  ∧ (∀ id a arr, id ∈ ids → accessors !! id = Some a → acc_min a = Some arr →
       (length arr < 3)%nat → v2 mm'.1 = NaN)
  ∧ (∀ id a arr, id ∈ ids → accessors !! id = Some a → acc_max a = Some arr →
       (length arr < 3)%nat → v2 mm'.2 = NaN).
Proof.
  revert mm. induction ids as [|id ids IH]; intros mm Hrun; simpl in Hrun.
  { injection Hrun as <-. repeat split; try done; intros ??? Hin; by apply elem_of_nil in Hin. }
  destruct (visitPositionAccessor accessors mm id) as [mm1|] eqn:E1; [|discriminate].
  destruct (IH mm1 Hrun) as (K1 & K2 & S1 & S2).
  unfold visitPositionAccessor in E1.
  destruct (accessors !! id) as [a0|] eqn:Ea0; [|discriminate].
  destruct (negb _); [discriminate|].
  destruct (acc_min a0) as [mn0|] eqn:Emn; [|discriminate].
  destruct (acc_max a0) as [mx0|] eqn:Emx; [|discriminate].
  destruct mm as [mn mx]. injection E1 as <-. cbn [fst snd v2] in *.
  split; [intros Hn; apply K1; by rewrite Hn|].
  split; [intros Hn; apply K2; by rewrite Hn|]. split.
  - intros id' a arr [->|Hin]%elem_of_cons Ha Harr Hlen; [|by eapply S1].
    rewrite Ea0 in Ha. injection Ha as <-. rewrite Emn in Harr. injection Harr as <-.
    apply K1. by rewrite numberAt_short, Math_min_NaN.
  - intros id' a arr [->|Hin]%elem_of_cons Ha Harr Hlen; [|by eapply S2].
    rewrite Ea0 in Ha. injection Ha as <-. rewrite Emx in Harr. injection Harr as <-.
    apply K2. by rewrite numberAt_short, Math_max_NaN.
Qed.

Lemma visitPositionAccessors_readable (accessors : list Accessor) (ids : list nat)
    (mm : Vec3 * Vec3) :
  allReadable accessors ids = true →
  ∃ mm', visitPositionAccessors accessors mm ids = Return mm'.
Proof.
  revert mm. induction ids as [|id ids IH]; intros mm; simpl; [eauto|].
  intros [Hid Hids]%andb_true_iff.
  unfold visitPositionAccessor, readablePosition in *.
  destruct (accessors !! id) as [a|]; [|discriminate].
  apply andb_true_iff in Hid as [-> Hmm]. cbn [negb].
  destruct (acc_min a), (acc_max a); try discriminate.
  destruct mm as [mn mx]. by apply IH.
Qed.

(** X10.  A POSITION accessor whose [min] or [max] array has fewer than
    three entries does not stop the box of lines 72-91 from being computed:
    the missing slot reads as [undefined], [Math.min] and [Math.max] turn it
    into [NaN], and the quantization range comes out as [NaN]. *)
Theorem X10_short_bounds_make_the_range_NaN (g : Gltf) (id : nat) (a : Accessor)
    (arr : list Q) :
  allReadable (accessors g) (accessorWithSemantic g "POSITION") = true →
  id ∈ accessorWithSemantic g "POSITION" →
  accessors g !! id = Some a →
  acc_min a = Some arr ∨ acc_max a = Some arr →
  (length arr < 3)%nat →
  ∃ origin, unifiedQuantizationBox g = Return (origin, NaN).
Proof.
  intros Hall Hid Ha Harr Hlen. unfold unifiedQuantizationBox. cbv zeta.
  destruct (visitPositionAccessors_readable _ _
              (mkVec3 PosInf PosInf PosInf, mkVec3 NegInf NegInf NegInf) Hall)
    as [[mn mx] E].
  rewrite E. exists mn. f_equal. f_equal.
  apply visitPositionAccessors_poison in E as (_ & _ & S1 & S2). cbn [fst snd] in *.
  destruct Harr as [Harr|Harr].
  - rewrite (S1 id a arr Hid Ha Harr Hlen), minus_NaN_r. by rewrite !Math_max_NaN.
  - rewrite (S2 id a arr Hid Ha Harr Hlen). cbn [minus]. by rewrite !Math_max_NaN.
Qed.

End PoisonedBox.

Lemma X7_witness_lines_only :
  CompressDracoMeshes.compressDracoMeshes (collaborators := Samples.countingEncoder)
    Samples.linesOnly (Some Samples.defaultOptions)
  = (Return tt, CompressDracoMeshes.initialState Samples.linesOnly).
Proof.
  apply (@X7_nothing_to_compress_is_left_alone Samples.countingEncoder
           Samples.linesOnly CompressDracoMeshes.noDracoOptions).
  - repeat split; discriminate.
  - reflexivity.
  - intros [[|mi] [|pi]] p Hp; vm_compute in Hp; try discriminate.
    injection Hp as <-. left. reflexivity.
Defined.

Lemma X8_witness_no_options :
  ∃ s', CompressDracoMeshes.compressDracoMeshes (collaborators := Samples.countingEncoder)
          Samples.mixedAsset None
        = (Throw "TypeError: Cannot read property 'gltf2ObjDirectory' of undefined", s')
        ∧ CompressDracoMeshes.gltf s' = Samples.mixedAsset
        ∧ CompressDracoMeshes.encoded s' = [].
Proof.
  apply (@X8_pass_without_dracoOptions_throws Samples.countingEncoder
           Samples.mixedAsset None).
  - left. reflexivity.
  - discriminate.
Defined.

Lemma X9_witness_flat_positions :
  ∃ err, CompressDracoMeshes.compressDracoMeshes (collaborators := Samples.countingEncoder)
           Samples.flatPositions (Some Samples.unifiedOptions)
         = (Throw err, CompressDracoMeshes.initialState Samples.flatPositions).
Proof.
  apply (@X9_unreadable_position_aborts_before_encoding Samples.countingEncoder
           Samples.flatPositions (Some Samples.unifiedOptions)).
  - repeat split; discriminate.
  - reflexivity.
  - reflexivity.
Defined.

Lemma X10_witness_short_bounds :
  ∃ origin, CompressDracoMeshes.unifiedQuantizationBox Samples.shortBounds
            = Return (origin, NaN).
Proof.
  apply (X10_short_bounds_make_the_range_NaN Samples.shortBounds 1
           (mkAccessor (Some 0) (Some 0) 5126 3 "VEC3" (Some [0; 0]%Q)
              (Some [1; 1; 1]%Q) []) [0; 0]%Q).
  - reflexivity.
  - left.
  - reflexivity.
  - left. reflexivity.
  - simpl. lia.
Defined.

(** ** What the compress walk does to the arrays of the asset *)

Section Frames.
Context (R : Gltf → Gltf → Prop).
Hypothesis R_refl : ∀ g, R g g.
Hypothesis R_trans : ∀ x y z, R x y → R y z → R x z.

Lemma within_ret {A} (a : A) : stepsWithin R (ret a).
Proof. intros g. apply R_refl. Qed.

Lemma within_throw {A} (err : string) : stepsWithin R (throw err : M Gltf A).
Proof. intros g. apply R_refl. Qed.

Lemma within_get : stepsWithin R get.
Proof. intros g. apply R_refl. Qed.

Lemma within_lift {A} (c : completion A) : stepsWithin R (lift c).
Proof. intros g. apply R_refl. Qed.

Lemma within_modify (f : Gltf → Gltf) : (∀ g, R g (f g)) → stepsWithin R (modify f).
Proof. intros Hf g. apply Hf. Qed.

Lemma within_bind {A B} (c : M Gltf A) (k : A → M Gltf B) :
  stepsWithin R c → (∀ a, stepsWithin R (k a)) → stepsWithin R (bind c k).
Proof.
  intros Hc Hk g. rewrite bind_run. specialize (Hc g).
  destruct (c g) as [[a|e] g1]; simpl in *; [|done].
  eapply R_trans; [exact Hc|apply Hk].
Qed.

Lemma within_forEach {A} (l : list A) (h : A → M Gltf unit) :
  (∀ x, stepsWithin R (h x)) → stepsWithin R (forEach l h).
Proof.
  intros Hh. induction l as [|x l IH]; simpl; [apply within_ret|].
  apply within_bind; [apply Hh|]. intros _. apply IH.
Qed.

Lemma within_primitiveAt (r : PrimitiveRef) : stepsWithin R (primitiveAt r).
Proof. intros g. rewrite primitiveAt_state. apply R_refl. Qed.

End Frames.

Section Appending.
Import CompressDracoMeshes.
Context {collaborators : Collaborators}.

Lemma grownFrom_refl (g : Gltf) : grownFrom g g.
Proof. by repeat split. Qed.

Lemma grownFrom_trans (x y z : Gltf) : grownFrom x y → grownFrom y z → grownFrom x z.
Proof.
  intros (A1 & B1 & C1) (A2 & B2 & C2). repeat split; by etrans.
Qed.

Lemma grownFrom_arrays (g g' : Gltf) :
  accessors g' = accessors g → bufferViews g' = bufferViews g →
  buffers g' = buffers g → grownFrom g g'.
Proof. intros Ea Eb Ec. unfold grownFrom. by rewrite Ea, Eb, Ec. Qed.

Lemma modifyPrimitive_grows (r : PrimitiveRef) (f : Primitive → Primitive) :
  stepsWithin grownFrom (modifyPrimitive r f).
Proof.
  intros g. rewrite modifyPrimitive_run. cbn [snd].
  destruct (getPrimitive g r); [|apply grownFrom_refl].
  destruct (accessors_setPrimitive g r (f p)) as (Ea & Eb & Ec).
  by apply grownFrom_arrays.
Qed.

Lemma pushStrippedClone_grows (id : nat) : stepsWithin grownFrom (pushStrippedClone id).
Proof.
  intros g. rewrite pushStrippedClone_run.
  destruct (accessors g !! id); [|apply grownFrom_refl].
  split; [by apply prefix_app_r|done].
Qed.

Lemma addCompression_grows (r : PrimitiveRef) (attributeToId : object Z)
    (len : Z) (data : list Z) (n m : Z) :
  leavesArraysAlone replaceWithDecompressedPrimitive →
  stepsWithin grownFrom (addCompressionExtensionToPrimitive r attributeToId len data n m).
Proof.
  intros Hh. unfold addCompressionExtensionToPrimitive.
  apply (within_bind _ grownFrom_trans); [apply (within_primitiveAt _ grownFrom_refl)|].
  intros p. destruct (indices p); [|apply (within_throw _ grownFrom_refl)].
  apply (within_bind _ grownFrom_trans); [apply pushStrippedClone_grows|]. intros newIndices.
  apply (within_bind _ grownFrom_trans); [apply modifyPrimitive_grows|]. intros _.
  apply (within_bind _ grownFrom_trans).
  { apply (within_forEach _ grownFrom_refl grownFrom_trans). intros [semantic accessorId].
    apply (within_bind _ grownFrom_trans); [apply pushStrippedClone_grows|].
    intros newId. apply modifyPrimitive_grows. }
  intros _ g. rewrite bind_get. unfold addToArray. rewrite bind_put.
  eapply grownFrom_trans; [|apply (within_bind _ grownFrom_trans)].
  - split; [done|]. split; by apply prefix_app_r.
  - apply modifyPrimitive_grows.
  - intros _. apply within_modify. intros g1.
    destruct (Hh g1 r n m) as (Ea & Eb & Ec & _). by apply grownFrom_arrays.
Qed.

Lemma copyCompressed_grows (r rc : PrimitiveRef) :
  stepsWithin grownFrom (copyCompressedExtensionToPrimitive r rc).
Proof.
  unfold copyCompressedExtensionToPrimitive.
  apply (within_bind _ grownFrom_trans); [apply (within_primitiveAt _ grownFrom_refl)|].
  intros cp.
  apply (within_bind _ grownFrom_trans).
  { apply (within_forEach _ grownFrom_refl grownFrom_trans). intros [semantic accessorId].
    apply modifyPrimitive_grows. }
  intros _.
  apply (within_bind _ grownFrom_trans); [apply (within_primitiveAt _ grownFrom_refl)|].
  intros cp1.
  apply (within_bind _ grownFrom_trans); [apply modifyPrimitive_grows|]. intros _.
  apply (within_bind _ grownFrom_trans); [apply (within_primitiveAt _ grownFrom_refl)|].
  intros cp2. destruct (dracoExtensionOf cp2); [apply modifyPrimitive_grows|].
  apply (within_throw _ grownFrom_refl).
Qed.

Lemma compressPrimitive_grows (options : option Options) (o : DracoOptions)
    (box : option (Vec3 * number)) (r : PrimitiveRef) (s0 s : PassState) :
  leavesArraysAlone replaceWithDecompressedPrimitive →
  grownFrom (gltf s0) (gltf s) →
  grownFrom (gltf s0) (gltf (compressPrimitive options o box r s).2).
Proof.
  intros Hh Hs. eapply grownFrom_trans; [exact Hs|]. clear Hs s0.
  unfold compressPrimitive.
  rewrite bind_run, onGltf_run, primitiveAt_run.
  destruct (getPrimitive (gltf s) r) as [p|]; cbn [fst snd gltf]; [|apply grownFrom_refl].
  destruct (unsupportedMode p); [apply grownFrom_refl|].
  destruct (indices p) as [indicesId|]; [|apply grownFrom_refl].
  rewrite bind_modify, bind_get. cbn [set_addedExtension gltf hashPrimitives].
  destruct (hashPrimitives s !! _) as [cached|].
  - rewrite onGltf_run. cbn [snd gltf]. apply copyCompressed_grows.
  - rewrite bind_modify. unfold encodePrimitive.
    destruct options as [[[d|]]|]; try apply grownFrom_refl.
    rewrite bind_run, onGltf_run. cbn [fst snd gltf remember].
    rewrite bind_get, bind_run. unfold lift.
    destruct (readAccessorPacked _ _); [|apply grownFrom_refl].
    pose proof (addAttributes_state (attributes p)
                  (mkDracoMesh (Some ((inject_Z (Z.of_nat (length (map toUint32 a))) / 3)%Q,
                                      map toUint32 a)) [], []) (gltf s)) as Hst.
    destruct (addAttributes _ _ _) as [[[mesh attributeToId]|e] g1]; cbn [fst snd] in *;
      subst g1; [|apply grownFrom_refl].
    rewrite bind_modify. cbn [logEncode gltf].
    destruct (_ <=? _)%Z; [apply grownFrom_refl|].
    rewrite onGltf_run. cbn [snd gltf]. by apply addCompression_grows.
Qed.

(** X11.  The mesh walk of the compress pass only ever appends to the
    accessors, bufferViews and buffers of the asset: whatever the outcome,
    each element the asset had before the walk is still there afterwards,
    unchanged and at its old index.  Accessors that other parts of the asset
    share with a compressed primitive therefore keep their data. *)
Theorem X11_compress_walk_only_appends (options : option Options)
    (o : DracoOptions) (box : option (Vec3 * number)) (s : PassState) :
  leavesArraysAlone replaceWithDecompressedPrimitive →
  grownFrom (gltf s) (gltf (compressMeshes options o box s).2).
Proof.
  intros Hh. unfold compressMeshes. rewrite bind_get.
  generalize 0%nat (meshes (gltf s)). intros mi ms.
  assert (H0 : grownFrom (gltf s) (gltf s)) by apply grownFrom_refl.
  revert H0. generalize s at 2 4. revert mi.
  induction ms as [|m ms IH]; intros mi s1 Hs1; simpl; [done|].
  apply (bind_invariant (fun s' => grownFrom (gltf s) (gltf s'))); [| |done].
  - intros s2 Hs2. unfold compressMesh.
    apply (bind_invariant (fun s' => grownFrom (gltf s) (gltf s'))); [| |done].
    + apply (forEach_invariant (fun s' => grownFrom (gltf s) (gltf s'))).
      intros r s3 _ Hs3. by apply compressPrimitive_grows.
    + intros _ s3 Hs3. unfold meshObjDump. by destruct options as [[[d|]]|].
  - intros _ s2 Hs2. by apply IH.
Qed.

Lemma sameStore_refl (g : Gltf) : sameStore g g.
Proof. by split. Qed.

Lemma sameStore_trans (x y z : Gltf) : sameStore x y → sameStore y z → sameStore x z.
Proof. intros [A1 B1] [A2 B2]. split; congruence. Qed.

Lemma modifyPrimitive_sameStore (r : PrimitiveRef) (f : Primitive → Primitive) :
  stepsWithin sameStore (modifyPrimitive r f).
Proof.
  intros g. rewrite modifyPrimitive_run. cbn [snd].
  destruct (getPrimitive g r); [|apply sameStore_refl].
  destruct (accessors_setPrimitive g r (f p)) as (_ & Eb & Ec). by split.
Qed.

Lemma pushStrippedClone_sameStore (id : nat) :
  stepsWithin sameStore (pushStrippedClone id).
Proof.
  intros g. rewrite pushStrippedClone_run.
  destruct (accessors g !! id); by split.
Qed.

Lemma copyCompressed_sameStore (r rc : PrimitiveRef) :
  stepsWithin sameStore (copyCompressedExtensionToPrimitive r rc).
Proof.
  unfold copyCompressedExtensionToPrimitive.
  apply (within_bind _ sameStore_trans); [apply (within_primitiveAt _ sameStore_refl)|].
  intros cp.
  apply (within_bind _ sameStore_trans).
  { apply (within_forEach _ sameStore_refl sameStore_trans). intros [semantic accessorId].
    apply modifyPrimitive_sameStore. }
  intros _.
  apply (within_bind _ sameStore_trans); [apply (within_primitiveAt _ sameStore_refl)|].
  intros cp1.
  apply (within_bind _ sameStore_trans); [apply modifyPrimitive_sameStore|]. intros _.
  apply (within_bind _ sameStore_trans); [apply (within_primitiveAt _ sameStore_refl)|].
  intros cp2. destruct (dracoExtensionOf cp2); [apply modifyPrimitive_sameStore|].
  apply (within_throw _ sameStore_refl).
Qed.

(** A normal return of [addCompressionExtensionToPrimitive] has stored
    exactly one buffer and one bufferView, those of the payload. *)
Lemma addCompression_store (r : PrimitiveRef) (attributeToId : object Z)
    (len : Z) (data : list Z) (n m : Z) (g g' : Gltf) :
  leavesArraysAlone replaceWithDecompressedPrimitive →
  addCompressionExtensionToPrimitive r attributeToId len data n m g = (Return tt, g') →
  buffers g' = buffers g ++ [mkBuffer len data]
  ∧ bufferViews g' = bufferViews g ++ [mkBufferView (length (buffers g)) 0 len].
Proof.
  intros Hh Hrun. unfold addCompressionExtensionToPrimitive in Hrun.
  apply bind_Return in Hrun as (p & g0 & Hp & Hrun).
  pose proof (primitiveAt_state r g) as E0. rewrite Hp in E0. cbn [snd] in E0. subst g0.
  destruct (indices p) as [indicesId|]; [|discriminate].
  apply bind_Return in Hrun as (newIndices & g1 & H1 & Hrun).
  pose proof (pushStrippedClone_sameStore indicesId g) as S1. rewrite H1 in S1.
  apply bind_Return in Hrun as ([] & g2 & H2 & Hrun).
  pose proof (modifyPrimitive_sameStore r
                (fun p => set_indices p (Some newIndices)) g1) as S2. rewrite H2 in S2.
  apply bind_Return in Hrun as ([] & g3 & H3 & Hrun).
  pose proof (within_forEach _ sameStore_refl sameStore_trans (attributes p)
                (fun '(semantic, accessorId) =>
                   newId <- pushStrippedClone accessorId ;;
                   modifyPrimitive r (fun p =>
                     set_attributes p (assignKey (attributes p) semantic newId)))) as S3.
  specialize (S3 ltac:(intros [??]; apply (within_bind _ sameStore_trans);
                       [apply pushStrippedClone_sameStore
                       |intros ?; apply modifyPrimitive_sameStore]) g2).
  rewrite H3 in S3. cbn [snd] in *.
  assert (S : sameStore g g3)
    by (eapply sameStore_trans; [eapply sameStore_trans|]; eassumption).
  destruct S as [Sb Sf].
  rewrite bind_get in Hrun. unfold addToArray in Hrun. rewrite bind_put in Hrun.
  apply bind_Return in Hrun as ([] & g4 & H4 & Hrun).
  pose proof (modifyPrimitive_sameStore r
                (fun p => set_dracoExtension p
                            (mkDracoExtension (length (bufferViews g3)) attributeToId))
                (set_bufferViews
                   (set_buffers g3 (buffers g3 ++ [mkBuffer len data]))
                   (bufferViews g3 ++ [mkBufferView (length (buffers g3)) 0 len])))
    as S4.
  rewrite H4 in S4. cbn [snd] in S4. destruct S4 as [S4b S4f]. simpl in S4b, S4f.
  unfold modify in Hrun. injection Hrun as <-.
  destruct (Hh g4 r n m) as (_ & Eb & Ec & _).
  rewrite Eb, Ec, S4b, S4f, Sb, Sf. done.
Qed.

(** A normal return of the callback stores one buffer and one bufferView
    for each run of the encoder it logs, and none otherwise. *)
Lemma compressPrimitive_store (options : option Options) (o : DracoOptions)
    (box : option (Vec3 * number)) (r : PrimitiveRef) (s s' : PassState) :
  leavesArraysAlone replaceWithDecompressedPrimitive →
  compressPrimitive options o box r s = (Return tt, s') →
  (length (buffers (gltf s')) + length (encoded s)
   = length (buffers (gltf s)) + length (encoded s'))%nat
  ∧ (length (bufferViews (gltf s')) + length (encoded s)
     = length (bufferViews (gltf s)) + length (encoded s'))%nat.
Proof.
  intros Hh Hrun. unfold compressPrimitive in Hrun.
  rewrite bind_run, onGltf_run, primitiveAt_run in Hrun.
  destruct (getPrimitive (gltf s) r) as [p|]; cbn [fst snd] in Hrun; [|discriminate].
  destruct (unsupportedMode p).
  { destruct s. by injection Hrun as <-. }
  destruct (indices p) as [indicesId|].
  2:{ destruct s. by injection Hrun as <-. }
  rewrite bind_modify, bind_get in Hrun.
  cbn [set_addedExtension gltf hashPrimitives] in Hrun.
  destruct (hashPrimitives s !! _) as [cached|].
  - apply onGltf_Return in Hrun as (Hcopy & _ & _ & He).
    cbn [gltf encoded set_addedExtension] in *.
    pose proof (copyCompressed_sameStore r cached (gltf s)) as [Sb Sf].
    rewrite Hcopy in Sb, Sf. cbn [snd] in *. by rewrite Sb, Sf, He.
  - rewrite bind_modify in Hrun. unfold encodePrimitive in Hrun.
    destruct options as [[[d|]]|]; try discriminate.
    apply bind_Return in Hrun as ([mesh attributeToId] & s1 & H1 & Hrun).
    assert (Hg1 : gltf s1 = gltf s ∧ encoded s1 = encoded s).
    { rewrite onGltf_run in H1. injection H1 as _ <-. cbn [gltf encoded remember].
      split; [|done]. rewrite bind_get, bind_run. unfold lift.
      destruct (readAccessorPacked _ _); [|done]. by rewrite addAttributes_state. }
    destruct Hg1 as [Hg1 He1].
    rewrite bind_modify in Hrun.
    destruct (_ <=? _)%Z; [discriminate|].
    apply onGltf_Return in Hrun as (Hadd & _ & _ & He). cbn [gltf encoded logEncode] in *.
    rewrite Hg1 in Hadd. apply (addCompression_store _ _ _ _ _ _ _ _ Hh) in Hadd as [Eb Ev].
    rewrite Eb, Ev, He, He1, !length_app. simpl. lia.
Qed.

(** X12.  When the mesh walk of the compress pass returns normally, the
    asset has gained exactly one buffer and one bufferView for each run of
    the encoder: a primitive served from the hash cache adds no bytes. *)
Theorem X12_one_buffer_per_encoder_run (options : option Options)
    (o : DracoOptions) (box : option (Vec3 * number)) (g : Gltf) (s' : PassState) :
  leavesArraysAlone replaceWithDecompressedPrimitive →
  compressMeshes options o box (initialState g) = (Return tt, s') →
  length (buffers (gltf s')) = (length (buffers g) + length (encoded s'))%nat
  ∧ length (bufferViews (gltf s')) = (length (bufferViews g) + length (encoded s'))%nat.
Proof.
  intros Hh Hrun. unfold compressMeshes in Hrun. rewrite bind_get in Hrun.
  apply compressMeshesFrom_flat in Hrun.
  assert (Hgen : ∀ refs s,
    forEach refs (compressPrimitive options o box) s = (Return tt, s') →
    (length (buffers (gltf s')) + length (encoded s)
     = length (buffers (gltf s)) + length (encoded s'))%nat
    ∧ (length (bufferViews (gltf s')) + length (encoded s)
       = length (bufferViews (gltf s)) + length (encoded s'))%nat).
  { induction refs as [|r refs IH]; intros s Hs; simpl in Hs.
    - by injection Hs as <-.
    - apply bind_Return in Hs as ([] & s1 & H1 & Hs).
      apply (compressPrimitive_store _ _ _ _ _ _ Hh) in H1 as [B1 V1].
      destruct (IH s1 Hs) as [B2 V2]. lia. }
  apply Hgen in Hrun as [B V]. cbn [initialState gltf encoded length] in *. lia.
Qed.

End Appending.

(** ** The extension record and the way back *)

Section ExtensionRecord.
Import CompressDracoMeshes.
Context {collaborators : Collaborators}.

Lemma keys_assignKey_fresh {V} (o : object V) (k : string) (v : V) :
  k ∉ keys o → keys (assignKey o k v) = keys o ++ [k].
Proof.
  induction o as [|[k0 v0] o IH]; simpl; intros Hk; [done|].
  apply not_elem_of_cons in Hk as [Hne Hk].
  destruct (String.eqb_spec k0 k) as [->|_]; [done|]. simpl. by rewrite IH.
Qed.

Lemma lookupKey_assignKey {V} (o : object V) (k k' : string) (v : V) :
  lookupKey (assignKey o k v) k'
  = if String.eqb k k' then Some v else lookupKey o k'.
Proof.
  induction o as [|[k0 v0] o IH]; simpl; [done|].
  destruct (String.eqb_spec k0 k) as [->|Hne]; simpl.
  - by destruct (String.eqb k k').
  - destruct (String.eqb_spec k0 k') as [->|Hne'].
    + destruct (String.eqb_spec k k') as [->|_]; done.
    + exact IH.
Qed.

Lemma addAttribute_Return (mesh mesh' : DracoMesh) (ids ids' : object Z)
    (semantic : string) (accessorId : nat) (g g' : Gltf) :
  addAttribute (mesh, ids) (semantic, accessorId) g = (Return (mesh', ids'), g') →
  ∃ id, id ≠ (-1)%Z ∧ ids' = assignKey ids semantic id.
Proof.
  unfold addAttribute. rewrite bind_get.
  destruct (accessors g !! accessorId) as [accessor|]; [|discriminate].
  rewrite bind_run. unfold lift.
  destruct (readAccessorPacked _ _) as [packed|]; [|discriminate].
  rewrite bind_run.
  destruct (getAddAttributeFunctionName _) as [name|]; [|discriminate].
  rewrite bind_run.
  destruct (createTypedArray _ _) as [data|]; [|discriminate].
  rewrite bind_run.
  destruct (if _ || _ then _ else _) as [[[]|] g1]; [|discriminate].
  destruct name as [name|]; [|discriminate].
  destruct (Z.eqb_spec (addAttributeToMesh mesh
              (mkAddedAttribute name (attributeEnumOf (attributeNameOf semantic))
                 (acc_count accessor) (numberOfComponentsForType (acc_type accessor))
                 data)) (-1)) as [|Hne]; [discriminate|].
  intros [= <- <- <-]. eauto.
Qed.

Lemma addAttributes_Return (l : object nat) (mesh mesh' : DracoMesh)
    (ids ids' : object Z) (g g' : Gltf) :
  addAttributes (mesh, ids) l g = (Return (mesh', ids'), g') →
  NoDup (keys ids ++ keys l) →
  keys ids' = keys ids ++ keys l
  ∧ ∀ semantic id, lookupKey ids' semantic = Some id →
                   lookupKey ids semantic = Some id ∨ id ≠ (-1)%Z.
Proof.
  revert mesh ids g. induction l as [|[semantic accessorId] l IH];
    intros mesh ids g Hrun Hnd; simpl in Hrun.
  { injection Hrun as <- <- <-. simpl. rewrite app_nil_r. split; [done|]. by left. }
  apply bind_Return in Hrun as ([mesh1 ids1] & g1 & H1 & Hrun).
  apply addAttribute_Return in H1 as (id1 & Hne1 & ->).
  assert (Hfresh : semantic ∉ keys ids).
  { intros Hin. apply NoDup_app in Hnd as (_ & Hd & _). apply (Hd _ Hin). simpl. left. }
  apply IH in Hrun as [Hk Hl].
  2:{ rewrite (keys_assignKey_fresh _ _ _ Hfresh), <- app_assoc. exact Hnd. }
  split.
  - rewrite Hk, (keys_assignKey_fresh _ _ _ Hfresh), <- app_assoc. done.
  - intros sem id Hid. apply Hl in Hid as [Hid|Hid]; [|by right].
    rewrite lookupKey_assignKey in Hid.
    destruct (String.eqb semantic sem); [|by left].
    injection Hid as <-. by right.
Qed.

(** What the callback has in hand when lines 133-304 return normally. *)
Lemma encodePrimitive_inside (options : option Options) (o : DracoOptions)
    (box : option (Vec3 * number)) (hashValue : string) (r : PrimitiveRef)
    (p : Primitive) (indicesId : nat) (s s' : PassState) :
  encodePrimitive options o box hashValue r p indicesId s = (Return tt, s') →
  ∃ mesh attributeToId indicesData,
    (readAccessorPacked (gltf s) (accessors (gltf s) !! indicesId) = Return indicesData
     ∧ addAttributes
         (mkDracoMesh (Some ((inject_Z (Z.of_nat (length (map toUint32 indicesData))) / 3)%Q,
                             map toUint32 indicesData)) [], []) (attributes p) (gltf s)
       = (Return (mesh, attributeToId), gltf s))
    ∧ (0 < encodedLength (EncodeMeshToDracoBuffer mesh
             (encoderCalls o box (bool_decide (is_Some (targets p))))))%Z
    ∧ addCompressionExtensionToPrimitive r attributeToId
        (encodedLength (EncodeMeshToDracoBuffer mesh
           (encoderCalls o box (bool_decide (is_Some (targets p))))))
        (encodedDataOf (EncodeMeshToDracoBuffer mesh
           (encoderCalls o box (bool_decide (is_Some (targets p))))))
        (GetNumberOfEncodedPoints (EncodeMeshToDracoBuffer mesh
           (encoderCalls o box (bool_decide (is_Some (targets p))))))
        (GetNumberOfEncodedFaces (EncodeMeshToDracoBuffer mesh
           (encoderCalls o box (bool_decide (is_Some (targets p))))))
        (gltf s)
      = (Return tt, gltf s').
Proof.
  intros Hrun. unfold encodePrimitive in Hrun.
  destruct options as [[[dopts|]]|]; try discriminate.
  apply bind_Return in Hrun as ([mesh attributeToId] & s1 & H1 & Hrun).
  apply onGltf_Return in H1 as (H1 & _).
  rewrite bind_get, bind_run in H1. unfold lift in H1.
  destruct (readAccessorPacked _ _) as [indicesData|] eqn:Eread; [|discriminate].
  pose proof (addAttributes_state (attributes p)
                (mkDracoMesh (Some ((inject_Z (Z.of_nat (length (map toUint32 indicesData))) / 3)%Q,
                                    map toUint32 indicesData)) [], []) (gltf s)) as Hst.
  rewrite H1 in Hst. cbn [snd] in Hst.
  rewrite bind_modify in Hrun.
  destruct (Z.leb_spec (encodedLength (EncodeMeshToDracoBuffer mesh
              (encoderCalls o box (bool_decide (is_Some (targets p)))))) 0)
    as [_|Hpos]; [discriminate|].
  apply onGltf_Return in Hrun as (Hrun & _). cbn [gltf logEncode] in Hrun.
  rewrite Hst in Hrun. exists mesh, attributeToId, indicesData.
  split; [split; [done|by rewrite H1, Hst]|]. split; [done|]. exact Hrun.
Qed.

(** X13.  When the callback has compressed a primitive, the attribute
    mapping of its extension record lists exactly the semantics of the
    primitive's attributes, in their order, and none of the ids it gives is
    the -1 with which the mesh builder reports a failure.  Assumed of
    [replaceWithDecompressedPrimitive], which is not among the sources: it
    hands the meshes back as they were (it may rewrite accessors). *)
Theorem X13_extension_lists_the_semantics_of_the_primitive
    (options : option Options) (o : DracoOptions) (box : option (Vec3 * number))
    (hashValue : string) (r : PrimitiveRef) (p : Primitive) (indicesId : nat)
    (s s' : PassState) :
  leavesPrimitivesAlone replaceWithDecompressedPrimitive →
  getPrimitive (gltf s) r = Some p →
  NoDup (keys (attributes p)) →
  encodePrimitive options o box hashValue r p indicesId s = (Return tt, s') →
  ∃ p' d,
    getPrimitive (gltf s') r = Some p'
    ∧ dracoExtensionOf p' = Some d
    ∧ keys (attributes p') = keys (attributes p)
    ∧ keys (ext_attributes d) = keys (attributes p')
    ∧ ∀ semantic id, lookupKey (ext_attributes d) semantic = Some id → id ≠ (-1)%Z.
Proof.
  intros Hh Hp Hnd Hrun.
  apply encodePrimitive_inside
    in Hrun as (mesh & ids & indicesData & [_ Hadd] & Hpos & Hrun).
  apply addAttributes_Return in Hadd as [Hk Hl]; [|done].
  destruct (addCompressionExtensionToPrimitive_Return _ _ _ _ _ _ _ _ _ Hp Hnd Hrun)
    as (g1 & p' & d & C0 & C1 & _ & C3 & _ & _ & C5 & -> & _).
  exists p', (mkDracoExtension (length (bufferViews (gltf s))) ids).
  split; [by rewrite C0, (getPrimitive_meshes g1 _ r (Hh _ _ _ _))|].
  split; [done|]. split; [done|]. cbn [ext_attributes].
  split; [by rewrite Hk, C3|].
  intros semantic id Hid. by destruct (Hl _ _ Hid).
Qed.

End ExtensionRecord.

Section WayBack.
Import CompressDracoMeshes.
Context {collaborators : Collaborators}.
Context {decoder : DecompressDracoMeshes.Collaborators}.

(** X14.  The bytes find their way back.  Say the callback of the compress
    pass has compressed a primitive, having built the mesh [mesh] and the
    attribute mapping [attributeToId] from it and obtained [e] from the
    encoder.  Then the decompress callback, run on that primitive in the
    resulting asset, reads back through the extension record, its
    bufferView and its buffer a payload of exactly [encodedLength e] bytes,
    byte [i] being the low eight bits of what the encoder's array holds at
    [i], and proceeds to decode it with that attribute mapping.  Assumed of
    [replaceWithDecompressedPrimitive], which is not among the sources: it
    hands the meshes, bufferViews and buffers back as they were (it may
    rewrite accessors). *)
Theorem X14_decoder_is_handed_the_bytes_of_the_encoder
    (options : option Options) (o : DracoOptions) (box : option (Vec3 * number))
    (hashValue : string) (r : PrimitiveRef) (p : Primitive) (indicesId : nat)
    (s s' : PassState) (indicesData : list Q) (mesh : DracoMesh)
    (attributeToId : object Z) (e : EncodedMesh) :
  leavesPayloadAlone replaceWithDecompressedPrimitive →
  getPrimitive (gltf s) r = Some p →
  NoDup (keys (attributes p)) →
  unsupportedMode p = false →
  readAccessorPacked (gltf s) (accessors (gltf s) !! indicesId) = Return indicesData →
  (addAttributes
     (mkDracoMesh (Some ((inject_Z (Z.of_nat (length (map toUint32 indicesData))) / 3)%Q,
                         map toUint32 indicesData)) [], [])
     (attributes p) (gltf s)).1 = Return (mesh, attributeToId) →
  e = EncodeMeshToDracoBuffer mesh
        (encoderCalls o box (bool_decide (is_Some (targets p)))) →
  encodePrimitive options o box hashValue r p indicesId s = (Return tt, s') →
  ∃ payload,
    Z.of_nat (length payload) = encodedLength e
    ∧ (∀ i, (i < length payload)%nat →
            payload !! i = Some (GetValue e i mod 256)%Z)
    ∧ DecompressDracoMeshes.decompressPrimitive r (gltf s')
      = (DecompressDracoMeshes.decmopressDracoMesh r
           (DecompressDracoMeshes.GetEncodedGeometryType payload (encodedLength e))
           (payload, encodedLength e)
           (mkDracoExtension (length (bufferViews (gltf s))) attributeToId) ;;;
         DecompressDracoMeshes.removePrimitiveExtension r ;;;
         modify (fun g => removeExtensionsUsed g "KHR_draco_mesh_compression"))
          (gltf s').
Proof.
  intros Hh Hp Hnd Hmode Hread Hmesh -> Hrun.
  apply encodePrimitive_inside in Hrun as (mesh' & ids & indicesData' & Hadd & Hpos & Hrun).
  assert (Hsame : indicesData' = indicesData ∧ mesh' = mesh ∧ ids = attributeToId).
  { destruct Hadd as [Hread' Hadd]. rewrite Hread in Hread'. injection Hread' as <-.
    rewrite Hadd in Hmesh. by injection Hmesh as -> ->. }
  destruct Hsame as (-> & -> & ->). destruct Hadd as [_ Hadd].
  set (e := EncodeMeshToDracoBuffer mesh _) in *.
  destruct (addCompressionExtensionToPrimitive_Return _ _ _ _ _ _ _ _ _ Hp Hnd Hrun)
    as (g1 & p' & d & C0 & C1 & _ & _ & _ & Cm & C5 & -> & C7 & C8).
  destruct (Hh g1 r (GetNumberOfEncodedPoints e) (GetNumberOfEncodedFaces e))
    as (Em & Ev & Eb).
  rewrite <- C0 in Em, Ev, Eb.
  exists (encodedDataOf e).
  split; [by apply encodedDataOf_length|]. split.
  { intros i Hi. unfold encodedDataOf in *. rewrite length_map, length_seq in Hi.
    rewrite list_lookup_fmap, lookup_seq_lt by done. done. }
  unfold DecompressDracoMeshes.decompressPrimitive.
  rewrite bind_run, primitiveAt_run, (getPrimitive_meshes g1 _ r Em), C1.
  unfold unsupportedMode in Hmode. rewrite Cm.
  replace (match mode p with Some m => negb (m =? 4)%Z | None => false end) with false
    by (by destruct (mode p)).
  rewrite C5, bind_get. cbn [ext_bufferView].
  rewrite Ev, C7, lookup_app_r, Nat.sub_diag by done.
  cbn [lookup list_lookup bv_buffer bv_byteOffset bv_byteLength].
  rewrite Eb, C8, lookup_app_r, Nat.sub_diag by done.
  cbn [lookup list_lookup buf_source buf_byteLength].
  unfold DecompressDracoMeshes.slice. rewrite drop_0.
  rewrite <- (encodedDataOf_length e Hpos), Nat2Z.id, firstn_all.
  rewrite (encodedDataOf_length e Hpos). reflexivity.
Qed.

End WayBack.

Lemma X11_witness_mixed_asset :
  grownFrom Samples.mixedAsset (CompressDracoMeshes.gltf Samples.walkedState).
Proof.
  apply (@X11_compress_walk_only_appends Samples.countingEncoder
           (Some Samples.defaultOptions) CompressDracoMeshes.defaults None
           (CompressDracoMeshes.initialState Samples.mixedAsset)).
  intros g r n m. repeat split; reflexivity.
Defined.

Lemma X12_witness_mixed_asset :
  length (buffers (CompressDracoMeshes.gltf Samples.walkedState))
  = (length (buffers Samples.mixedAsset)
     + length (CompressDracoMeshes.encoded Samples.walkedState))%nat
  ∧ length (bufferViews (CompressDracoMeshes.gltf Samples.walkedState))
    = (length (bufferViews Samples.mixedAsset)
       + length (CompressDracoMeshes.encoded Samples.walkedState))%nat.
Proof.
  apply (@X12_one_buffer_per_encoder_run Samples.countingEncoder
           (Some Samples.defaultOptions) CompressDracoMeshes.defaults None).
  - intros g r n m. repeat split; reflexivity.
  - vm_compute. reflexivity.
Defined.

Lemma X13_witness_triangle :
  ∃ p' d,
    getPrimitive (CompressDracoMeshes.gltf Samples.recountedState) (0, 0) = Some p'
    ∧ dracoExtensionOf p' = Some d
    ∧ keys (attributes p') = keys (attributes Samples.triangle)
    ∧ keys (ext_attributes d) = keys (attributes p')
    ∧ ∀ semantic id, lookupKey (ext_attributes d) semantic = Some id → id ≠ (-1)%Z.
Proof.
  apply (@X13_extension_lists_the_semantics_of_the_primitive Samples.recountingEncoder
           (Some Samples.defaultOptions) CompressDracoMeshes.defaults None
           "iPOSITION" (0, 0) Samples.triangle 0
           (CompressDracoMeshes.initialState Samples.mixedAsset)
           Samples.recountedState).
  - intros g r n m. simpl. unfold Samples.writeCounts.
    destruct (getPrimitive g r); reflexivity.
  - reflexivity.
  - apply NoDup_singleton.
  - vm_compute. reflexivity.
Defined.

Lemma X14_witness_triangle :
  ∃ payload,
    Z.of_nat (length payload) = 3%Z
    ∧ (∀ i, (i < length payload)%nat →
            payload !! i = Some (Z.of_nat (i + 7) mod 256)%Z)
    ∧ DecompressDracoMeshes.decompressPrimitive (collaborators := Samples.fixedDecoder)
        (0, 0) (CompressDracoMeshes.gltf Samples.recountedState)
      = (DecompressDracoMeshes.decmopressDracoMesh (collaborators := Samples.fixedDecoder)
           (0, 0) 1 (payload, 3%Z) (mkDracoExtension 1 [("POSITION", 0%Z)]) ;;;
         DecompressDracoMeshes.removePrimitiveExtension (0, 0) ;;;
         modify (fun g => removeExtensionsUsed g "KHR_draco_mesh_compression"))
          (CompressDracoMeshes.gltf Samples.recountedState).
Proof.
  apply (@X14_decoder_is_handed_the_bytes_of_the_encoder Samples.recountingEncoder
           Samples.fixedDecoder
           (Some Samples.defaultOptions) CompressDracoMeshes.defaults None
           "iPOSITION" (0, 0) Samples.triangle 0
           (CompressDracoMeshes.initialState Samples.mixedAsset)
           Samples.recountedState [0; 1; 2]%Q
           (CompressDracoMeshes.mkDracoMesh
              (Some ((inject_Z (Z.of_nat 3) / 3)%Q, [0; 1; 2]%Z))
              [CompressDracoMeshes.mkAddedAttribute "AddFloatAttribute"
                 CompressDracoMeshes.POSITION 3 1 [0; 1; 2]%Q])
           [("POSITION", 0%Z)]
           (CompressDracoMeshes.mkEncodedMesh 3 (fun i => Z.of_nat (i + 7)) 5 1)).
  - intros g r n m. simpl. unfold Samples.writeCounts.
    destruct (getPrimitive g r); repeat split; reflexivity.
  - reflexivity.
  - apply NoDup_singleton.
  - reflexivity.
  - reflexivity.
  - vm_compute. reflexivity.
  - reflexivity.
  - vm_compute. reflexivity.
Defined.

(** ** Decompression: indices, failures, and what stays *)

Section DecodedIndices.
Import DecompressDracoMeshes.
Context {collaborators : Collaborators}.

Lemma store_next (k : TypedArrayKind) (pre rest : list Z) (v : Z) (i : nat) :
  i = length pre →
  store k (pre ++ 0%Z :: rest) i v = (pre ++ [pattern k v]) ++ rest.
Proof.
  intros ->. unfold store. rewrite insert_app_r_alt by done.
  rewrite Nat.sub_diag. cbn. by rewrite <- app_assoc.
Qed.

Lemma faces_stored (k : TypedArrayKind) (dracoGeometry : DracoGeometry)
    (n m : nat) (pre : list Z) :
  length pre = (m * 3)%nat →
  fold_left (fun indices i =>
      let '(a, b, c) := GetFaceFromMesh dracoGeometry i in
      let index := (i * 3)%nat in
      store k (store k (store k indices index a) (index + 1) b) (index + 2) c)
    (seq m n) (map (pattern k) pre ++ newTypedArray (n * 3))
  = map (pattern k) (pre ++ faceIndices dracoGeometry m n).
Proof.
  revert m pre. induction n as [|n IH]; intros m pre Hlen.
  { unfold faceIndices. simpl. by rewrite !app_nil_r. }
  unfold faceIndices. cbn [seq fold_left flat_map Nat.mul Nat.add newTypedArray repeat].
  destruct (GetFaceFromMesh dracoGeometry m) as [[a b] c] eqn:Ef.
  rewrite (store_next k (map (pattern k) pre)) by (by rewrite length_map).
  rewrite (store_next k (map (pattern k) pre ++ [pattern k a]))
    by (rewrite length_app, length_map; simpl; lia).
  rewrite (store_next k ((map (pattern k) pre ++ [pattern k a]) ++ [pattern k b]))
    by (rewrite !length_app, length_map; simpl; lia).
  specialize (IH (S m) (pre ++ [a; b; c])).
  rewrite length_app in IH. simpl in IH. specialize (IH ltac:(lia)).
  rewrite map_app in IH. simpl in IH.
  rewrite <- !app_assoc. simpl.
  rewrite <- !app_assoc in IH. simpl in IH.
  unfold newTypedArray in IH. rewrite IH. unfold faceIndices. done.
Qed.

Lemma indexWidth_kind (componentType : Z) :
  BYTES_PER_ELEMENT (indicesArrayKind componentType) = indexWidth componentType.
Proof.
  unfold indicesArrayKind, indexWidth.
  repeat match goal with
         | |- context [(?a =? ?b)%Z] => destruct (Z.eqb_spec a b)
         end;
    repeat case_bool_decide; try reflexivity; exfalso; lia.
Qed.

Lemma getIndicesBuffer_faces (accessor : Accessor) (dracoGeometry : DracoGeometry)
    (numFaces : nat) :
  holdsValues (indexWidth (acc_componentType accessor))
              (faceIndices dracoGeometry 0 numFaces)
              (getIndicesBuffer accessor dracoGeometry numFaces).
Proof.
  unfold getIndicesBuffer. cbv zeta.
  pose proof (faces_stored (indicesArrayKind (acc_componentType accessor))
                dracoGeometry numFaces 0 [] eq_refl) as Hs.
  simpl in Hs. rewrite Hs, <- indexWidth_kind. apply holdsValues_bytesOf.
Qed.

Lemma faceIndices_length (dracoGeometry : DracoGeometry) (m n : nat) :
  length (faceIndices dracoGeometry m n) = (n * 3)%nat.
Proof.
  unfold faceIndices. revert m. induction n as [|n IH]; intros m; simpl; [done|].
  destruct (GetFaceFromMesh dracoGeometry m) as [[a b] c]. simpl. by rewrite IH.
Qed.

(** X15.  A normal return of [decmopressDracoMesh] leaves the primitive's
    index accessor pointing, at byteOffset 0, at the first bufferView the
    call creates; that bufferView spans all of the first buffer the call
    creates, and the buffer holds the three indices of each decoded face, in
    face order, each on the bytes of the accessor's component type (one
    byte for 5120 and 5121, two for 5122 and 5123, four for any other),
    least significant byte first.  A point cloud yields an empty buffer.
    The accessor's [count] is left as it was. *)
Theorem X15_decoded_index_accessor (r : PrimitiveRef) (geometryType : Z)
    (dracoBuffer : list Z * Z) (dracoExtension : DracoExtension) (g g' : Gltf)
    (p : Primitive) (indicesId : nat) (a : Accessor) :
  getPrimitive g r = Some p →
  indices p = Some indicesId →
  accessors g !! indicesId = Some a →
  (∀ semantic, semantic ∈ keys (ext_attributes dracoExtension) →
               lookupKey (attributes p) semantic ≠ Some indicesId) →
  decmopressDracoMesh r geometryType dracoBuffer dracoExtension g = (Return tt, g') →
  ∃ a' bufferView buffer,
    accessors g' !! indicesId = Some a'
    ∧ acc_bufferView a' = Some (length (bufferViews g))
    ∧ acc_byteOffset a' = Some 0%nat
    ∧ acc_count a' = acc_count a
    ∧ sameDescription a a'
    ∧ bufferViews g' !! length (bufferViews g) = Some bufferView
    ∧ bv_byteOffset bufferView = 0%nat
    ∧ bv_byteLength bufferView = Z.of_nat (length (buf_source buffer))
    ∧ bv_buffer bufferView = length (buffers g)
    ∧ buffers g' !! length (buffers g) = Some buffer
    ∧ holdsValues (indexWidth (acc_componentType a))
        (faceIndices (geometry (decodeBuffer geometryType dracoBuffer)) 0
           (if (geometryType =? TRIANGULAR_MESH)%Z
            then num_faces (geometry (decodeBuffer geometryType dracoBuffer))
            else 0))
        (buf_source buffer)
    ∧ length (buf_source buffer)
      = ((if (geometryType =? TRIANGULAR_MESH)%Z
          then num_faces (geometry (decodeBuffer geometryType dracoBuffer))
          else 0) * 3
         * indexWidth (acc_componentType a))%nat.
Proof.
  intros Hp Hi Ha Hothers Hrun.
  unfold decmopressDracoMesh in Hrun. cbv zeta in Hrun.
  destruct (_ || _); [discriminate|]. destruct (_ =? -1)%Z; [discriminate|].
  rewrite bind_run, primitiveAt_run, Hp, bind_get, Hi in Hrun. cbn [mbind option_bind] in Hrun.
  rewrite Ha in Hrun. cbn [fmap option_fmap option_map] in Hrun.
  rewrite bind_run, addBufferToGltf_run, bind_run in Hrun.
  set (numFaces := if (geometryType =? TRIANGULAR_MESH)%Z then _ else _) in *.
  pose proof (getIndicesBuffer_faces a (geometry (decodeBuffer geometryType dracoBuffer))
                numFaces) as Hholds.
  set (bytes := getIndicesBuffer a _ numFaces) in *.
  set (g1 := set_bufferViews _ _) in *.
  rewrite modifyAccessor_run in Hrun.
  assert (Ha1 : accessors g1 !! indicesId = Some a) by done.
  rewrite Ha1 in Hrun.
  set (g2 := set_accessors g1 _) in *.
  assert (Hp2 : getPrimitive g2 r = Some p).
  { by rewrite (getPrimitive_meshes g g2 r eq_refl). }
  destruct (decode_loop _ _ _ _ _ _ _ Hp2 Hrun) as (Pbv & Pbuf & Hkeep & _).
  exists (pointAt (length (bufferViews g)) a),
    (mkBufferView (length (buffers g)) 0 (Z.of_nat (length bytes))),
    (mkBuffer (Z.of_nat (length bytes)) bytes).
  split.
  { rewrite (Hkeep indicesId Hothers). subst g2. cbn [accessors set_accessors].
    apply list_lookup_insert_eq. by eapply lookup_lt_Some. }
  split; [done|]. split; [done|]. split; [done|]. split; [by repeat split|].
  split.
  { eapply prefix_lookup_Some; [|exact Pbv]. subst g2 g1. simpl.
    rewrite lookup_app_r by done. by rewrite Nat.sub_diag. }
  split; [done|]. split; [done|]. split; [done|].
  split.
  { eapply prefix_lookup_Some; [|exact Pbuf]. subst g2 g1. simpl.
    rewrite lookup_app_r by done. by rewrite Nat.sub_diag. }
  cbn [buf_source]. split; [done|].
  destruct Hholds as (-> & _). by rewrite faceIndices_length.
Qed.

End DecodedIndices.

Lemma X15_witness_triangle_indices :
  ∃ a' bufferView buffer,
    accessors Samples.decodedAsset !! 0%nat = Some a'
    ∧ acc_bufferView a' = Some 1%nat
    ∧ acc_byteOffset a' = Some 0%nat
    ∧ acc_count a' = 3%nat
    ∧ sameDescription (withoutBufferView Samples.indexAccessor) a'
    ∧ bufferViews Samples.decodedAsset !! 1%nat = Some bufferView
    ∧ bv_byteOffset bufferView = 0%nat
    ∧ bv_byteLength bufferView = Z.of_nat (length (buf_source buffer))
    ∧ bv_buffer bufferView = 1%nat
    ∧ buffers Samples.decodedAsset !! 1%nat = Some buffer
    ∧ holdsValues 2 [0; 1; 2]%Z (buf_source buffer)
    ∧ length (buf_source buffer) = (1 * 3 * 2)%nat.
Proof.
  apply (@X15_decoded_index_accessor Samples.fixedDecoder (0, 0) 1
           ([0; 1; 2]%Z, 3%Z) Samples.payloadRecord Samples.compressedAsset
           Samples.decodedAsset Samples.compressedTriangle 0
           (withoutBufferView Samples.indexAccessor)).
  - reflexivity.
  - reflexivity.
  - reflexivity.
  - intros semantic Hin. apply list_elem_of_singleton in Hin. subst semantic.
    discriminate.
  - vm_compute. reflexivity.
Defined.

Section DecompressFrame.
Import DecompressDracoMeshes.
Context {collaborators : Collaborators}.

Lemma sameDescription_refl (a : Accessor) : sameDescription a a.
Proof. by repeat split. Qed.

Lemma sameDescription_trans (a b c : Accessor) :
  sameDescription a b → sameDescription b c → sameDescription a c.
Proof.
  intros (A1 & A2 & A3 & A4 & A5) (B1 & B2 & B3 & B4 & B5). repeat split; congruence.
Qed.

Lemma redirected_refl (g : Gltf) : redirected g g.
Proof.
  split; [|done]. apply Forall_Forall2_diag, Forall_forall.
  intros a _. apply sameDescription_refl.
Qed.

Lemma redirected_trans (x y z : Gltf) : redirected x y → redirected y z → redirected x z.
Proof.
  intros (A1 & B1 & C1) (A2 & B2 & C2). split; [|split; by etrans].
  eapply Forall2_trans; [|exact A1|exact A2]. apply sameDescription_trans.
Qed.

Lemma redirected_arrays (g g' : Gltf) :
  accessors g' = accessors g → bufferViews g' = bufferViews g →
  buffers g' = buffers g → redirected g g'.
Proof.
  intros Ea Eb Ec. pose proof (redirected_refl g) as H.
  unfold redirected in *. by rewrite Ea, Eb, Ec.
Qed.

Lemma addBufferToGltf_redirects (buffer : list Z) :
  stepsWithin redirected (addBufferToGltf buffer).
Proof.
  intros g. rewrite addBufferToGltf_run. cbn [snd].
  split; [apply (redirected_refl g)|]. split; by apply prefix_app_r.
Qed.

Lemma modifyAccessor_redirects (id : nat) (f : Accessor → Accessor) :
  (∀ a, sameDescription a (f a)) → stepsWithin redirected (modifyAccessor id f).
Proof.
  intros Hf g. rewrite modifyAccessor_run. cbn [snd].
  destruct (accessors g !! id) as [a|] eqn:Ea; [|apply redirected_refl].
  split; [|done]. cbn [accessors set_accessors].
  rewrite <- (list_insert_id (accessors g) id a Ea) at 1.
  apply Forall2_insert; [|apply Hf].
  apply Forall_Forall2_diag, Forall_forall. intros a0 _. apply sameDescription_refl.
Qed.

Lemma modifyPrimitive_redirects (r : PrimitiveRef) (f : Primitive → Primitive) :
  stepsWithin redirected (modifyPrimitive r f).
Proof.
  intros g. rewrite modifyPrimitive_run. cbn [snd].
  destruct (getPrimitive g r); [|apply redirected_refl].
  destruct (accessors_setPrimitive g r (f p)) as (Ea & Eb & Ec).
  by apply redirected_arrays.
Qed.

Lemma decodeAttribute_redirects (r : PrimitiveRef) (dracoGeometry : DracoGeometry)
    (numPoints : nat) (entry : string * Z) :
  stepsWithin redirected (decodeAttribute r dracoGeometry numPoints entry).
Proof.
  destruct entry as [semantic uniqueId]. unfold decodeAttribute.
  destruct (GetAttributeByUniqueId dracoGeometry uniqueId);
    [|apply (within_throw _ redirected_refl)].
  apply (within_bind _ redirected_trans); [apply addBufferToGltf_redirects|].
  intros bufferViewId.
  apply (within_bind _ redirected_trans); [apply (within_primitiveAt _ redirected_refl)|].
  intros p. intros g. rewrite bind_get.
  destruct (lookupKey (attributes p) semantic) as [gltfAttributeId|];
    [|apply redirected_refl].
  destruct (accessors g !! gltfAttributeId); [|apply redirected_refl].
  apply modifyAccessor_redirects. intros a0. by repeat split.
Qed.

Lemma decmopressDracoMesh_redirects (r : PrimitiveRef) (geometryType : Z)
    (dracoBuffer : list Z * Z) (dracoExtension : DracoExtension) :
  stepsWithin redirected (decmopressDracoMesh r geometryType dracoBuffer dracoExtension).
Proof.
  unfold decmopressDracoMesh. cbv zeta.
  destruct (_ || _); [apply (within_throw _ redirected_refl)|].
  destruct (_ =? -1)%Z; [apply (within_throw _ redirected_refl)|].
  apply (within_bind _ redirected_trans); [apply (within_primitiveAt _ redirected_refl)|].
  intros p g. rewrite bind_get.
  destruct (indices p ≫= _) as [[indicesId indicesAccessor]|]; [|apply redirected_refl].
  revert g. apply (within_bind _ redirected_trans); [apply addBufferToGltf_redirects|].
  intros bufferViewId.
  apply (within_bind _ redirected_trans).
  { apply modifyAccessor_redirects. intros a0. by repeat split. }
  intros _. apply (within_forEach _ redirected_refl redirected_trans).
  intros entry. apply decodeAttribute_redirects.
Qed.

Lemma decompressPrimitive_redirects (r : PrimitiveRef) :
  stepsWithin redirected (decompressPrimitive r).
Proof.
  unfold decompressPrimitive.
  apply (within_bind _ redirected_trans); [apply (within_primitiveAt _ redirected_refl)|].
  intros p.
  destruct (match mode p with Some m => _ | None => _ end);
    [apply (within_ret _ redirected_refl)|].
  destruct (dracoExtensionOf p) as [dracoExtension|];
    [|apply (within_ret _ redirected_refl)].
  intros g. rewrite bind_get.
  destruct (bufferViews g !! _) as [bufferView|]; [|apply redirected_refl].
  destruct (buffers g !! _) as [buffer|]; [|apply redirected_refl].
  revert g. apply (within_bind _ redirected_trans); [apply decmopressDracoMesh_redirects|].
  intros _. apply (within_bind _ redirected_trans).
  { unfold removePrimitiveExtension. apply modifyPrimitive_redirects. }
  intros _. apply within_modify. intros g. by apply redirected_arrays.
Qed.

(** X16.  Whatever its outcome, the mesh walk of the decompress pass
    neither adds nor removes an accessor, and what it changes of an accessor
    is at most its bufferView, byteOffset and count: componentType, type,
    min and max stay as they were.  BufferViews and buffers are only
    appended to, so the compressed payloads are all still in the asset when
    the walk ends. *)
Theorem X16_decompress_walk_redirects_accessors (g : Gltf) :
  redirected g (decompressMeshes g).2.
Proof.
  unfold decompressMeshes. rewrite bind_get.
  apply (within_forEach _ redirected_refl redirected_trans).
  intros r. apply decompressPrimitive_redirects.
Qed.

End DecompressFrame.

Section DecompressWalk.
Import DecompressDracoMeshes.
Context {collaborators : Collaborators}.

Lemma undecodable_later (g g' : Gltf) (d : DracoExtension) :
  redirected g g' → undecodable g d → undecodable g' d.
Proof.
  intros (_ & Pbv & Pbuf) (bufferView & buffer & Hbv & Hbuf & Hfail).
  exists bufferView, buffer.
  split; [by eapply prefix_lookup_Some|]. split; [by eapply prefix_lookup_Some|done].
Qed.

Lemma decompressPrimitive_undecodable (r : PrimitiveRef) (g : Gltf) (p : Primitive)
    (d : DracoExtension) :
  getPrimitive g r = Some p → triangleMode p → dracoExtensionOf p = Some d →
  undecodable g d →
  ∃ err, decompressPrimitive r g = (Throw err, g).
Proof.
  intros Hp Hmode Hd (bufferView & buffer & Hbv & Hbuf & Hfail).
  unfold decompressPrimitive. rewrite bind_run, primitiveAt_run, Hp.
  replace (match mode p with Some m => negb (m =? 4)%Z | None => false end) with false
    by (by destruct Hmode as [-> | ->]).
  rewrite Hd, bind_get, Hbv, Hbuf. cbv zeta in Hfail.
  rewrite bind_run. unfold decmopressDracoMesh. cbv zeta.
  destruct Hfail as [Hok|[Hptr|Hpos]].
  - rewrite Hok. cbn [negb orb]. eauto.
  - rewrite Hptr. rewrite orb_true_r. eauto.
  - destruct (_ || _); [eauto|]. rewrite Hpos. cbn. eauto.
Qed.

Lemma walk_undecodable (refs : list PrimitiveRef) (g0 g : Gltf) (r : PrimitiveRef)
    (p : Primitive) (d : DracoExtension) :
  r ∈ refs → redirected g0 g → getPrimitive g r = Some p → triangleMode p →
  dracoExtensionOf p = Some d → undecodable g0 d →
  ∃ err g', forEach refs decompressPrimitive g = (Throw err, g')
            ∧ getPrimitive g' r = Some p.
Proof.
  intros Hin Hred Hp Hmode Hd Hfail. revert g Hred Hp.
  induction refs as [|r1 refs IH]; intros g Hred Hp; [by apply elem_of_nil in Hin|].
  simpl. rewrite bind_run.
  destruct (decide (r1 = r)) as [->|Hne].
  - destruct (decompressPrimitive_undecodable r g p d Hp Hmode Hd) as [err ->];
      [by eapply undecodable_later|]. eauto.
  - apply elem_of_cons in Hin as [->|Hin]; [done|].
    pose proof (decompressPrimitive_sameOthers r1 g r (not_eq_sym Hne)) as Hsame.
    pose proof (decompressPrimitive_redirects r1 g) as Hred1.
    destruct (decompressPrimitive r1 g) as [[[]|err] g1]; cbn [snd] in *.
    + apply (IH Hin); [by eapply redirected_trans|by rewrite Hsame].
    + exists err, g1. by rewrite Hsame.
Qed.

(** X17.  When the payload of some primitive that the decompress pass takes
    up cannot be decoded -- the decoder reports a failure or a null
    geometry, or the geometry has no position attribute -- the pass as a
    whole ends in a throw, and that primitive is then exactly as it was,
    extension record included. *)
Theorem X17_undecodable_payload_aborts_the_pass (g : Gltf) (r : PrimitiveRef)
    (p : Primitive) (d : DracoExtension) :
  getPrimitive g r = Some p → triangleMode p → dracoExtensionOf p = Some d →
  undecodable g d →
  ∃ err g', decompressDracoMeshes g = (Throw err, g') ∧ getPrimitive g' r = Some p.
Proof.
  intros Hp Hmode Hd Hfail. unfold decompressDracoMeshes, decompressMeshes.
  rewrite bind_run, bind_get.
  destruct (walk_undecodable (primitiveRefs g) g g r p d) as (err & g' & -> & Hp');
    try done; [by eapply getPrimitive_primitiveRefs|apply redirected_refl|].
  eauto.
Qed.

Lemma removePrimitiveExtension_Return (r : PrimitiveRef) (g : Gltf) (p : Primitive)
    (d : DracoExtension) :
  getPrimitive g r = Some p → dracoExtensionOf p = Some d →
  ∃ p', getPrimitive (removePrimitiveExtension r g).2 r = Some p'
        ∧ decompressedFrom p p'.
Proof.
  intros Hp Hd. unfold removePrimitiveExtension. rewrite modifyPrimitive_run.
  cbn [snd]. rewrite Hp. unfold dracoExtensionOf in Hd.
  destruct (extensions p) as [e|] eqn:Ee; [|discriminate]. rewrite Hd.
  eexists. split; [by apply (getPrimitive_setPrimitive_eq _ _ p)|].
  unfold decompressedFrom, sameShape, otherExtensions, dracoExtensionOf.
  rewrite Ee. by destruct (ext_others e).
Qed.

Lemma decompressPrimitive_Return (r : PrimitiveRef) (g g' : Gltf) (p : Primitive) :
  decompressPrimitive r g = (Return tt, g') →
  getPrimitive g r = Some p → triangleMode p →
  ∃ p', getPrimitive g' r = Some p' ∧ decompressedFrom p p'.
Proof.
  intros Hrun Hp Hmode. unfold decompressPrimitive in Hrun.
  rewrite bind_run, primitiveAt_run, Hp in Hrun.
  replace (match mode p with Some m => negb (m =? 4)%Z | None => false end) with false
    in Hrun by (by destruct Hmode as [-> | ->]).
  destruct (dracoExtensionOf p) as [d|] eqn:Hd.
  2:{ injection Hrun as <-. exists p. split; [done|]. by repeat split. }
  rewrite bind_get in Hrun.
  destruct (bufferViews g !! _) as [bufferView|]; [|discriminate].
  destruct (buffers g !! _) as [buffer|]; [|discriminate].
  apply bind_Return in Hrun as ([] & g1 & H1 & Hrun).
  pose proof (decmopressDracoMesh_meshes r
                (GetEncodedGeometryType
                   (slice (buf_source buffer) (bv_byteOffset bufferView)
                      (bv_byteLength bufferView)) (buf_byteLength buffer))
                (slice (buf_source buffer) (bv_byteOffset bufferView)
                   (bv_byteLength bufferView), buf_byteLength buffer) d g) as Hm.
  rewrite H1 in Hm. cbn [snd] in Hm.
  apply bind_Return in Hrun as ([] & g2 & H2 & Hrun).
  unfold modify in Hrun. injection Hrun as <-.
  destruct (removePrimitiveExtension_Return r g1 p d) as (p' & Hp' & Hfrom); [|done|].
  { by rewrite (getPrimitive_meshes g g1 r Hm). }
  rewrite H2 in Hp'. cbn [snd] in Hp'.
  exists p'. split; [exact Hp'|done].
Qed.

Lemma walk_decompressed (refs : list PrimitiveRef) (g g' : Gltf) :
  NoDup refs →
  forEach refs decompressPrimitive g = (Return tt, g') →
  ∀ r p, getPrimitive g r = Some p →
         (r ∉ refs → getPrimitive g' r = Some p)
         ∧ (r ∈ refs → triangleMode p →
            ∃ p', getPrimitive g' r = Some p' ∧ decompressedFrom p p').
Proof.
  revert g. induction refs as [|r1 refs IH]; intros g Hnd Hrun r p Hp.
  { simpl in Hrun. injection Hrun as <-. split; [done|].
    intros Hin. by apply elem_of_nil in Hin. }
  apply NoDup_cons in Hnd as [Hr1 Hnd].
  simpl in Hrun. apply bind_Return in Hrun as ([] & g1 & H1 & Hrun).
  pose proof (decompressPrimitive_sameOthers r1 g) as Hsame.
  rewrite H1 in Hsame. cbn [snd] in Hsame.
  destruct (decide (r = r1)) as [->|Hne].
  - split; [intros Hnot; exfalso; apply Hnot; left|]. intros _ Hmode.
    destruct (decompressPrimitive_Return r1 g g1 p H1 Hp Hmode) as (p' & Hp' & Hfrom).
    exists p'. split; [|done]. by apply (IH g1 Hnd Hrun r1 p' Hp').
  - specialize (IH g1 Hnd Hrun r p). rewrite (Hsame r Hne) in IH.
    destruct (IH Hp) as [IH1 IH2]. split.
    + intros Hnot. apply IH1. intros Hin. apply Hnot. by right.
    + intros [->|Hin]%elem_of_cons; [done|]. by apply IH2.
Qed.

(** X18.  When the mesh walk of the decompress pass returns normally, every
    primitive whose mode is undefined or 4 is without a Draco record and is
    otherwise the primitive it was: same attribute and index references
    (the decoded data is put behind the accessors the primitive names
    already), same mode, targets and material, same other extensions. *)
Theorem X18_decompressed_primitive_keeps_its_references (g g' : Gltf)
    (r : PrimitiveRef) (p : Primitive) :
  decompressMeshes g = (Return tt, g') →
  getPrimitive g r = Some p → triangleMode p →
  ∃ p', getPrimitive g' r = Some p' ∧ decompressedFrom p p'.
Proof.
  intros Hrun Hp Hmode. unfold decompressMeshes in Hrun. rewrite bind_get in Hrun.
  apply (walk_decompressed _ _ _ (primitiveRefsFrom_NoDup _ 0) Hrun r p Hp);
    [|done]. by eapply getPrimitive_primitiveRefs.
Qed.

Lemma primitiveRefsFrom_valid (ms : list Mesh) (mi : nat) (r : PrimitiveRef) :
  r ∈ primitiveRefsFrom mi ms →
  ∃ k m, r.1 = (mi + k)%nat ∧ ms !! k = Some m ∧ is_Some (primitives m !! r.2).
Proof.
  revert mi. induction ms as [|m ms IH]; intros mi; simpl.
  - intros Hr. by apply elem_of_nil in Hr.
  - intros [Hr|Hr]%elem_of_app.
    + unfold meshRefs in Hr. apply list_elem_of_fmap in Hr as (pi & -> & Hpi).
      apply elem_of_seq in Hpi. exists 0%nat, m. simpl.
      split; [lia|]. split; [done|]. apply lookup_lt_is_Some. lia.
    + apply IH in Hr as (k & m' & E & Hk & Hp). exists (S k), m'.
      split; [lia|done].
Qed.

Lemma primitiveRefs_valid (g : Gltf) (r : PrimitiveRef) :
  r ∈ primitiveRefs g → is_Some (getPrimitive g r).
Proof.
  intros Hr. apply primitiveRefsFrom_valid in Hr as (k & m & E & Hk & Hp).
  unfold getPrimitive. simpl in E. by rewrite E, Hk.
Qed.

(** X19.  On an asset none of whose primitives carries a Draco record the
    decompress pass decodes nothing and changes nothing of its own: it
    returns what [removeUnusedElements] makes of the asset as passed in. *)
Theorem X19_asset_without_draco_records_is_left_alone (g : Gltf) :
  (∀ r p, getPrimitive g r = Some p → dracoExtensionOf p = None) →
  decompressDracoMeshes g = (Return tt, removeUnusedElements g).
Proof.
  intros Hnone. unfold decompressDracoMeshes, decompressMeshes.
  rewrite bind_run, bind_get, forEach_fixed; [done|].
  intros r Hr. destruct (primitiveRefs_valid g r Hr) as [p Hp].
  unfold decompressPrimitive. rewrite bind_run, primitiveAt_run, Hp.
  destruct (match mode p with Some m => _ | None => _ end); [done|].
  by rewrite (Hnone r p Hp).
Qed.

End DecompressWalk.

Lemma X17_witness_corrupt_payload :
  ∃ err g',
    DecompressDracoMeshes.decompressDracoMeshes (collaborators := Samples.failingDecoder)
      Samples.compressedAsset = (Throw err, g')
    ∧ getPrimitive g' (0, 0) = Some Samples.compressedTriangle.
Proof.
  apply (@X17_undecodable_payload_aborts_the_pass Samples.failingDecoder
           Samples.compressedAsset (0, 0) Samples.compressedTriangle
           Samples.payloadRecord).
  - reflexivity.
  - right. reflexivity.
  - reflexivity.
  - exists (mkBufferView 0 0 3), (mkBuffer 3 [0; 1; 2]%Z).
    split; [reflexivity|]. split; [reflexivity|]. left. reflexivity.
Defined.

Lemma X18_witness_compressed_triangle :
  ∃ p', getPrimitive Samples.decompressedAsset (0, 0) = Some p'
        ∧ decompressedFrom Samples.compressedTriangle p'.
Proof.
  apply (@X18_decompressed_primitive_keeps_its_references Samples.fixedDecoder
           Samples.compressedAsset Samples.decompressedAsset (0, 0)
           Samples.compressedTriangle).
  - vm_compute. reflexivity.
  - reflexivity.
  - right. reflexivity.
Defined.

Lemma X19_witness_uncompressed_asset :
  DecompressDracoMeshes.decompressDracoMeshes (collaborators := Samples.fixedDecoder)
    Samples.mixedAsset = (Return tt, Samples.mixedAsset).
Proof.
  apply (@X19_asset_without_draco_records_is_left_alone Samples.fixedDecoder
           Samples.mixedAsset).
  intros [[|mi] [|[|[|pi]]]] p Hp; vm_compute in Hp; try discriminate;
    injection Hp as <-; reflexivity.
Defined.

(** ** Animations: extraction *)

Section Extraction.
Import CompressDracoAnimations.
Context {collaborators : Collaborators}.

Lemma entryOf_above (ea : Extracted) (i : nat) :
  Forall (lt i) (map fst ea) → entryOf ea i = None.
Proof.
  induction ea as [|[k e] ea IH]; simpl; [done|].
  intros [Hk Hrest]%Forall_cons. destruct (decide (k = i)); [lia|]. by apply IH.
Qed.

Lemma keys_extract (ea : Extracted) (i o x : nat) :
  x ∈ map fst (extract ea i o) → x = i ∨ x ∈ map fst ea.
Proof.
  induction ea as [|[k e] ea IH]; simpl.
  - intros Hx. apply list_elem_of_singleton in Hx. by left.
  - destruct (decide (k = i)) as [->|Hne]; simpl; [by right|].
    destruct (decide (i < k)%nat); simpl.
    + intros [->|Hx]%elem_of_cons; [by left|by right].
    + intros [->|Hx]%elem_of_cons; [right; left|].
      destruct (IH Hx) as [->|Hin]; [by left|right; by right].
Qed.

Lemma ascending_extract (ea : Extracted) (i o : nat) :
  ascending (map fst ea) → ascending (map fst (extract ea i o)).
Proof.
  induction ea as [|[k e] ea IH]; simpl; [done|].
  intros [Hk Hasc]. destruct (decide (k = i)) as [->|Hne]; simpl; [done|].
  destruct (decide (i < k)%nat) as [Hlt|Hge]; simpl.
  - split; [|done]. constructor; [done|].
    eapply Forall_impl; [exact Hk|]. simpl. intros x Hx. lia.
  - split; [|by apply IH]. apply Forall_forall. intros x Hx.
    apply keys_extract in Hx as [->|Hx]; [lia|].
    by apply (proj1 (Forall_forall _ _) Hk).
Qed.

Lemma entryOf_extract (ea : Extracted) (i o i' : nat) :
  ascending (map fst ea) →
  entryOf (extract ea i o) i'
  = if decide (i' = i) then Some (withOutput (entryOf ea i) i o) else entryOf ea i'.
Proof.
  induction ea as [|[k e] ea IH]; simpl.
  - intros _. destruct (decide (i = i')) as [->|Hne].
    + by rewrite decide_True.
    + by rewrite decide_False by done.
  - intros [Hk Hasc]. destruct (decide (k = i)) as [->|Hne]; simpl.
    + destruct (decide (i = i')) as [->|Hne']; [by rewrite decide_True|].
      by rewrite decide_False by done.
    + destruct (decide (i < k)%nat) as [Hlt|Hge]; simpl.
      * destruct (decide (i = i')) as [->|Hne'].
        -- rewrite decide_True by done. rewrite entryOf_above; [done|].
           eapply Forall_impl; [exact Hk|]. simpl. intros x Hx. lia.
        -- by rewrite (decide_False (P := i' = i)) by done.
      * rewrite (IH Hasc). destruct (decide (k = i')) as [->|Hne'];
          [by rewrite decide_False by done|done].
Qed.

Lemma outputsOn_snoc (i : nat) (l : list Sampler) (s : Sampler) :
  outputsOn i (l ++ [s])
  = outputsOn i l ++ match (if decide (input s = Some i) then output s else None) with
                     | Some o => [o]
                     | None => []
                     end.
Proof.
  unfold outputsOn. rewrite omap_app. simpl.
  by destruct (if decide (input s = Some i) then output s else None).
Qed.

(** The invariant of the extraction loop: the entries met so far. *)
Lemma extractSamplers_entries (l seen : list Sampler) (ea0 ea : Extracted) (n0 n : nat) :
  ascending (map fst ea0) →
  (∀ i, entryOf ea0 i
        = match outputsOn i seen with
          | [] => None
          | outs => Some (mkCompressedAnimation i outs None None)
          end) →
  extractSamplers (ea0, n0) l = Return (ea, n) →
  n = (n0 + length l)%nat
  ∧ ascending (map fst ea)
  ∧ ∀ i, entryOf ea i
         = match outputsOn i (seen ++ l) with
           | [] => None
           | outs => Some (mkCompressedAnimation i outs None None)
           end.
Proof.
  revert seen ea0 n0. induction l as [|s l IH]; intros seen ea0 n0 Hasc Hent Hrun.
  { simpl in Hrun. injection Hrun as <- <-. rewrite app_nil_r. split; [simpl; lia|done]. }
  simpl in Hrun.
  destruct (input s) as [i|] eqn:Ei; [|discriminate].
  destruct (output s) as [o|] eqn:Eo; [|discriminate].
  destruct (interpolation s); [|discriminate].
  apply (IH (seen ++ [s])) in Hrun as (Hn & Hasc' & Hent').
  - split; [simpl; lia|]. split; [done|]. intros i'. rewrite Hent'.
    by rewrite <- app_assoc.
  - by apply ascending_extract.
  - intros i'. rewrite (entryOf_extract _ _ _ _ Hasc), outputsOn_snoc, Ei, Eo.
    destruct (decide (i' = i)) as [->|Hne].
    + rewrite decide_True by done. rewrite Hent.
      destruct (outputsOn i seen) as [|o1 outs]; simpl; [done|]. done.
    + rewrite decide_False by congruence. rewrite app_nil_r. apply Hent.
Qed.

Lemma entryOf_elem (ea : Extracted) (i : nat) (e : CompressedAnimation) :
  ascending (map fst ea) → (i, e) ∈ ea ↔ entryOf ea i = Some e.
Proof.
  induction ea as [|[k e0] ea IH]; simpl.
  - intros _. split; [intros H; by apply elem_of_nil in H|discriminate].
  - intros [Hk Hasc]. destruct (decide (k = i)) as [->|Hne].
    + split.
      * intros [[= ->]|Hin]%elem_of_cons; [done|].
        exfalso. assert (Hi : i ∈ map fst ea) by (apply list_elem_of_fmap; by exists (i, e)).
        apply (proj1 (Forall_forall _ _) Hk) in Hi. lia.
      * intros [= ->]. left.
    + rewrite <- (IH Hasc). split.
      * intros [[= -> ->]|Hin]%elem_of_cons; done.
      * intros Hin. by right.
Qed.

(** X20.  The extraction of lines 113-133 groups the samplers by their
    input accessor.  When it succeeds, it has counted every sampler; the
    timelines it has collected are keyed by pairwise different inputs, in
    ascending order; and there is a timeline for an input exactly when some
    sampler has that input, its outputs being those of the samplers with
    that input, in the order the samplers are met (a repeated output is
    listed again). *)
Theorem X20_samplers_are_grouped_by_input (l : list Sampler) (ea : Extracted)
    (n : nat) :
  extractSamplers ([], 0%nat) l = Return (ea, n) →
  n = length l
  ∧ ascending (map fst ea)
  ∧ ∀ i e, (i, e) ∈ ea
           ↔ outputsOn i l ≠ [] ∧ e = mkCompressedAnimation i (outputsOn i l) None None.
Proof.
  intros Hrun.
  apply (extractSamplers_entries l []) in Hrun as (Hn & Hasc & Hent); [|done|done].
  split; [done|]. split; [done|]. intros i e.
  rewrite (entryOf_elem _ _ _ Hasc), Hent. simpl.
  destruct (outputsOn i l) as [|o outs].
  - split; [discriminate|]. intros [Hne _]. done.
  - split; [intros [= <-]; done|]. intros [_ ->]. done.
Qed.

Lemma extractSamplers_malformed (l : list Sampler) (acc : Extracted * nat)
    (s : Sampler) :
  s ∈ l → malformed s →
  extractSamplers acc l = Throw "Error: Animation missing input/output."
  ∨ extractSamplers acc l = Throw "Error: Animation missing interpolation method.".
Proof.
  intros Hin Hbad. revert acc.
  induction l as [|s1 l IH]; intros [ea n]; [by apply elem_of_nil in Hin|].
  simpl. apply elem_of_cons in Hin as [<-|Hin].
  - destruct Hbad as [-> | [Ho | Hi]]; [by left| |].
    + rewrite Ho. destruct (input s); by left.
    + rewrite Hi. destruct (input s); [|by left]. destruct (output s); [by right|by left].
  - destruct (input s1); [|by left]. destruct (output s1); [|by left].
    destruct (interpolation s1); [|by right]. by apply IH.
Qed.

(** X21.  A sampler without input, without output or without interpolation
    makes the animation pass throw one of the two RuntimeErrors of lines
    115-121 while it is still collecting the timelines: the asset is
    exactly the one passed in. *)
Theorem X21_malformed_sampler_rejected_before_any_change (g : Gltf)
    (options : option Options) (s : Sampler) :
  s ∈ allSamplers g → malformed s →
  compressDracoAnimations g options
  = (Throw "Error: Animation missing input/output.", g)
  ∨ compressDracoAnimations g options
    = (Throw "Error: Animation missing interpolation method.", g).
Proof.
  intros Hin Hbad. unfold compressDracoAnimations.
  rewrite bind_get, bind_run. unfold lift.
  destruct (extractSamplers_malformed _ ([], 0%nat) s Hin Hbad) as [-> | ->];
    [by left|by right].
Qed.

End Extraction.

(** ** Animations: what the pass leaves alone *)

Section AnimationFrame.
Import CompressDracoAnimations.
Context {collaborators : Collaborators}.

Lemma animationFrame_refl (g : Gltf) : animationFrame g g.
Proof.
  split; [by repeat split|]. split; [done|].
  apply Forall_Forall2_diag, Forall_forall. intros a _.
  apply Forall_Forall2_diag, Forall_forall. done.
Qed.

Lemma animationFrame_trans (x y z : Gltf) :
  animationFrame x y → animationFrame y z → animationFrame x z.
Proof.
  intros ((A1 & B1 & C1) & M1 & S1) ((A2 & B2 & C2) & M2 & S2).
  split; [repeat split; by etrans|]. split; [congruence|].
  eapply Forall2_trans; [|exact S1|exact S2]. intros a b c Hab Hbc.
  eapply Forall2_trans; [|exact Hab|exact Hbc]. intros s1 s2 s3. congruence.
Qed.

Lemma addCompressedAnimation_frame (encodedLen : Z) (encodedData : list Z) :
  stepsWithin animationFrame (addCompressedAnimation encodedLen encodedData).
Proof.
  intros g. unfold addCompressedAnimation. rewrite bind_get. unfold addToArray.
  rewrite bind_put. cbn [ret snd].
  destruct (animationFrame_refl g) as (_ & Hm & Hs).
  split; [|split; [done|exact Hs]].
  split; [done|]. split; by apply prefix_app_r.
Qed.

Lemma removeDataAndReplaceAccessor_frame (oldAccessorId : nat) :
  stepsWithin animationFrame (removeDataAndReplaceAccessor oldAccessorId).
Proof.
  intros g. unfold removeDataAndReplaceAccessor. rewrite bind_get.
  destruct (accessors g !! oldAccessorId) as [old|]; [|apply animationFrame_refl].
  unfold addToArray. rewrite bind_put. cbn [ret snd].
  split; [split; [by apply prefix_app_r|done]|]. split; [done|].
  cbn [animations set_animations]. apply Forall2_fmap_r, Forall_Forall2_diag, Forall_forall.
  intros a _. cbn [samplers]. apply Forall2_fmap_r, Forall_Forall2_diag, Forall_forall.
  done.
Qed.

Lemma replaceOutputs_frame (outputs : list nat) (replacedAccessors : gmap nat nat) :
  stepsWithin animationFrame (replaceOutputs replacedAccessors outputs).
Proof.
  revert replacedAccessors. induction outputs as [|output rest IH];
    intros replacedAccessors; simpl.
  - apply (within_ret _ animationFrame_refl).
  - destruct (replacedAccessors !! output); [apply (within_throw _ animationFrame_refl)|].
    apply (within_bind _ animationFrame_trans); [apply removeDataAndReplaceAccessor_frame|].
    intros newAccessorId. apply (within_bind _ animationFrame_trans); [apply IH|].
    intros r. apply (within_ret _ animationFrame_refl).
Qed.

Lemma removeSamplerAccessorDataFrom_frame (ea : Extracted)
    (replacedAccessors : gmap nat nat) :
  stepsWithin animationFrame (removeSamplerAccessorDataFrom replacedAccessors ea).
Proof.
  revert replacedAccessors. induction ea as [|[i e] ea IH]; intros replacedAccessors; simpl.
  - apply (within_ret _ animationFrame_refl).
  - destruct (replacedAccessors !! i); [apply (within_throw _ animationFrame_refl)|].
    apply (within_bind _ animationFrame_trans); [apply removeDataAndReplaceAccessor_frame|].
    intros newAccessorId.
    apply (within_bind _ animationFrame_trans); [apply replaceOutputs_frame|].
    intros r. apply (within_bind _ animationFrame_trans); [apply IH|].
    intros rest'. apply (within_ret _ animationFrame_refl).
Qed.

Lemma encodeAnimation_frame (options : option Options) (entry : nat * CompressedAnimation) :
  stepsWithin animationFrame (encodeAnimation options entry).
Proof.
  destruct entry as [i e]. unfold encodeAnimation.
  intros g. rewrite bind_get. revert g.
  intros g. rewrite bind_run. unfold lift.
  destruct (readAccessorPacked g _) as [timestampsData|]; [|apply animationFrame_refl].
  rewrite bind_run.
  destruct (addAllKeyframes _ _ _ _ _) as [ka|]; [|apply animationFrame_refl].
  destruct (_ <=? _)%Z; [apply animationFrame_refl|].
  revert g. apply (within_bind _ animationFrame_trans); [apply addCompressedAnimation_frame|].
  intros bufferViewId. apply (within_ret _ animationFrame_refl).
Qed.

Lemma encodeAnimations_frame (options : option Options) (ea : Extracted) :
  stepsWithin animationFrame (encodeAnimations options ea).
Proof.
  induction ea as [|entry ea IH]; simpl; [apply (within_ret _ animationFrame_refl)|].
  apply (within_bind _ animationFrame_trans); [apply encodeAnimation_frame|].
  intros entry'. apply (within_bind _ animationFrame_trans); [apply IH|].
  intros rest'. apply (within_ret _ animationFrame_refl).
Qed.

(** X23.  Whatever its outcome, the animation pass leaves the meshes of the
    asset alone, only ever appends to its accessors, bufferViews and buffers
    (each element that was there is still there, unchanged, at its old
    index), and keeps every sampler in its place with its interpolation. *)
Theorem X23_animation_pass_only_appends (g : Gltf) (options : option Options) :
  animationFrame g (compressDracoAnimations g options).2.
Proof.
  unfold compressDracoAnimations. rewrite bind_get, bind_run. unfold lift.
  destruct (extractSamplers _ _) as [[ea n]|]; [|apply animationFrame_refl].
  destruct (decide (n = 0%nat)); [apply animationFrame_refl|].
  revert g. apply (within_bind _ animationFrame_trans).
  { apply within_modify. intros g. destruct (animationFrame_refl g) as (_ & Hm & Hs).
    split; [by repeat split|]. split; [done|exact Hs]. }
  intros _. apply (within_bind _ animationFrame_trans); [apply encodeAnimations_frame|].
  intros encodedAnimations.
  apply (within_bind _ animationFrame_trans); [apply removeSamplerAccessorDataFrom_frame|].
  intros replaced. apply within_modify. intros g.
  destruct (animationFrame_refl g) as (_ & Hm & Hs).
  split; [by repeat split|]. split; [done|exact Hs].
Qed.

Lemma removeSamplerAccessorDataFrom_grows (ea ea' : Extracted)
    (replacedAccessors : gmap nat nat) (g g' : Gltf) :
  ea ≠ [] →
  removeSamplerAccessorDataFrom replacedAccessors ea g = (Return ea', g') →
  (length (accessors g) < length (accessors g'))%nat.
Proof.
  destruct ea as [|[i e] ea]; [done|]. intros _ Hrun. simpl in Hrun.
  destruct (replacedAccessors !! i); [discriminate|].
  apply bind_Return in Hrun as (newAccessorId & g1 & H1 & Hrun).
  assert (L1 : length (accessors g1) = S (length (accessors g))).
  { unfold removeDataAndReplaceAccessor in H1. rewrite bind_get in H1.
    destruct (accessors g !! i); [|discriminate].
    unfold addToArray in H1. rewrite bind_put in H1. injection H1 as _ <-.
    cbn [accessors set_animations set_accessors]. rewrite length_app. simpl. lia. }
  apply bind_Return in Hrun as (r & g2 & H2 & Hrun).
  apply bind_Return in Hrun as (rest' & g3 & H3 & Hrun).
  injection Hrun as _ <-.
  pose proof (replaceOutputs_frame (ca_outputs e) (<[i := newAccessorId]> replacedAccessors) g1)
    as ((P2 & _) & _).
  pose proof (removeSamplerAccessorDataFrom_frame ea r.1 g2) as ((P3 & _) & _).
  rewrite H2 in P2. rewrite H3 in P3. cbn [snd] in *.
  apply prefix_length in P2, P3. lia.
Qed.

(** X22.  The animation pass hands back the asset exactly as it was passed
    in, without a throw, if and only if the asset has no animation sampler:
    with no sampler nothing is declared or added (line 135), and with one a
    normal return has added accessors. *)
Theorem X22_animation_pass_is_idle_exactly_without_samplers (g : Gltf)
    (options : option Options) :
  compressDracoAnimations g options = (Return tt, g) ↔ allSamplers g = [].
Proof.
  split.
  2:{ intros Hnone. unfold compressDracoAnimations.
      rewrite bind_get, bind_run. unfold lift. by rewrite Hnone. }
  intros Hrun. destruct (allSamplers g) as [|s l] eqn:El; [done|]. exfalso.
  unfold compressDracoAnimations in Hrun.
  rewrite bind_get, bind_run in Hrun. unfold lift in Hrun. rewrite El in Hrun.
  destruct (extractSamplers ([], 0%nat) (s :: l)) as [[ea n]|] eqn:Eex; [|discriminate].
  apply extractSamplers_Return in Eex as (Hn & _ & Hall).
  destruct (decide (n = 0%nat)) as [->|_]; [simpl in Hn; lia|].
  rewrite bind_modify in Hrun.
  apply bind_Return in Hrun as (ea1 & g2 & H2 & Hrun).
  apply bind_Return in Hrun as (ea2 & g3 & H3 & Hrun).
  unfold modify in Hrun. injection Hrun as Hg.
  pose proof (encodeAnimations_frame options ea (addExtensionsRequired g
                "Draco_animation_compression")) as ((P2 & _) & _).
  rewrite H2 in P2. cbn [snd accessors addExtensionsRequired] in P2.
  apply prefix_length in P2.
  apply encodeAnimations_Return in H2 as [_ Hhas].
  destruct (Hall s ltac:(left)) as (i & o & _ & _ & Hio).
  apply Hhas in Hio as (e1 & Hin1 & _).
  assert (Hne : ea1 ≠ []) by (intros ->; by apply elem_of_nil in Hin1).
  apply (removeSamplerAccessorDataFrom_grows _ _ _ _ _ Hne) in H3.
  assert (Ea : accessors g = accessors g3) by (by rewrite <- Hg at 1).
  rewrite Ea in P2. lia.
Qed.

End AnimationFrame.

(** ** Animations: the samplers after the pass *)

Section Repointing.
Import CompressDracoAnimations.
Context {collaborators : Collaborators}.

Lemma positionOf_app (x : nat) (l1 l2 : list nat) :
  positionOf x (l1 ++ l2)
  = match positionOf x l1 with
    | Some j => Some j
    | None => (fun j => (length l1 + j)%nat) <$> positionOf x l2
    end.
Proof.
  induction l1 as [|y l1 IH]; simpl.
  - by destruct (positionOf x l2).
  - destruct (decide (y = x)); [done|]. rewrite IH.
    destruct (positionOf x l1); [done|]. by destruct (positionOf x l2).
Qed.

Lemma positionOf_None (x : nat) (l : list nat) : positionOf x l = None ↔ x ∉ l.
Proof.
  induction l as [|y l IH]; simpl.
  - split; [intros _ H; by apply elem_of_nil in H|done].
  - destruct (decide (y = x)) as [->|Hne].
    + split; [discriminate|]. intros H. exfalso. apply H. left.
    + rewrite not_elem_of_cons, <- IH. destruct (positionOf x l); simpl.
      * split; [discriminate|]. intros [_ ?]. discriminate.
      * split; [|done]. intros _. split; [congruence|done].
Qed.

Lemma positionOf_lookup (x : nat) (l : list nat) (j : nat) :
  positionOf x l = Some j → l !! j = Some x.
Proof.
  revert j. induction l as [|y l IH]; intros j; simpl; [discriminate|].
  destruct (decide (y = x)) as [->|Hne]; [by intros [= <-]|].
  destruct (positionOf x l) as [j'|]; [|discriminate]. simpl. intros [= <-].
  by apply IH.
Qed.

Lemma renamed_snoc (n0 : nat) (done : list nat) (x v : nat) :
  (x < n0)%nat → x ∉ done →
  (if decide (renamed n0 done v = x) then (n0 + length done)%nat else renamed n0 done v)
  = renamed n0 (done ++ [x]) v.
Proof.
  intros Hx Hfresh. unfold renamed. rewrite positionOf_app.
  destruct (positionOf v done) as [j|] eqn:Ej.
  - rewrite decide_False by lia. done.
  - simpl. destruct (decide (x = v)) as [->|Hne].
    + rewrite decide_True by done. simpl. f_equal. lia.
    + rewrite decide_False by congruence. done.
Qed.

Lemma replaceInSampler_renamed (n0 : nat) (done : list nat) (x : nat) (s : Sampler) :
  (x < n0)%nat → x ∉ done →
  replaceInSampler x (n0 + length done) (renamedSampler n0 done s)
  = renamedSampler n0 (done ++ [x]) s.
Proof.
  intros Hx Hfresh. unfold replaceInSampler, renamedSampler. cbn [input output interpolation].
  f_equal.
  - destruct (input s) as [v|]; [|done]. cbn [fmap option_fmap option_map].
    rewrite <- (renamed_snoc n0 done x v Hx Hfresh). by destruct (decide _).
  - destruct (output s) as [v|]; [|done]. cbn [fmap option_fmap option_map].
    rewrite <- (renamed_snoc n0 done x v Hx Hfresh). by destruct (decide _).
Qed.

Lemma replaced_length (g0 : Gltf) (done : list nat) :
  (∀ y, y ∈ done → (y < length (accessors g0))%nat) →
  length (omap (fun x => dataless <$> accessors g0 !! x) done) = length done.
Proof.
  induction done as [|y done IH]; intros Hall; simpl; [done|].
  destruct (lookup_lt_is_Some_2 (accessors g0) y) as [a Ha]; [apply Hall; left|].
  rewrite Ha. simpl. f_equal. apply IH. intros z Hz. apply Hall. by right.
Qed.

(** One replacement, lines 24-46. *)
Lemma removeDataAndReplaceAccessor_step (g0 g : Gltf) (done : list nat) (x : nat) :
  replacedSoFar g0 done g →
  (∀ y, y ∈ done → (y < length (accessors g0))%nat) →
  (x < length (accessors g0))%nat → x ∉ done →
  ∃ g', removeDataAndReplaceAccessor x g
        = (Return (length (accessors g0) + length done)%nat, g')
        ∧ replacedSoFar g0 (done ++ [x]) g'
        ∧ bufferViews g' = bufferViews g ∧ buffers g' = buffers g.
Proof.
  intros [Hacc Hanim] Hdone Hx Hfresh.
  destruct (lookup_lt_is_Some_2 (accessors g0) x Hx) as [a Ha].
  assert (Ha' : accessors g !! x = Some a) by (rewrite Hacc; by apply lookup_app_l_Some).
  assert (Hlen : length (accessors g) = (length (accessors g0) + length done)%nat).
  { by rewrite Hacc, length_app, replaced_length. }
  unfold removeDataAndReplaceAccessor. rewrite bind_get, Ha'.
  unfold addToArray. rewrite bind_put. cbn [ret]. rewrite Hlen.
  eexists. split; [reflexivity|]. split; [|done]. split.
  - cbn [accessors set_animations set_accessors]. rewrite Hacc, omap_app. simpl.
    rewrite Ha. simpl. by rewrite <- app_assoc.
  - cbn [animations set_animations]. rewrite Hanim, map_map.
    apply map_ext. intros an. cbn [samplers]. f_equal. rewrite map_map.
    apply map_ext. intros s. by apply replaceInSampler_renamed.
Qed.

Lemma replaceOutputs_steps (g0 : Gltf) (outputs outputs' : list nat)
    (replacedAccessors replaced' : gmap nat nat) (done : list nat) (g g' : Gltf) :
  replaceOutputs replacedAccessors outputs g = (Return (replaced', outputs'), g') →
  replacedSoFar g0 done g →
  (∀ y, y ∈ done ++ outputs → (y < length (accessors g0))%nat) →
  NoDup (done ++ outputs) →
  replacedSoFar g0 (done ++ outputs) g'
  ∧ outputs' = seq (length (accessors g0) + length done) (length outputs)
  ∧ bufferViews g' = bufferViews g ∧ buffers g' = buffers g.
Proof.
  revert outputs' replacedAccessors replaced' done g.
  induction outputs as [|o rest IH];
    intros outputs' replacedAccessors replaced' done g Hrun Hst Hall Hnd; simpl in Hrun.
  { injection Hrun as <- <- <-. by rewrite app_nil_r. }
  destruct (replacedAccessors !! o); [discriminate|].
  destruct (removeDataAndReplaceAccessor_step g0 g done o Hst) as (g1 & H1 & Hst1 & Eb & Ec).
  { intros y Hy. apply Hall, elem_of_app. by left. }
  { apply Hall, elem_of_app. right. left. }
  { apply NoDup_app in Hnd as (_ & Hd & _). intros Hin. apply (Hd _ Hin). left. }
  rewrite bind_run, H1 in Hrun.
  apply bind_Return in Hrun as ([r1 r2] & g2 & Hrest & Hrun).
  injection Hrun as <- <- <-. cbn [fst snd] in *.
  apply (IH _ _ _ (done ++ [o])) in Hrest as (Hst2 & Ho & Eb2 & Ec2); [|done| |].
  - rewrite <- app_assoc in Hst2. split; [done|]. split; [|split; congruence].
    rewrite Ho, length_app. simpl. f_equal. f_equal. lia.
  - intros y Hy. apply Hall. by rewrite <- app_assoc in Hy.
  - by rewrite <- app_assoc.
Qed.

Lemma positionOf_middle (x : nat) (done rest : list nat) :
  x ∉ done → positionOf x (done ++ x :: rest) = Some (length done).
Proof.
  intros Hfresh. rewrite positionOf_app.
  apply positionOf_None in Hfresh. rewrite Hfresh. simpl.
  rewrite decide_True by done. simpl. f_equal. lia.
Qed.

Lemma renamed_run (n0 : nat) (pre outs rest : list nat) :
  NoDup (pre ++ outs) →
  map (renamed n0 (pre ++ outs ++ rest)) outs = seq (n0 + length pre) (length outs).
Proof.
  revert pre. induction outs as [|o outs IH]; intros pre Hnd; [done|].
  simpl. f_equal.
  - unfold renamed. rewrite positionOf_middle; [done|].
    apply NoDup_app in Hnd as (_ & Hd & _). intros Hin. apply (Hd _ Hin). left.
  - specialize (IH (pre ++ [o])). rewrite <- !app_assoc in IH. simpl in IH.
    rewrite IH by done. rewrite length_app. simpl. f_equal. lia.
Qed.

Lemma removeSamplerAccessorDataFrom_steps (g0 : Gltf) (ea ea' : Extracted)
    (replacedAccessors : gmap nat nat) (done : list nat) (g g' : Gltf) :
  removeSamplerAccessorDataFrom replacedAccessors ea g = (Return ea', g') →
  replacedSoFar g0 done g →
  (∀ y, y ∈ done ++ replacedIds ea → (y < length (accessors g0))%nat) →
  NoDup (done ++ replacedIds ea) →
  replacedSoFar g0 (done ++ replacedIds ea) g'
  ∧ bufferViews g' = bufferViews g ∧ buffers g' = buffers g
  ∧ Forall2 (fun entry entry' =>
       ca_input entry'.2
       = renamed (length (accessors g0)) (done ++ replacedIds ea) entry.1
       ∧ ca_outputs entry'.2
         = map (renamed (length (accessors g0)) (done ++ replacedIds ea))
               (ca_outputs entry.2)
       ∧ ca_attributesId entry'.2 = ca_attributesId entry.2
       ∧ ca_bufferView entry'.2 = ca_bufferView entry.2)
     ea ea'.
Proof.
  revert ea' replacedAccessors done g.
  induction ea as [|[i e] ea IH]; intros ea' replacedAccessors done g Hrun Hst Hall Hnd;
    simpl in Hrun.
  { injection Hrun as <- <-. simpl. rewrite app_nil_r.
    split; [done|]. split; [done|]. split; [done|]. constructor. }
  destruct (replacedAccessors !! i); [discriminate|].
  cbn [replacedIds flat_map fst snd] in Hall, Hnd |- *.
  assert (Hi : i ∉ done).
  { apply NoDup_app in Hnd as (_ & Hd & _). intros Hin. apply (Hd _ Hin). left. }
  destruct (removeDataAndReplaceAccessor_step g0 g done i Hst) as (g1 & H1 & Hst1 & Eb & Ec);
    [|apply Hall, elem_of_app; right; left|done|].
  { intros y Hy. apply Hall, elem_of_app. by left. }
  rewrite bind_run, H1 in Hrun.
  apply bind_Return in Hrun as ([r1 r2] & g2 & Houts & Hrun).
  apply bind_Return in Hrun as (rest' & g3 & Hrest & Hrun).
  injection Hrun as <- <-.
  change ((i :: ca_outputs e) ++ flat_map (λ entry, entry.1 :: ca_outputs entry.2) ea)
    with (i :: (ca_outputs e ++ replacedIds ea)) in *.
  assert (Eassoc : done ++ i :: ca_outputs e ++ replacedIds ea
                   = ((done ++ [i]) ++ ca_outputs e) ++ replacedIds ea).
  { by rewrite <- !app_assoc. }
  assert (Hnd2 : NoDup ((done ++ [i]) ++ ca_outputs e)).
  { rewrite Eassoc in Hnd. by apply NoDup_app in Hnd as (? & _). }
  apply (replaceOutputs_steps g0 _ _ _ _ (done ++ [i])) in Houts
    as (Hst2 & Ho & Eb2 & Ec2); [|done| |done].
  2:{ intros y Hy. apply Hall. rewrite Eassoc. apply elem_of_app. by left. }
  cbn [fst snd] in *.
  apply (IH _ _ ((done ++ [i]) ++ ca_outputs e)) in Hrest as (Hst3 & Eb3 & Ec3 & Hrec);
    [|done|by rewrite <- Eassoc|by rewrite <- Eassoc].
  rewrite <- Eassoc in Hst3, Hrec.
  split; [done|]. split; [congruence|]. split; [congruence|].
  constructor; [|done]. cbn [fst snd ca_input ca_outputs ca_attributesId ca_bufferView].
  split.
  { unfold renamed. by rewrite positionOf_middle. }
  split; [|done].
  rewrite Ho. replace (done ++ i :: ca_outputs e ++ replacedIds ea)
    with ((done ++ [i]) ++ ca_outputs e ++ replacedIds ea) by (by rewrite <- !app_assoc).
  by rewrite renamed_run.
Qed.

Lemma encodeAnimations_keeps (options : option Options) (ea : Extracted) :
  stepsWithin (fun g g' => accessors g' = accessors g ∧ animations g' = animations g)
              (encodeAnimations options ea).
Proof.
  set (R := fun g g' : Gltf => accessors g' = accessors g ∧ animations g' = animations g).
  assert (R_refl : ∀ g, R g g) by done.
  assert (R_trans : ∀ x y z, R x y → R y z → R x z).
  { intros x y z [A1 B1] [A2 B2]. split; congruence. }
  induction ea as [|[i e] ea IH]; simpl; [apply (within_ret _ R_refl)|].
  apply (within_bind _ R_trans).
  - unfold encodeAnimation. intros g. rewrite bind_get, bind_run. unfold lift.
    destruct (readAccessorPacked g _); [|done]. rewrite bind_run.
    destruct (addAllKeyframes _ _ _ _ _); [|done].
    destruct (_ <=? _)%Z; [done|]. done.
  - intros entry'. apply (within_bind _ R_trans); [apply IH|].
    intros rest'. apply (within_ret _ R_refl).
Qed.

Lemma outputsOn_elem (i o : nat) (l : list Sampler) :
  o ∈ outputsOn i l → ∃ s, s ∈ l ∧ input s = Some i ∧ output s = Some o.
Proof.
  unfold outputsOn. intros Ho. apply list_elem_of_omap in Ho as (s & Hs & Hso).
  exists s. split; [done|]. destruct (decide (input s = Some i)); [done|discriminate].
Qed.

(** Every id the extraction collects is named by some sampler. *)
Lemma replacedIds_named (l : list Sampler) (ea : Extracted) (n : nat) (x : nat) :
  extractSamplers ([], 0%nat) l = Return (ea, n) →
  x ∈ replacedIds ea →
  ∃ s, s ∈ l ∧ (input s = Some x ∨ output s = Some x).
Proof.
  intros Hrun Hx.
  apply (extractSamplers_entries l []) in Hrun as (_ & Hasc & Hent); [|done|done].
  unfold replacedIds in Hx. apply list_elem_of_In, in_flat_map in Hx as ([i e] & Hin & Hx).
  apply list_elem_of_In in Hin, Hx.
  apply (entryOf_elem _ _ _ Hasc) in Hin. rewrite Hent in Hin. simpl in Hin.
  destruct (outputsOn i l) as [|o outs] eqn:Eo; [discriminate|]. injection Hin as <-.
  cbn [fst snd ca_outputs] in Hx. apply elem_of_cons in Hx as [->|Hx].
  - destruct (outputsOn_elem i o l) as (s & Hs & Hi & _); [rewrite Eo; left|]. eauto.
  - destruct (outputsOn_elem i x l) as (s & Hs & _ & Ho); [by rewrite Eo|]. eauto.
Qed.

Lemma positionOf_elem (x : nat) (l : list nat) :
  x ∈ l → ∃ j, positionOf x l = Some j.
Proof.
  intros Hx. destruct (positionOf x l) as [j|] eqn:E; [eauto|].
  by apply positionOf_None in E.
Qed.

Lemma replaced_lookup (g0 : Gltf) (done : list nat) (j x : nat) (a : Accessor) :
  (∀ y, y ∈ done → (y < length (accessors g0))%nat) →
  done !! j = Some x → accessors g0 !! x = Some a →
  omap (fun x => dataless <$> accessors g0 !! x) done !! j = Some (dataless a).
Proof.
  revert j. induction done as [|y done IH]; intros j Hall Hj Ha; [done|].
  destruct (lookup_lt_is_Some_2 (accessors g0) y) as [b Hb]; [apply Hall; left|].
  simpl. rewrite Hb. simpl. destruct j as [|j]; simpl in *.
  - injection Hj as ->. rewrite Ha in Hb. by injection Hb as <-.
  - apply IH; [|done|done]. intros z Hz. apply Hall. by right.
Qed.

Lemma renamedSampler_nil (n0 : nat) (s : Sampler) : renamedSampler n0 [] s = s.
Proof.
  unfold renamedSampler, renamed. simpl. destruct s as [[i|] [o|] k]; done.
Qed.

Lemma replacedSoFar_nil (g : Gltf) : replacedSoFar g [] g.
Proof.
  split; [simpl; by rewrite app_nil_r|].
  rewrite <- (map_id (animations g)) at 1. apply map_ext. intros [ss]. cbn [samplers].
  f_equal. rewrite <- (map_id ss) at 1. apply map_ext. intros s.
  by rewrite renamedSampler_nil.
Qed.

Lemma allSamplers_renamed (f : Sampler → Sampler) (l : list Animation) :
  flat_map samplers (map (fun a => mkAnimation (map f (samplers a))) l)
  = map f (flat_map samplers l).
Proof.
  induction l as [|a l IH]; simpl; [done|]. by rewrite IH, map_app.
Qed.

(** X24.  In an asset whose samplers all name accessors that exist, a
    normal return of the animation pass leaves every sampler in its place,
    with its interpolation, and with its input and its output each naming
    an accessor the pass has appended: one that has the componentType,
    count, type, min and max of the accessor named before, and no
    bufferView, no byteOffset and no other property. *)
Theorem X24_samplers_name_dataless_copies (g g' : Gltf) (options : option Options) :
  samplersResolve g →
  compressDracoAnimations g options = (Return tt, g') →
  Forall2 (fun s s' =>
      interpolation s' = interpolation s
      ∧ repointed g g' (input s) (input s')
      ∧ repointed g g' (output s) (output s'))
    (allSamplers g) (allSamplers g').
Proof.
  intros Hwf Hrun. unfold compressDracoAnimations in Hrun.
  rewrite bind_get, bind_run in Hrun. unfold lift in Hrun.
  destruct (extractSamplers ([], 0%nat) (allSamplers g)) as [[ea n]|] eqn:Eex;
    [|discriminate].
  destruct (decide (n = 0%nat)) as [->|_].
  { apply extractSamplers_Return in Eex as (Hn & _). simpl in Hn.
    symmetry in Hn. apply nil_length_inv in Hn. injection Hrun as <-.
    rewrite Hn. constructor. }
  rewrite bind_modify in Hrun.
  apply bind_Return in Hrun as (ea1 & g2 & H2 & Hrun).
  apply bind_Return in Hrun as (ea2 & g3 & H3 & Hrun).
  unfold modify in Hrun. injection Hrun as <-.
  pose proof (encodeAnimations_keeps options ea
                (addExtensionsRequired g "Draco_animation_compression")) as [Ea2 En2].
  rewrite H2 in Ea2, En2. cbn [snd accessors animations addExtensionsRequired] in Ea2, En2.
  apply encodeAnimations_Return in H2 as [Hids Hhas].
  unfold removeAllSamplerAccessorData in H3.
  pose proof (removeSamplerAccessorDataFrom_Return _ _ _ _ _ H3) as [Hnd _].
  assert (Hvalid : ∀ y, y ∈ replacedIds ea1 → (y < length (accessors g2))%nat).
  { intros y Hy. rewrite Hids in Hy.
    destruct (replacedIds_named _ _ _ _ Eex Hy) as (s & Hs & Hsy).
    rewrite Ea2. by apply (Hwf s y). }
  apply (removeSamplerAccessorDataFrom_steps g2 _ _ _ [] g2) in H3
    as ([Hacc Hanim] & _); [|apply replacedSoFar_nil|done|done].
  simpl in Hacc, Hanim.
  apply extractSamplers_Return in Eex as (_ & _ & Hall).
  unfold allSamplers at 2. cbn [animations]. rewrite Hanim, En2, allSamplers_renamed.
  apply Forall2_fmap_r, Forall_Forall2_diag, Forall_forall. intros s Hs.
  destruct (Hall s Hs) as (i & o & Hi & Ho & Hio).
  split; [done|].
  assert (Hpoint : ∀ x, x ∈ replacedIds ea1 → (x < length (accessors g))%nat →
            repointed g (mkGltf (accessors g3) (bufferViews g3) (buffers g3) (meshes g3)
                           (animations g3) (extensionsUsed g3) (extensionsRequired g3)
                           (Some (default [] (Draco_animation_compression g3)
                                  ++ map snd ea2)))
                      (Some x) (renamed (length (accessors g2)) (replacedIds ea1) <$> Some x)).
  { intros x Hx Hlt.
    destruct (lookup_lt_is_Some_2 (accessors g) x Hlt) as [a Ha].
    destruct (positionOf_elem x _ Hx) as [j Hj].
    exists x, (length (accessors g2) + j)%nat, a.
    split; [done|]. split; [cbn; unfold renamed; by rewrite Hj|].
    split; [done|]. split; [rewrite Ea2; lia|].
    cbn [accessors]. rewrite Hacc, lookup_app_r by lia.
    replace (length (accessors g2) + j - length (accessors g2))%nat with j by lia.
    apply (replaced_lookup g2 _ j x a Hvalid); [by apply positionOf_lookup|].
    by rewrite Ea2. }
  cbn [renamedSampler input output]. rewrite Hi, Ho. split.
  - apply Hpoint; [|apply (Hwf s i Hs); by left].
    rewrite Hids. destruct Hio as (e & Hin & _). by eapply replacedIds_key.
  - apply Hpoint; [|apply (Hwf s o Hs); by right].
    rewrite Hids. by eapply replacedIds_output.
Qed.

Lemma addAllKeyframes_Return (g : Gltf) (numKeyframes : nat)
    (outputs : list nat) (ka ka' : KeyframeAnimation) (ids ids' : list Z) :
  addAllKeyframes g numKeyframes ka ids outputs = Return (ka', ids') →
  ∃ new, ids' = ids ++ new ∧ length new = length outputs
         ∧ Forall (fun id => (0 < id)%Z) new.
Proof.
  revert ka ids. induction outputs as [|output rest IH]; intros ka ids Hrun; simpl in Hrun.
  { injection Hrun as <- <-. exists []. by rewrite app_nil_r. }
  destruct (accessors g !! output) as [a|]; [|discriminate].
  destruct (readAccessorPacked g (Some a)) as [packed|]; [|discriminate].
  destruct (Z.leb_spec (AddKeyframes ka numKeyframes
              (numberOfComponentsForType (acc_type a)) packed) 0) as [|Hpos];
    [discriminate|].
  apply IH in Hrun as (new & -> & Hlen & Hall).
  eexists (_ :: new). rewrite <- app_assoc. split; [reflexivity|].
  split; [simpl; by rewrite Hlen|]. by constructor.
Qed.

Lemma storedPayload_later (g g' : Gltf) (bv : nat) :
  bufferViews g `prefix_of` bufferViews g' → buffers g `prefix_of` buffers g' →
  storedPayload g bv → storedPayload g' bv.
Proof.
  intros Pbv Pbuf (bufferView & buffer & H1 & H2 & H3 & H4).
  exists bufferView, buffer. split; [by eapply prefix_lookup_Some|].
  split; [done|]. split; [by eapply prefix_lookup_Some|done].
Qed.

Lemma encodeAnimation_encoded (options : option Options)
    (entry entry' : nat * CompressedAnimation) (g g' : Gltf) :
  encodeAnimation options entry g = (Return entry', g') →
  encodedFrom (length (bufferViews g)) g' entry entry'.
Proof.
  destruct entry as [i e]. unfold encodeAnimation.
  rewrite bind_get, bind_run. unfold lift.
  destruct (readAccessorPacked g _) as [timestampsData|]; [|discriminate].
  rewrite bind_run.
  destruct (addAllKeyframes _ _ _ _ _) as [[ka aids]|] eqn:Ek; [|discriminate].
  apply addAllKeyframes_Return in Ek as (new & -> & Hlen & Hpos). cbn [fst snd].
  match goal with |- context [(encodedLen ?x <=? 0)%Z] => set (encoded := x) end.
  destruct (Z.leb_spec (encodedLen encoded) 0) as [|Hlenpos]; [discriminate|].
  unfold addCompressedAnimation. rewrite bind_run, bind_get. unfold addToArray.
  rewrite bind_put. cbn [ret]. intros [= <- <-].
  split; [done|]. split; [done|]. split; [done|]. split; [by exists new|].
  exists (length (bufferViews g)). split; [done|]. split; [done|].
  eexists _, _. cbn [bufferViews buffers set_bufferViews set_buffers].
  split; [rewrite lookup_app_r by done; by rewrite Nat.sub_diag|].
  split; [done|]. cbn [bv_buffer].
  split; [rewrite lookup_app_r by done; by rewrite Nat.sub_diag|].
  split; [done|]. cbn [buf_byteLength buf_source].
  split; [|done]. rewrite length_map, length_seq. lia.
Qed.

Lemma encodedFrom_later (first first' : nat) (g g' : Gltf)
    (entry entry' : nat * CompressedAnimation) :
  (first' ≤ first)%nat → animationFrame g g' →
  encodedFrom first g entry entry' → encodedFrom first' g' entry entry'.
Proof.
  intros Hle ((_ & Pbv & Pbuf) & _) (H1 & H2 & H3 & H4 & bv & H5 & H6 & H7).
  repeat (split; [done|]). exists bv. split; [done|]. split; [lia|].
  by eapply storedPayload_later.
Qed.

Lemma encodeAnimations_encoded (options : option Options) (ea ea' : Extracted)
    (g g' : Gltf) :
  encodeAnimations options ea g = (Return ea', g') →
  Forall2 (encodedFrom (length (bufferViews g)) g') ea ea'.
Proof.
  revert ea' g. induction ea as [|entry ea IH]; intros ea' g Hrun; simpl in Hrun.
  { injection Hrun as <- <-. constructor. }
  apply bind_Return in Hrun as (entry' & g1 & H1 & Hrun).
  apply bind_Return in Hrun as (rest' & g2 & H2 & Hrun).
  injection Hrun as <- <-.
  pose proof (encodeAnimation_frame options entry g) as F1. rewrite H1 in F1.
  pose proof (encodeAnimations_frame options ea g1) as F2. rewrite H2 in F2.
  cbn [snd] in F1, F2.
  constructor.
  - apply encodeAnimation_encoded in H1. by eapply encodedFrom_later.
  - apply IH in H2. eapply Forall2_impl; [exact H2|]. intros x y Hxy.
    eapply encodedFrom_later; [|apply animationFrame_refl|exact Hxy].
    destruct F1 as ((_ & Pbv & _) & _). by apply prefix_length.
Qed.

Lemma removeSamplerAccessorDataFrom_extension (ea : Extracted)
    (replacedAccessors : gmap nat nat) :
  stepsWithin (fun g g' => Draco_animation_compression g' = Draco_animation_compression g)
              (removeSamplerAccessorDataFrom replacedAccessors ea).
Proof.
  set (R := fun g g' : Gltf =>
              Draco_animation_compression g' = Draco_animation_compression g).
  assert (R_refl : ∀ g, R g g) by done.
  assert (R_trans : ∀ x y z, R x y → R y z → R x z) by (unfold R; congruence).
  assert (Hone : ∀ x, stepsWithin R (removeDataAndReplaceAccessor x)).
  { intros x g. unfold removeDataAndReplaceAccessor. rewrite bind_get.
    by destruct (accessors g !! x). }
  assert (Houts : ∀ outputs m, stepsWithin R (replaceOutputs m outputs)).
  { induction outputs as [|o rest IH]; intros m; simpl; [apply (within_ret _ R_refl)|].
    destruct (m !! o); [apply (within_throw _ R_refl)|].
    apply (within_bind _ R_trans); [apply Hone|]. intros newId.
    apply (within_bind _ R_trans); [apply IH|]. intros r. apply (within_ret _ R_refl). }
  revert replacedAccessors. induction ea as [|[i e] ea IH]; intros m; simpl;
    [apply (within_ret _ R_refl)|].
  destruct (m !! i); [apply (within_throw _ R_refl)|].
  apply (within_bind _ R_trans); [apply Hone|]. intros newId.
  apply (within_bind _ R_trans); [apply Houts|]. intros r.
  apply (within_bind _ R_trans); [apply IH|]. intros rest'. apply (within_ret _ R_refl).
Qed.

Lemma encodeAnimations_extension (options : option Options) (ea : Extracted) :
  stepsWithin (fun g g' => Draco_animation_compression g' = Draco_animation_compression g)
              (encodeAnimations options ea).
Proof.
  set (R := fun g g' : Gltf =>
              Draco_animation_compression g' = Draco_animation_compression g).
  assert (R_refl : ∀ g, R g g) by done.
  assert (R_trans : ∀ x y z, R x y → R y z → R x z) by (unfold R; congruence).
  induction ea as [|[i e] ea IH]; simpl; [apply (within_ret _ R_refl)|].
  apply (within_bind _ R_trans).
  - unfold encodeAnimation. intros g. rewrite bind_get, bind_run. unfold lift.
    destruct (readAccessorPacked g _); [|done]. rewrite bind_run.
    destruct (addAllKeyframes _ _ _ _ _); [|done].
    destruct (_ <=? _)%Z; [done|]. done.
  - intros entry'. apply (within_bind _ R_trans); [apply IH|].
    intros rest'. apply (within_ret _ R_refl).
Qed.

(** X25.  In an asset that has samplers, all naming accessors that exist, a
    normal return of the animation pass has appended to the
    [Draco_animation_compression] array one record for each timeline, in
    ascending order of the timelines' inputs.  The record of a timeline
    names, as input and outputs, the very accessors that the samplers now
    name in place of the timeline's input and outputs; it lists one
    attribute id for each output, all positive; and its bufferView is one
    the pass has appended, which starts at byte 0 of its buffer and spans
    all of it, the buffer holding as many bytes as its byteLength says. *)
Theorem X25_one_record_for_each_timeline (g g' : Gltf) (options : option Options)
    (ea : Extracted) (n : nat) :
  samplersResolve g →
  allSamplers g ≠ [] →
  extractSamplers ([], 0%nat) (allSamplers g) = Return (ea, n) →
  compressDracoAnimations g options = (Return tt, g') →
  ∃ ids records,
    Draco_animation_compression g'
    = Some (default [] (Draco_animation_compression g) ++ records)
    ∧ Forall2 (recordOf g g' ids) ea records
    ∧ allSamplers g' = map (renamedSampler (length (accessors g)) ids) (allSamplers g).
Proof.
  intros Hwf Hsome Eex Hrun. unfold compressDracoAnimations in Hrun.
  rewrite bind_get, bind_run in Hrun. unfold lift in Hrun. rewrite Eex in Hrun.
  destruct (decide (n = 0%nat)) as [->|_].
  { apply extractSamplers_Return in Eex as (Hn & _). simpl in Hn.
    symmetry in Hn. by apply nil_length_inv in Hn. }
  rewrite bind_modify in Hrun.
  apply bind_Return in Hrun as (ea1 & g2 & H2 & Hrun).
  apply bind_Return in Hrun as (ea2 & g3 & H3 & Hrun).
  unfold modify in Hrun. injection Hrun as <-.
  set (g1 := addExtensionsRequired g "Draco_animation_compression") in *.
  pose proof (encodeAnimations_keeps options ea g1) as [Ea2 En2].
  pose proof (encodeAnimations_extension options ea g1) as Ex2.
  pose proof (encodeAnimations_frame options ea g1) as ((_ & Pbv2 & _) & _).
  rewrite H2 in Ea2, En2, Ex2, Pbv2. cbn [snd] in Ea2, En2, Ex2, Pbv2.
  pose proof (encodeAnimations_encoded _ _ _ _ _ H2) as Henc.
  apply encodeAnimations_Return in H2 as [Hids Hhas].
  unfold removeAllSamplerAccessorData in H3.
  pose proof (removeSamplerAccessorDataFrom_Return _ _ _ _ _ H3) as [Hnd _].
  pose proof (removeSamplerAccessorDataFrom_extension ea1 ∅ g2) as Ex3.
  rewrite H3 in Ex3. cbn [snd] in Ex3.
  assert (Hvalid : ∀ y, y ∈ replacedIds ea1 → (y < length (accessors g2))%nat).
  { intros y Hy. rewrite Hids in Hy.
    destruct (replacedIds_named _ _ _ _ Eex Hy) as (s & Hs & Hsy).
    rewrite Ea2. by apply (Hwf s y). }
  apply (removeSamplerAccessorDataFrom_steps g2 _ _ _ [] g2) in H3
    as ([Hacc Hanim] & Eb3 & Ec3 & Hrec); [|apply replacedSoFar_nil|done|done].
  simpl in Hacc, Hanim, Hrec.
  exists (replacedIds ea1), (map snd ea2). cbn [Draco_animation_compression].
  split; [by rewrite Ex3, Ex2|]. split.
  - apply Forall2_fmap_r.
    eapply Forall2_trans; [|exact Henc|exact Hrec].
    intros entry entry1 entry2 (K1 & K2 & K3 & K4 & bv & K5 & K6 & K7) (R1 & R2 & R3 & R4).
    unfold recordOf, compose. cbn beta.
    rewrite R1, R2, R3, R4, K1, K3, Ea2.
    split; [done|]. split; [done|]. split; [done|].
    exists bv. split; [done|]. split; [done|].
    destruct K7 as (bufferView & buffer & S1 & S2 & S3 & S4).
    exists bufferView, buffer. cbn [bufferViews buffers]. by rewrite Eb3, Ec3.
  - unfold allSamplers at 1. cbn [animations].
    by rewrite Hanim, En2, allSamplers_renamed, Ea2.
Qed.

End Repointing.

Lemma X20_witness_two_timelines :
  (3 = length (CompressDracoAnimations.allSamplers Samples.animatedAsset))%nat
  ∧ ascending (map fst Samples.timelines)
  ∧ ∀ i e, (i, e) ∈ Samples.timelines
           ↔ outputsOn i (CompressDracoAnimations.allSamplers Samples.animatedAsset) ≠ []
             ∧ e = mkCompressedAnimation i
                     (outputsOn i (CompressDracoAnimations.allSamplers Samples.animatedAsset))
                     None None.
Proof.
  apply (X20_samplers_are_grouped_by_input
           (CompressDracoAnimations.allSamplers Samples.animatedAsset)
           Samples.timelines 3).
  reflexivity.
Defined.

Lemma X21_witness_no_interpolation :
  CompressDracoAnimations.compressDracoAnimations
    (collaborators := Samples.countingAnimationEncoder) Samples.noInterpolation None
  = (Throw "Error: Animation missing input/output.", Samples.noInterpolation)
  ∨ CompressDracoAnimations.compressDracoAnimations
      (collaborators := Samples.countingAnimationEncoder) Samples.noInterpolation None
    = (Throw "Error: Animation missing interpolation method.", Samples.noInterpolation).
Proof.
  apply (@X21_malformed_sampler_rejected_before_any_change
           Samples.countingAnimationEncoder Samples.noInterpolation None
           (mkSampler (Some 0%nat) (Some 1%nat) None)).
  - apply list_elem_of_here.
  - right. right. reflexivity.
Defined.

Lemma X24_witness_animated_asset :
  Forall2 (fun s s' =>
      interpolation s' = interpolation s
      ∧ repointed Samples.animatedAsset Samples.compressedAnimations (input s) (input s')
      ∧ repointed Samples.animatedAsset Samples.compressedAnimations (output s) (output s'))
    (CompressDracoAnimations.allSamplers Samples.animatedAsset)
    (CompressDracoAnimations.allSamplers Samples.compressedAnimations).
Proof.
  apply (@X24_samplers_name_dataless_copies Samples.countingAnimationEncoder
           Samples.animatedAsset Samples.compressedAnimations None).
  - intros s x Hin Hx.
    repeat (apply elem_of_cons in Hin as [->|Hin]);
      [| | |by apply elem_of_nil in Hin];
      destruct Hx as [[= <-]|[= <-]]; simpl; lia.
  - vm_compute. reflexivity.
Defined.

Lemma X25_witness_animated_asset :
  ∃ ids records,
    Draco_animation_compression Samples.compressedAnimations
    = Some (default [] (Draco_animation_compression Samples.animatedAsset) ++ records)
    ∧ Forall2 (recordOf Samples.animatedAsset Samples.compressedAnimations ids)
              Samples.timelines records
    ∧ CompressDracoAnimations.allSamplers Samples.compressedAnimations
      = map (renamedSampler (length (accessors Samples.animatedAsset)) ids)
            (CompressDracoAnimations.allSamplers Samples.animatedAsset).
Proof.
  apply (@X25_one_record_for_each_timeline Samples.countingAnimationEncoder
           Samples.animatedAsset Samples.compressedAnimations None
           Samples.timelines 3).
  - intros s x Hin Hx.
    repeat (apply elem_of_cons in Hin as [->|Hin]);
      [| | |by apply elem_of_nil in Hin];
      destruct Hx as [[= <-]|[= <-]]; simpl; lia.
  - discriminate.
  - reflexivity.
  - vm_compute. reflexivity.
Defined.
